(** * LogSentinel: the hybrid model pipeline and the staged training controller

    A shallow embedding of [logsentinel_model.py] (class [LogSentinelModel])
    and [engine/training_controller.py] (class [TrainingController]),
    followed by the properties of the design document that were checked
    against them.

    Conventions.
    - Python integers are [Z]; lengths and list positions are [nat].
    - A Python [float] that the code only compares, divides or multiplies is a
      rational [Q]; rounding is not represented.
    - A logit is an [fval]: a rational, an infinity or a NaN.
    - Code that can raise returns a [result]. *)

From Stdlib Require Import ZArith QArith Qround Lia Bool.
From stdpp Require Import base list gmap strings sorting.

(** ** Python exceptions and fallible results *)

Inductive exn : Type :=
| KeyError (key : string)
| IndexError
| ZeroDivisionError
| ValueError
| RuntimeError (msg : string)
| External (what : string).

Inductive result (A : Type) : Type :=
| Ok (a : A)
| Raise (e : exn).
Arguments Ok {A} a.
Arguments Raise {A} e.

Definition rbind {A B} (r : result A) (f : A -> result B) : result B :=
  match r with
  | Ok a => f a
  | Raise e => Raise e
  end.

Declare Scope result_scope.
Delimit Scope result_scope with result.
Notation "x <-? r ; k" := (rbind r (fun x => k))
  (at level 100, r at next level, right associativity) : result_scope.

Fixpoint rmapM {A B} (f : A -> result B) (l : list A) : result (list B) :=
  match l with
  | [] => Ok []
  | a :: rest =>
      (b <-? f a; bs <-? rmapM f rest; Ok (b :: bs))%result
  end.

(** ** Python built-ins used by both files *)

(** [s[:n]] on a list: a negative bound counts from the end. *)
Definition slice_to {A} (n : Z) (s : list A) : list A :=
  if (0 <=? n)%Z then take (Z.to_nat n) s
  else take (length s - Z.to_nat (- n)) s.

(** [range(start, stop, step)] for a positive step; the fuel is the number of
    integers between [start] and [stop], which the loop cannot exceed. *)
Fixpoint range_from (fuel : nat) (start stop step : Z) : list Z :=
  match fuel with
  | O => []
  | S fuel' =>
      if (start <? stop)%Z
      then start :: range_from fuel' (start + step) stop step
      else []
  end.

(** [range(0, len(l), step)], the only shape of range the two files use: a
    zero step raises [ValueError], a negative step yields nothing. *)
Definition py_range (stop : nat) (step : Z) : result (list Z) :=
  if (step =? 0)%Z then Raise ValueError
  else if (step <? 0)%Z then Ok []
  else Ok (range_from stop 0 (Z.of_nat stop) step).

(** [a // b] and [a % b] on integers. Rocq's [Z.div] and [Z.modulo] round
    towards minus infinity and give the remainder the sign of the divisor, as
    Python does; Python raises where Rocq returns 0. *)
Definition floordiv (a b : Z) : result Z :=
  if (b =? 0)%Z then Raise ZeroDivisionError else Ok (a / b)%Z.

Definition pymod (a b : Z) : result Z :=
  if (b =? 0)%Z then Raise ZeroDivisionError else Ok (a mod b)%Z.

(** [int(x)] on a float truncates towards zero. *)
Definition int_of (x : Q) : Z := Z.quot (Qnum x) (Z.pos (Qden x)).

(** [sub in s] on strings. *)
Fixpoint contains (sub s : string) : bool :=
  String.prefix sub s ||
  match s with
  | EmptyString => false
  | String _ rest => contains sub rest
  end.

(** ** Floating-point values as far as the code looks at them *)

Inductive fval : Type :=
| NegInf
| Finite (q : Q)
| PosInf
| NaN.

(** [a < b] in the order [torch.argmax] scans with: a NaN is a maximum. *)
Definition fval_ltb (a b : fval) : bool :=
  match a, b with
  | NaN, _ => false
  | _, NaN => true
  | _, NegInf => false
  | NegInf, _ => true
  | PosInf, _ => false
  | _, PosInf => true
  | Finite x, Finite y => negb (Qle_bool y x)
  end.

(** [torch.full((rows, cols), v)]. *)
Definition full (rows cols : nat) (v : fval) : list (list fval) :=
  replicate rows (replicate cols v).

(** The row [forward] writes for a sample without prediction. *)
Definition sentinel : list fval := [NegInf; NegInf].

(** [torch.argmax(row)]: the position of the first maximal value. *)
Fixpoint argmax_from (best : fval) (best_i i : nat) (row : list fval) : nat :=
  match row with
  | [] => best_i
  | x :: rest =>
      if fval_ltb best x then argmax_from x i (S i) rest
      else argmax_from best best_i (S i) rest
  end.

Definition argmax (row : list fval) : Z :=
  match row with
  | [] => 0
  | x :: rest => Z.of_nat (argmax_from x 0 1 rest)
  end.

(** * Part I: [logsentinel_model.py] *)

(** A tensor row (an embedding or a hidden state) is a vector of numbers. *)
Abbreviation vec := (list Q).

(** The fields of [LogSentinelModel] that its methods read. The sub-networks
    are opaque: the tokenizer and the sequence encoder act on one sub-batch of
    log lines and return a pooled row per line; the projector and the
    classifier act row by row; the decoder maps a padded batch and its
    attention mask to the last hidden state, one row per position.
    [named_parameters] carries each parameter's name and its
    [requires_grad] flag. *)
Record LogSentinelModel : Type := {
  max_content_len : Z;
  max_seq_len : Z;
  llama_hidden_size : nat;
  bert_model : list string -> list vec;
  projector : vec -> vec;
  classifier : vec -> list fval;
  llama_model : list (list vec) -> list (list Z) -> list (list vec);
  instruc_embeds : list vec;
  named_parameters : list (string * bool)
}.

(** ** [_set_trainable] and the four stager modes *)

(** [kwargs.get(k)] is truthy exactly when the keyword was passed as [True]. *)
Definition kwargs_get (kwargs : gmap string bool) (k : string) : bool :=
  default false (kwargs !! k).

Definition _set_trainable_param (kwargs : gmap string bool)
    (p : string * bool) : string * bool :=
  let name := p.1 in
  let requires_grad := false in
  if contains "projector" name && kwargs_get kwargs "projector"
  then (name, true)
  else if contains "classifier" name && kwargs_get kwargs "classifier"
  then (name, true)
  else if contains "llama_model" name && contains "lora_" name
          && kwargs_get kwargs "llama_lora"
  then (name, true)
  else (name, requires_grad).

Definition with_parameters (self : LogSentinelModel)
    (ps : list (string * bool)) : LogSentinelModel :=
  {| max_content_len := max_content_len self;
     max_seq_len := max_seq_len self;
     llama_hidden_size := llama_hidden_size self;
     bert_model := bert_model self;
     projector := projector self;
     classifier := classifier self;
     llama_model := llama_model self;
     instruc_embeds := instruc_embeds self;
     named_parameters := ps |}.

Definition _set_trainable (self : LogSentinelModel)
    (kwargs : gmap string bool) : LogSentinelModel :=
  with_parameters self (map (_set_trainable_param kwargs) (named_parameters self)).

Definition set_train_only_projector (self : LogSentinelModel) :=
  _set_trainable self {[ "projector" := true ]}.
Definition set_train_only_classifier (self : LogSentinelModel) :=
  _set_trainable self {[ "classifier" := true ]}.
Definition set_train_projector_and_classifier (self : LogSentinelModel) :=
  _set_trainable self (<[ "projector" := true ]> {[ "classifier" := true ]}).
Definition set_finetuning_all (self : LogSentinelModel) :=
  _set_trainable self
    (<[ "projector" := true ]> (<[ "classifier" := true ]> {[ "llama_lora" := true ]})).

(** The curriculum as the controller lists it. *)
Inductive mode : Type :=
| ProjectorOnly
| ClassifierOnly
| ProjectorAndClassifier
| FinetuningAll.

Definition set_mode (m : mode) (self : LogSentinelModel) : LogSentinelModel :=
  match m with
  | ProjectorOnly => set_train_only_projector self
  | ClassifierOnly => set_train_only_classifier self
  | ProjectorAndClassifier => set_train_projector_and_classifier self
  | FinetuningAll => set_finetuning_all self
  end.

(** The parameter groups, as [_set_trainable] recognises them by name. *)
Inductive group : Type := GProjector | GClassifier | GLlamaLora.

Definition in_group (g : group) (name : string) : bool :=
  match g with
  | GProjector => contains "projector" name
  | GClassifier => contains "classifier" name
  | GLlamaLora => contains "llama_model" name && contains "lora_" name
  end.

(** The groups each mode lists. *)
Definition mode_groups (m : mode) : list group :=
  match m with
  | ProjectorOnly => [GProjector]
  | ClassifierOnly => [GClassifier]
  | ProjectorAndClassifier => [GProjector; GClassifier]
  | FinetuningAll => [GProjector; GClassifier; GLlamaLora]
  end.

(** [[p for p in self.parameters() if p.requires_grad]], by name. *)
Definition trainable_params (self : LogSentinelModel) : list string :=
  map fst (filter (fun p => p.2 = true) (named_parameters self)).

(** ** The sequence-to-logits pipeline *)

(** Modelled from the spec: [merge_data] of [utils.helpers], which is not
    among the sources. Section 4.3 step 2: flatten all samples' log lines
    into one list plus a per-sample start offset. *)
Fixpoint merge_data_from {A} (current_position : nat) (data : list (list A))
    : list A * list nat :=
  match data with
  | [] => ([], [])
  | sublist :: rest =>
      let r := merge_data_from (current_position + length sublist) rest in
      (sublist ++ r.1, current_position :: r.2)
  end.

Definition merge_data {A} (data : list (list A)) : list A * list nat :=
  merge_data_from 0 data.

(** Modelled from the spec: [stack_and_pad_left] of [utils.helpers], which is
    not among the sources. Section 4.3 step 8: left-pad the variable-length
    embedding sequences into one batch with a matching attention mask (0 on a
    pad position, 1 on a real one). *)
Definition stack_and_pad_left (width : nat) (tensors : list (list vec))
    : list (list vec) * list (list Z) :=
  let max_len := max_list (map length tensors) in
  (map (fun t => replicate (max_len - length t) (replicate width 0%Q) ++ t) tensors,
   map (fun t => replicate (max_len - length t) 0%Z ++ replicate (length t) 1%Z) tensors).

(** [torch.tensor_split(t, indices, dim=0)]: the pieces [t[prev:i]] between
    consecutive indices, and the rest. *)
Fixpoint tensor_split_from {A} (t : list A) (prev : nat) (indices : list nat)
    : list (list A) :=
  match indices with
  | [] => [drop prev t]
  | i :: rest => take (i - prev) (drop prev t) :: tensor_split_from t i rest
  end.

Definition tensor_split {A} (t : list A) (indices : list nat) : list (list A) :=
  tensor_split_from t 0 indices.

Definition physical_batch_size : Z := 64.

(** [get_cls_embeddings]; [None] stands for the pair [(None, None)], the
    device of the second component is left out. *)
Definition get_cls_embeddings (self : LogSentinelModel)
    (sequences_ : list (list string)) : option (list (list vec)) :=
  let sequences := map (slice_to (max_seq_len self)) sequences_ in
  let merged_logs := (merge_data sequences).1 in
  let start_positions := (merge_data sequences).2 in
  match merged_logs with
  | [] => None
  | _ :: _ =>
      let all_bert_outputs :=
        map (fun i => bert_model self
                        (take (Z.to_nat physical_batch_size)
                              (drop (Z.to_nat i) merged_logs)))
            (range_from (length merged_logs) 0
                        (Z.of_nat (length merged_logs)) physical_batch_size) in
      match all_bert_outputs with
      | [] => None
      | _ :: _ =>
          let bert_outputs := concat all_bert_outputs in
          let projected_outputs := map (projector self) bert_outputs in
          if (length projected_outputs =? 0)%nat then Some []
          else
            let split_indices := tail start_positions in
            match split_indices with
            | [] => Some [projected_outputs]
            | _ :: _ => Some (tensor_split projected_outputs split_indices)
            end
      end
  end.

(** The loop of [_get_logits] over [enumerate(seq_embeddings)], from
    position [i] on: the prefixed embeddings that are kept and their
    original positions. *)
Fixpoint collect_valid (instruc : list vec) (i : nat)
    (seq_embeddings : list (list vec)) : list (list vec) * list nat :=
  match seq_embeddings with
  | [] => ([], [])
  | seq_embed :: rest =>
      let r := collect_valid instruc (S i) rest in
      if (0 <? length seq_embed)%nat
      then ((instruc ++ seq_embed) :: r.1, i :: r.2)
      else r
  end.

(** [row[i]] with Python's wrap-around for a negative index. *)
Definition index_wrap {A} (row : list A) (i : Z) : result A :=
  let n := Z.of_nat (length row) in
  let j := if (i <? 0)%Z then (n + i)%Z else i in
  if ((0 <=? j) && (j <? n))%Z
  then match row !! Z.to_nat j with
       | Some x => Ok x
       | None => Raise IndexError
       end
  else Raise IndexError.

(** [attention_mask.sum(dim=1) - 1]. *)
Definition sequence_lengths (attention_mask : list (list Z)) : list Z :=
  map (fun m => (foldr Z.add 0 m - 1)%Z) attention_mask.

(** [last_hidden_state[batch_indices, sequence_lengths]] with
    [batch_indices = arange(n)], from batch row [k] on. *)
Fixpoint gather_from (last_hidden_state : list (list vec)) (k : nat)
    (columns : list Z) : result (list vec) :=
  match columns with
  | [] => Ok []
  | c :: rest =>
      match last_hidden_state !! k with
      | None => Raise IndexError
      | Some row =>
          (h <-? index_wrap row c;
           hs <-? gather_from last_hidden_state (S k) rest;
           Ok (h :: hs))%result
      end
  end.

(** [_get_logits]; [Ok None] stands for the pair [(None, None)]. The decoder
    output is read as its last hidden state. *)
Definition _get_logits (self : LogSentinelModel)
    (sequences_ : list (list string))
    : result (option (list (list fval) * list nat)) :=
  match get_cls_embeddings self sequences_ with
  | None => Ok None
  | Some seq_embeddings =>
      let valid_embeddings := (collect_valid (instruc_embeds self) 0 seq_embeddings).1 in
      let original_indices := (collect_valid (instruc_embeds self) 0 seq_embeddings).2 in
      match valid_embeddings with
      | [] => Ok None
      | _ :: _ =>
          let padded := stack_and_pad_left (llama_hidden_size self) valid_embeddings in
          let inputs_embeds := padded.1 in
          let attention_mask := padded.2 in
          let last_hidden_state := llama_model self inputs_embeds attention_mask in
          (cls_input_hidden_state <-?
             gather_from last_hidden_state 0 (sequence_lengths attention_mask);
           Ok (Some (map (classifier self) cls_input_hidden_state,
                     original_indices)))%result
      end
  end.

(** [t[indices] = values] on a two-dimensional tensor: one row of [values]
    per index; an index out of range or a row of another width raises. *)
Fixpoint index_put (t : list (list fval)) (indices : list nat)
    (values : list (list fval)) : result (list (list fval)) :=
  match indices, values with
  | [], [] => Ok t
  | i :: indices', v :: values' =>
      match t !! i with
      | None => Raise IndexError
      | Some old =>
          if (length v =? length old)%nat
          then index_put (<[ i := v ]> t) indices' values'
          else Raise (RuntimeError "shape mismatch")
      end
  | _, _ => Raise (RuntimeError "shape mismatch")
  end.

Definition forward (self : LogSentinelModel) (sequences_ : list (list string))
    : result (list (list fval)) :=
  (r <-? _get_logits self sequences_;
   match r with
   | None => Ok (full (length sequences_) 2 NegInf)
   | Some (logits, original_indices) =>
       let full_batch_logits := full (length sequences_) 2 NegInf in
       index_put full_batch_logits original_indices logits
   end)%result.

(** [labels[i]] on a Python list, for a position that is not negative. *)
Definition list_item {A} (l : list A) (i : nat) : result A :=
  match l !! i with
  | Some x => Ok x
  | None => Raise IndexError
  end.

Definition label_id (lbl : string) : Z :=
  if String.eqb lbl "anomalous" then 1 else 0.

(** [self.train()] puts the sub-networks in training mode, where the
    dropout of the decoder's adapters is on: in [train_helper] the
    sub-networks of [self] stand for the networks under the masks of the
    call at hand. The logits of two calls of [train_helper], or of
    [train_helper] and [forward], are therefore not comparable; what is
    proved of [train_helper] is the shape of its logits and its label
    ids. *)
Definition train_helper (self : LogSentinelModel)
    (sequences_ : list (list string)) (labels : list string)
    : result (list (list fval) * list Z) :=
  (r <-? _get_logits self sequences_;
   match r with
   | None => Ok ([], [])
   | Some (logits, original_indices) =>
       valid_str_labels <-? rmapM (list_item labels) original_indices;
       let integer_labels := map label_id valid_str_labels in
       Ok (logits, integer_labels)
   end)%result.

(** * Part II: [engine/training_controller.py] *)

(** ** What the run is observed through *)

(** The f-string [Epoch {epoch + 1}/{int(n_epochs)} ({phase_name})]. *)
Record epoch_label : Type := {
  epoch_number : Z;
  epoch_total : Z;
  epoch_phase : string
}.

(** The messages of [_log], by their text's shape. *)
Inductive message : Type :=
| MsgCreatedRun (id : string)
| MsgCleaningUp
| MsgCleanupComplete
| MsgStartingPhase (phase : string)
| MsgPhaseSkipped (phase : string)
| MsgModelDType
| MsgEpoch (label : epoch_label)
| MsgStopRequest
| MsgOversampling (add_num : Z)
| MsgTotalSteps (steps : Z)
| MsgStartingEvaluation
| MsgCriticalError (e : exn)
| MsgRunFinished (status : string).

(** The dictionaries handed to the callback. The [etc] entry of a training
    status is computed from the wall clock and is left out. *)
Inductive event : Type :=
| EvLog (m : message)
| EvTrain (epoch : epoch_label) (progress : Q) (loss : Q)
| EvEval (progress : Q)
| EvError (e : exn)
| EvDone (status : string).

(** The calls the controller makes on its collaborators, in the order they
    complete. [Callback e stop] records the event and whether the callback
    answered ['STOP']. *)
Inductive action : Type :=
| MonitorStart
| MonitorStop
| CreateNewRun
| MakeReportDir
| LoadDataset (file : string)
| BuildModel
| SetMode (m : mode)
| NewOptimizer
| ZeroGrad
| GetBatch (start_idx end_idx : Z)
| TrainHelper
| Backward
| OptimizerStep
| GcCollect
| CudaEmptyCache
| GetAllLabels
| EvalBatch (i : Z)
| ComputeMetrics
| PlotConfusionMatrix
| PlotOverallMetrics
| PlotTrainingLoss
| SavePerformanceMetrics
| SaveFtModel
| SaveResourceMetrics
| PlotResourceUsage
| UpdateRunStatus (status : string) (with_report_path : bool)
| DelReferences
| Callback (e : event) (stop : bool).

(** [LogDataset], as far as [run] reads it. *)
Record LogDataset : Type := {
  ds_len : nat;
  num_less : Z;
  num_majority : Z;
  less_indexes : list Z
}.

(** Everything outside the controller. The callback answers from what has
    happened so far; [fault] says which collaborator call of the guarded
    block raises, given the global step count at the call; the teardown
    calls and the callback return normally. [choice_draw k] is the position
    the [k]-th draw of [np.random.choice] picks; [logits_rows] and
    [criterion] are the number of rows [train_helper] returns and the
    cross-entropy of the micro-batch at a global step. *)
Record world : Type := {
  callback : list action -> event -> bool;
  create_new_run : option string;
  train_csv : LogDataset;
  test_csv : LogDataset;
  choice_draw : nat -> nat;
  built_model : LogSentinelModel;
  logits_rows : Z -> nat;
  criterion : Z -> Q;
  fault : Z -> action -> option exn;
  cuda_is_available : bool
}.

(** The attributes of [TrainingController]. The hyperparameter dictionary is
    read through its integer-valued and its real-valued keys. [trace] is the
    list of completed collaborator calls. *)
Record TrainingController : Type := {
  hp_int : gmap string Z;
  hp_real : gmap string Q;
  run_id : option string;
  model : option LogSentinelModel;
  train_dataset : option LogDataset;
  test_dataset : option LogDataset;
  visualizer : bool;
  global_step_count : Z;
  total_training_steps : Z;
  batch_losses : list Q;
  trace : list action
}.

Definition __init__ (hyper_int : gmap string Z) (hyper_real : gmap string Q)
    : TrainingController :=
  {| hp_int := hyper_int; hp_real := hyper_real;
     run_id := None; model := None;
     train_dataset := None; test_dataset := None; visualizer := false;
     global_step_count := 0; total_training_steps := 0;
     batch_losses := []; trace := [] |}.

Definition set_run_id (v : option string) (c : TrainingController) :=
  {| hp_int := hp_int c; hp_real := hp_real c; run_id := v; model := model c;
     train_dataset := train_dataset c; test_dataset := test_dataset c;
     visualizer := visualizer c; global_step_count := global_step_count c;
     total_training_steps := total_training_steps c;
     batch_losses := batch_losses c; trace := trace c |}.

Definition set_model (v : option LogSentinelModel) (c : TrainingController) :=
  {| hp_int := hp_int c; hp_real := hp_real c; run_id := run_id c; model := v;
     train_dataset := train_dataset c; test_dataset := test_dataset c;
     visualizer := visualizer c; global_step_count := global_step_count c;
     total_training_steps := total_training_steps c;
     batch_losses := batch_losses c; trace := trace c |}.

Definition set_train_dataset (v : option LogDataset) (c : TrainingController) :=
  {| hp_int := hp_int c; hp_real := hp_real c; run_id := run_id c; model := model c;
     train_dataset := v; test_dataset := test_dataset c;
     visualizer := visualizer c; global_step_count := global_step_count c;
     total_training_steps := total_training_steps c;
     batch_losses := batch_losses c; trace := trace c |}.

Definition set_test_dataset (v : option LogDataset) (c : TrainingController) :=
  {| hp_int := hp_int c; hp_real := hp_real c; run_id := run_id c; model := model c;
     train_dataset := train_dataset c; test_dataset := v;
     visualizer := visualizer c; global_step_count := global_step_count c;
     total_training_steps := total_training_steps c;
     batch_losses := batch_losses c; trace := trace c |}.

Definition set_visualizer (v : bool) (c : TrainingController) :=
  {| hp_int := hp_int c; hp_real := hp_real c; run_id := run_id c; model := model c;
     train_dataset := train_dataset c; test_dataset := test_dataset c;
     visualizer := v; global_step_count := global_step_count c;
     total_training_steps := total_training_steps c;
     batch_losses := batch_losses c; trace := trace c |}.

Definition set_global_step_count (v : Z) (c : TrainingController) :=
  {| hp_int := hp_int c; hp_real := hp_real c; run_id := run_id c; model := model c;
     train_dataset := train_dataset c; test_dataset := test_dataset c;
     visualizer := visualizer c; global_step_count := v;
     total_training_steps := total_training_steps c;
     batch_losses := batch_losses c; trace := trace c |}.

Definition set_total_training_steps (v : Z) (c : TrainingController) :=
  {| hp_int := hp_int c; hp_real := hp_real c; run_id := run_id c; model := model c;
     train_dataset := train_dataset c; test_dataset := test_dataset c;
     visualizer := visualizer c; global_step_count := global_step_count c;
     total_training_steps := v;
     batch_losses := batch_losses c; trace := trace c |}.

Definition set_batch_losses (v : list Q) (c : TrainingController) :=
  {| hp_int := hp_int c; hp_real := hp_real c; run_id := run_id c; model := model c;
     train_dataset := train_dataset c; test_dataset := test_dataset c;
     visualizer := visualizer c; global_step_count := global_step_count c;
     total_training_steps := total_training_steps c;
     batch_losses := v; trace := trace c |}.

Definition set_trace (v : list action) (c : TrainingController) :=
  {| hp_int := hp_int c; hp_real := hp_real c; run_id := run_id c; model := model c;
     train_dataset := train_dataset c; test_dataset := test_dataset c;
     visualizer := visualizer c; global_step_count := global_step_count c;
     total_training_steps := total_training_steps c;
     batch_losses := batch_losses c; trace := v |}.

(** ** Methods as state transformers that may raise *)

Definition M (A : Type) : Type :=
  TrainingController -> result A * TrainingController.

Definition ret {A} (a : A) : M A := fun c => (Ok a, c).

Definition raise {A} (e : exn) : M A := fun c => (Raise e, c).

Definition bind {A B} (m : M A) (f : A -> M B) : M B :=
  fun c =>
    match m c with
    | (Ok a, c') => f a c'
    | (Raise e, c') => (Raise e, c')
    end.

Definition lift {A} (r : result A) : M A := fun c => (r, c).

Definition gets {A} (f : TrainingController -> A) : M A := fun c => (Ok (f c), c).

Definition modify (f : TrainingController -> TrainingController) : M unit :=
  fun c => (Ok tt, f c).

Declare Scope ctl_scope.
Delimit Scope ctl_scope with ctl.
Notation "x <~ m ;; k" := (bind m (fun x => k))
  (at level 100, m at next level, right associativity) : ctl_scope.
Notation "m ;;; k" := (bind m (fun _ => k))
  (at level 100, right associativity) : ctl_scope.

(** [hp[k]]: a missing key raises [KeyError]. *)
Definition hp_item {V} (hp : gmap string V) (k : string) : result V :=
  match hp !! k with
  | Some v => Ok v
  | None => Raise (KeyError k)
  end.

(** [if self.run_id:] holds for a string that is not empty. *)
Definition truthy (id : option string) : bool :=
  match id with
  | Some s => negb (String.eqb s "")
  | None => false
  end.

(** What a Python call hands back to its caller. *)
Inductive pyvalue : Type :=
| PyNone
| PyStr (s : string).

(** How a loop body ends: it falls through to the next iteration, or the
    enclosing method returns. *)
Inductive flow : Type :=
| Next
| Return (b : bool).

Definition phase_key (prefix : string) (i : nat) : string :=
  prefix ++ match i with
            | 0%nat => "1" | 1%nat => "2" | 2%nat => "3" | _ => "4"
            end.

Section Methods.

Variable w : world.

Local Open Scope ctl_scope.
Local Open Scope Z_scope.

(** A collaborator call that always returns. *)
Definition emit (a : action) : M unit :=
  modify (fun c => set_trace (trace c ++ [a]) c).

(** A collaborator call of the guarded block: it raises or completes. *)
Definition perform (a : action) : M unit :=
  fun c =>
    match fault w (global_step_count c) a with
    | Some e => (Raise e, c)
    | None => emit a c
    end.

(** [self.callback(e)]; the value says whether the answer was ['STOP']. *)
Definition call_back (e : event) : M bool :=
  fun c =>
    let stop := callback w (trace c) e in
    (Ok stop, set_trace (trace c ++ [Callback e stop]) c).

Definition _log (m : message) : M unit :=
  _ <~ call_back (EvLog m) ;; ret tt.

Definition _initialize_run : M bool :=
  perform CreateNewRun ;;;
  modify (set_run_id (create_new_run w)) ;;;
  id <~ gets run_id ;;
  (if truthy id
   then _log (MsgCreatedRun (default "" id)) ;;;
        perform MakeReportDir ;;;
        modify (set_visualizer true)
   else ret tt) ;;;
  ret (bool_decide (id <> None)).

Definition _cleanup : M unit :=
  _log MsgCleaningUp ;;;
  emit DelReferences ;;;
  modify (fun c => set_model None (set_train_dataset None
                     (set_test_dataset None (set_visualizer false c)))) ;;;
  emit GcCollect ;;;
  (if cuda_is_available w then emit CudaEmptyCache else ret tt) ;;;
  _log MsgCleanupComplete.

(** The body of the micro-batch loop of [_train_phase], for the iteration
    [(i_th, start_idx)] over a list of [n_indexes] indexes. *)
Definition micro_batch (epoch_str : epoch_label) (micro_batch_size grad_accum_steps : Z)
    (n_indexes : Z) (i_th start_idx : Z) : M flow :=
  modify (fun c => set_global_step_count (global_step_count c + 1) c) ;;;
  let end_idx := Z.min (start_idx + micro_batch_size) n_indexes in
  if end_idx <=? start_idx then ret Next
  else
    perform (GetBatch start_idx end_idx) ;;;
    perform TrainHelper ;;;
    step <~ gets global_step_count ;;
    if (logits_rows w step =? 0)%nat then ret Next
    else
      let loss := (criterion w step / inject_Z grad_accum_steps)%Q in
      perform Backward ;;;
      r <~ lift (pymod (i_th + 1) grad_accum_steps) ;;
      (if r =? 0 then perform OptimizerStep else ret tt) ;;;
      let current_loss := (loss * inject_Z grad_accum_steps)%Q in
      modify (fun c => set_batch_losses (batch_losses c ++ [current_loss]) c) ;;;
      total <~ gets total_training_steps ;;
      let progress :=
        if total >? 0 then (inject_Z step / inject_Z total)%Q else 0%Q in
      stop <~ call_back (EvTrain epoch_str progress current_loss) ;;
      if stop
      then _log MsgStopRequest ;;; ret (Return false)
      else ret Next.

(** [for i_th, start_idx in enumerate(range(...))], from position [i_th]. *)
Fixpoint for_micro_batches (epoch_str : epoch_label)
    (micro_batch_size grad_accum_steps n_indexes : Z)
    (i_th : Z) (starts : list Z) : M flow :=
  match starts with
  | [] => ret Next
  | start_idx :: rest =>
      r <~ micro_batch epoch_str micro_batch_size grad_accum_steps
             n_indexes i_th start_idx ;;
      match r with
      | Next => for_micro_batches epoch_str micro_batch_size grad_accum_steps
                  n_indexes (i_th + 1) rest
      | Return b => ret (Return b)
      end
  end.

(** One epoch: the shuffle permutes [indexes_for_phase] in place and keeps
    its length, which is all the loop reads of it. *)
Definition epoch_body (phase_name : string) (n_epochs grad_accum_steps : Z)
    (indexes_for_phase : list Z) (epoch : Z) : M flow :=
  let epoch_str := {| epoch_number := epoch + 1; epoch_total := n_epochs;
                      epoch_phase := phase_name |} in
  _log (MsgEpoch epoch_str) ;;;
  perform ZeroGrad ;;;
  hp <~ gets hp_int ;;
  micro_batch_size <~ lift (hp_item hp "micro_batch_size") ;;
  starts <~ lift (py_range (length indexes_for_phase) micro_batch_size) ;;
  for_micro_batches epoch_str micro_batch_size grad_accum_steps
    (Z.of_nat (length indexes_for_phase)) 0 starts.

Fixpoint for_epochs (phase_name : string) (n_epochs grad_accum_steps : Z)
    (indexes_for_phase : list Z) (epochs : list Z) : M flow :=
  match epochs with
  | [] => ret Next
  | epoch :: rest =>
      r <~ epoch_body phase_name n_epochs grad_accum_steps indexes_for_phase epoch ;;
      match r with
      | Next => for_epochs phase_name n_epochs grad_accum_steps indexes_for_phase rest
      | Return b => ret (Return b)
      end
  end.

Definition _train_phase (phase_name : string) (n_epochs : Z) (lr : Q)
    (indexes_for_phase : list Z) : M bool :=
  if negb (n_epochs >? 0) then ret true
  else
    _log (MsgStartingPhase phase_name) ;;;
    m <~ gets model ;;
    match m with
    | None => raise (External "AttributeError: model is None")
    | Some self_model =>
        match trainable_params self_model with
        | [] => _log (MsgPhaseSkipped phase_name) ;;; ret true
        | _ :: _ =>
            perform NewOptimizer ;;;
            _log MsgModelDType ;;;
            hp <~ gets hp_int ;;
            batch_size <~ lift (hp_item hp "batch_size") ;;
            micro_batch_size <~ lift (hp_item hp "micro_batch_size") ;;
            grad_accum_steps <~ lift (floordiv batch_size micro_batch_size) ;;
            r <~ for_epochs phase_name n_epochs grad_accum_steps indexes_for_phase
                   (map Z.of_nat (seq 0 (Z.to_nat n_epochs))) ;;
            match r with
            | Return b => ret b
            | Next =>
                emit GcCollect ;;;
                (if cuda_is_available w then emit CudaEmptyCache else ret tt) ;;;
                ret true
            end
        end
    end.

(** The calls and callbacks of [_evaluate]; its arithmetic on the
    predictions is [evaluate_predictions] below. *)
Fixpoint for_eval_batches (total_items : Z) (starts : list Z) : M unit :=
  match starts with
  | [] => ret tt
  | i :: rest =>
      let progress := (inject_Z (i + 1) / inject_Z total_items)%Q in
      _ <~ call_back (EvEval progress) ;;
      perform (EvalBatch i) ;;;
      for_eval_batches total_items rest
  end.

Definition _evaluate : M unit :=
  _log MsgStartingEvaluation ;;;
  perform GetAllLabels ;;;
  t <~ gets test_dataset ;;
  match t with
  | None => raise (External "AttributeError: test_dataset is None")
  | Some test =>
      hp <~ gets hp_int ;;
      batch_size <~ lift (hp_item hp "batch_size") ;;
      starts <~ lift (py_range (ds_len test) batch_size) ;;
      for_eval_batches (Z.of_nat (ds_len test)) starts ;;;
      perform ComputeMetrics ;;;
      v <~ gets visualizer ;;
      if v
      then perform PlotConfusionMatrix ;;;
           perform PlotOverallMetrics ;;;
           perform PlotTrainingLoss
      else raise (External "AttributeError: visualizer is None")
  end.

(** Lines 179-184 of [run]: the index list the phases train on. The
    quotient of line 181 is the exact one here; Python rounds the product
    and the quotient to binary floating point before [int] truncates, so
    [add_num] can differ by one from the number of draws of the code. The
    properties below hold for any number of draws and do not state it. *)
Definition oversample (hp : gmap string Q) (train : LogDataset) : M (list Z) :=
  let base_indexes := map Z.of_nat (seq 0 (ds_len train)) in
  guard <~ (if num_less train >? 0
            then if (ds_len train =? 0)%nat then raise ZeroDivisionError
                 else ret (negb (Qle_bool (default (1 # 2)%Q (hp !! "min_less_portion"))
                                          (inject_Z (num_less train)
                                           / inject_Z (Z.of_nat (ds_len train)))))
            else ret false) ;;
  if guard : bool
  then
    p <~ lift (hp_item hp "min_less_portion") ;;
    (if Qeq_bool (1 - p) 0 then raise ZeroDivisionError else ret tt) ;;;
    let add_num :=
      int_of ((p * inject_Z (num_majority train)) / (1 - p))%Q - num_less train in
    if add_num >? 0
    then
      _log (MsgOversampling add_num) ;;;
      match less_indexes train with
      | [] => raise ValueError
      | first :: _ =>
          ret (base_indexes ++
               map (fun k => nth (choice_draw w k mod length (less_indexes train))%nat
                                 (less_indexes train) first)
                   (seq 0 (Z.to_nat add_num)))
      end
    else ret base_indexes
  else ret base_indexes.

(** Lines 186-187 of [run]. *)
Definition compute_total_training_steps (hp : gmap string Z)
    (base_indexes : list Z) : result Z :=
  (micro_batch_size <-? hp_item hp "micro_batch_size";
   batches_per_epoch <-? floordiv (Z.of_nat (length base_indexes)) micro_batch_size;
   Ok (foldr Z.add 0
         (map (fun i => default 0 (hp !! phase_key "n_epochs_phase" i) * batches_per_epoch)
              (seq 0 4))))%result.

(** The loop of [run] over [training_phases]; the value is
    [all_phases_completed]. *)
Fixpoint for_phases (training_phases : list (string * mode * Z * Q))
    (base_indexes : list Z) : M bool :=
  match training_phases with
  | [] => ret true
  | (name, setup_func, epochs, lr) :: rest =>
      perform (SetMode setup_func) ;;;
      modify (fun c => set_model (set_mode setup_func <$> model c) c) ;;;
      ok <~ _train_phase name epochs lr base_indexes ;;
      if ok then for_phases rest base_indexes else ret false
  end.

(** The guarded block of [run]; the value is [final_status] as the block
    leaves it. *)
Definition run_try : M string :=
  ok <~ _initialize_run ;;
  (if ok then ret tt
   else raise (RuntimeError "Failed to create a new run record in the database.")) ;;;
  perform (LoadDataset "train.csv") ;;;
  modify (set_train_dataset (Some (train_csv w))) ;;;
  perform (LoadDataset "test.csv") ;;;
  modify (set_test_dataset (Some (test_csv w))) ;;;
  hpr <~ gets hp_real ;;
  base_indexes <~ oversample hpr (train_csv w) ;;
  hp <~ gets hp_int ;;
  total <~ lift (compute_total_training_steps hp base_indexes) ;;
  modify (set_total_training_steps total) ;;;
  _log (MsgTotalSteps total) ;;;
  _ <~ lift (hp_item hp "max_content_len") ;;
  _ <~ lift (hp_item hp "max_seq_len") ;;
  perform BuildModel ;;;
  modify (set_model (Some (built_model w))) ;;;
  e1 <~ lift (hp_item hp "n_epochs_phase1") ;;
  l1 <~ lift (hp_item hpr "lr_phase1") ;;
  e2 <~ lift (hp_item hp "n_epochs_phase2") ;;
  l2 <~ lift (hp_item hpr "lr_phase2") ;;
  e3 <~ lift (hp_item hp "n_epochs_phase3") ;;
  l3 <~ lift (hp_item hpr "lr_phase3") ;;
  e4 <~ lift (hp_item hp "n_epochs_phase4") ;;
  l4 <~ lift (hp_item hpr "lr_phase4") ;;
  let training_phases :=
    [("Projector", ProjectorOnly, e1, l1);
     ("Classifier", ClassifierOnly, e2, l2);
     ("Projector+Classifier", ProjectorAndClassifier, e3, l3);
     ("Fine-tuning All", FinetuningAll, e4, l4)] in
  all_phases_completed <~ for_phases training_phases base_indexes ;;
  if all_phases_completed
  then
    _evaluate ;;;
    perform SavePerformanceMetrics ;;;
    perform SaveFtModel ;;;
    ret "COMPLETED"
  else ret "ABORTED".

(** The [except Exception] clause. *)
Definition run_except (e : exn) : M string :=
  _log (MsgCriticalError e) ;;;
  _ <~ call_back (EvError e) ;;
  ret "FAILED".

(** The [finally] clause. *)
Definition run_finally (final_status : string) : M unit :=
  emit MonitorStop ;;;
  id <~ gets run_id ;;
  (if truthy id
   then emit SaveResourceMetrics ;;;
        v <~ gets visualizer ;;
        (if v then emit PlotResourceUsage else ret tt) ;;;
        emit (UpdateRunStatus final_status (String.eqb final_status "COMPLETED")) ;;;
        _log (MsgRunFinished final_status)
   else ret tt) ;;;
  _cleanup ;;;
  _ <~ call_back (EvDone final_status) ;;
  ret tt.

(** [try: ... except Exception as e: ...]; the value is [final_status]. *)
Definition run_try_except : M string :=
  fun c =>
    match run_try c with
    | (Ok final_status, c') => (Ok final_status, c')
    | (Raise e, c') => run_except e c'
    end.

(** [run] has no [return] statement: it hands back [None]. *)
Definition run : M pyvalue :=
  emit MonitorStart ;;;
  final_status <~ run_try_except ;;
  run_finally final_status ;;;
  ret PyNone.

End Methods.

(** ** The arithmetic of [_evaluate] *)

(** The test set as [_evaluate] reads it: the sequences [get_batch] returns
    and the numeric labels of [get_all_labels]. *)
Record TestSet : Type := {
  test_sequences : list (list string);
  gt_labels : list Z
}.

(** Lines 127-136: [all_preds] after the batches that start at [starts]. *)
Fixpoint predict_batches (self : LogSentinelModel) (test : TestSet)
    (batch_size : Z) (starts : list Z) : result (list Z) :=
  match starts with
  | [] => Ok []
  | i :: rest =>
      let total_items := Z.of_nat (length (test_sequences test)) in
      let end_idx := Z.min (i + batch_size) total_items in
      let seqs := take (Z.to_nat (end_idx - i)) (drop (Z.to_nat i) (test_sequences test)) in
      (logits <-? forward self seqs;
       later <-? predict_batches self test batch_size rest;
       Ok (map argmax logits ++ later))%result
  end.

(** [np.array(all_preds) != -1]. *)
Definition valid_indices (all_preds : list Z) : list bool :=
  map (fun p => negb (p =? -1)%Z) all_preds.

(** [a[mask]] for a boolean mask of the length of [a]. *)
Fixpoint mask_select {A} (a : list A) (mask : list bool) : result (list A) :=
  match a, mask with
  | [], [] => Ok []
  | x :: a', b :: mask' =>
      (rest <-? mask_select a' mask';
       Ok (if b then x :: rest else rest))%result
  | _, _ => Raise IndexError
  end.

(** Lines 127-140: the predictions and the labels that are scored. *)
Definition evaluate_predictions (self : LogSentinelModel) (test : TestSet)
    (batch_size : Z) : result (list Z * list Z) :=
  (starts <-? py_range (length (test_sequences test)) batch_size;
   all_preds <-? predict_batches self test batch_size starts;
   let valid := valid_indices all_preds in
   preds_numeric <-? mask_select all_preds valid;
   gt_numeric <-? mask_select (gt_labels test) valid;
   Ok (preds_numeric, gt_numeric))%result.

(** [confusion_matrix(gt, preds, labels=[0, 1])]: rows are true labels,
    columns are predictions. *)
Definition count_pairs (t p : Z) (gt preds : list Z) : Z :=
  Z.of_nat (length (filter (fun x => x.1 = t /\ x.2 = p) (zip gt preds))).

Definition confusion_matrix (gt preds : list Z) : list (list Z) :=
  [[count_pairs 0 0 gt preds; count_pairs 0 1 gt preds];
   [count_pairs 1 0 gt preds; count_pairs 1 1 gt preds]].

(** [accuracy_score]: the share of positions where both agree; it is not a
    number on empty input. *)
Definition accuracy_score (gt preds : list Z) : option Q :=
  match gt with
  | [] => None
  | _ :: _ =>
      Some (inject_Z (Z.of_nat (length (filter (fun x => x.1 = x.2) (zip gt preds))))
            / inject_Z (Z.of_nat (length gt)))%Q
  end.

(** Binary precision and recall for the positive label 1, with
    [zero_division=0]. *)
Definition ratio0 (num den : Z) : Q :=
  if (den =? 0)%Z then 0%Q else (inject_Z num / inject_Z den)%Q.

Definition precision (gt preds : list Z) : Q :=
  ratio0 (count_pairs 1 1 gt preds)
         (count_pairs 1 1 gt preds + count_pairs 0 1 gt preds).

Definition recall (gt preds : list Z) : Q :=
  ratio0 (count_pairs 1 1 gt preds)
         (count_pairs 1 1 gt preds + count_pairs 1 0 gt preds).

(** * Part III: notions the properties are stated with *)

(** ** Shapes of the opaque sub-networks

    The encoder returns one pooled row per line, the decoder one hidden
    state per position of every batch row, and the classifier head has two
    outputs ([nn.Linear(llama_hidden_size, 2)]). *)
Record well_shaped (self : LogSentinelModel) : Prop := {
  bert_rows : forall batch, length (bert_model self batch) = length batch;
  llama_rows : forall xs mask, length (llama_model self xs mask) = length xs;
  llama_cols : forall xs mask k x h,
      xs !! k = Some x -> llama_model self xs mask !! k = Some h ->
      length h = length x;
  classifier_cols : forall h, length (classifier self h) = 2%nat
}.

(** The positions, counted from [i], of the lengths that are not zero. *)
Fixpoint nonempty_positions (i : nat) (lens : list nat) : list nat :=
  match lens with
  | [] => []
  | n :: rest =>
      if (0 <? n)%nat then i :: nonempty_positions (S i) rest
      else nonempty_positions (S i) rest
  end.

(** The samples that keep at least one log line after truncation. *)
Definition surviving (self : LogSentinelModel) (sequences_ : list (list string))
    : list nat :=
  nonempty_positions 0
    (map (fun s => length (slice_to (max_seq_len self) s)) sequences_).

(** A parameter is trainable after a stager call. *)
Definition trainable_after (m : mode) (self : LogSentinelModel) (name : string) : Prop :=
  (name, true) ∈ named_parameters (set_mode m self).

(** A later mode trains everything an earlier one trains. *)
Definition additive (self : LogSentinelModel) (m m' : mode) : Prop :=
  forall name, trainable_after m self name -> trainable_after m' self name.

(** A small model: every network is the simplest one of the right shape. *)
Definition toy_model (names : list string) : LogSentinelModel :=
  {| max_content_len := 128;
     max_seq_len := 128;
     llama_hidden_size := 1;
     bert_model := map (fun _ => [1%Q]);
     projector := fun v => v;
     classifier := fun _ => [Finite 0; Finite 1];
     llama_model := fun xs _ => xs;
     instruc_embeds := [[0%Q]];
     named_parameters := map (fun n => (n, false)) names |}.

Definition toy_names : list string :=
  ["projector.0.weight"; "classifier.weight";
   "llama_model.layers.0.self_attn.q_proj.lora_A.weight";
   "bert_model.pooler.dense.weight"].

(** ** Reading a trace *)

Definition count (f : action -> bool) (tr : list action) : nat :=
  length (filter (fun a => f a = true) tr).

Definition is_optimizer_step (a : action) : bool :=
  match a with OptimizerStep => true | _ => false end.

Definition is_train_helper (a : action) : bool :=
  match a with TrainHelper => true | _ => false end.

Definition is_monitor_stop (a : action) : bool :=
  match a with MonitorStop => true | _ => false end.

Definition is_del_references (a : action) : bool :=
  match a with DelReferences => true | _ => false end.

Definition is_save_resource_metrics (a : action) : bool :=
  match a with SaveResourceMetrics => true | _ => false end.

(** The callback answered ['STOP'] to a training status. *)
Definition is_stop_answer (a : action) : bool :=
  match a with
  | Callback (EvTrain _ _ _) true => true
  | _ => false
  end.

(** Work of a training phase: its setup and the steps of a micro-batch. *)
Definition is_training_work (a : action) : bool :=
  match a with
  | SetMode _ | NewOptimizer | ZeroGrad | GetBatch _ _ | TrainHelper
  | Backward | OptimizerStep => true
  | _ => false
  end.

(** Performance metrics and model artifacts being written. *)
Definition is_persist (a : action) : bool :=
  match a with
  | PlotConfusionMatrix | PlotOverallMetrics | PlotTrainingLoss
  | SavePerformanceMetrics | SaveFtModel => true
  | _ => false
  end.

(** The calls only the [finally] clause makes. *)
Definition is_teardown (a : action) : bool :=
  match a with
  | MonitorStop | SaveResourceMetrics | PlotResourceUsage
  | UpdateRunStatus _ _ | DelReferences | Callback (EvDone _) _ => true
  | _ => false
  end.

Definition guarded (a : action) : bool := negb (is_teardown a).

Definition quiet (a : action) : bool := negb (is_stop_answer a).

Definition calm (a : action) : bool :=
  negb (is_stop_answer a) && negb (is_persist a).

(** What the [finally] clause may emit. *)
Definition closing (a : action) : bool :=
  match a with
  | MonitorStop | SaveResourceMetrics | PlotResourceUsage
  | UpdateRunStatus _ _ | DelReferences | GcCollect | CudaEmptyCache
  | Callback (EvLog _) _ | Callback (EvDone _) _ => true
  | _ => false
  end.

(** A computation extends the trace by a segment that, together with the
    outcome, satisfies [Q]. *)
Definition extends {A} (m : M A) (Q : result A -> list action -> Prop) : Prop :=
  forall c, exists seg, trace (m c).2 = trace c ++ seg /\ Q (m c).1 seg.

(** A computation emits only actions accepted by [f]. *)
Definition only {A} (f : action -> bool) (m : M A) : Prop :=
  extends m (fun _ seg => Forall (fun a => f a = true) seg).

(** A segment that ends with the stop answer and the log line that follows
    it, after a calm prefix. *)
Definition halted (seg : list action) : Prop :=
  exists prefix lbl progress loss answer,
    seg = prefix ++ [Callback (EvTrain lbl progress loss) true;
                     Callback (EvLog MsgStopRequest) answer]
    /\ Forall (fun a => calm a = true) prefix.

(** Either the computation returned [h] and its segment is halted, or it
    did not and its segment is calm. *)
Definition stops {A} (h : A) (m : M A) : Prop :=
  extends m (fun r seg =>
               (r = Ok h /\ halted seg)
               \/ (r <> Ok h /\ Forall (fun a => calm a = true) seg)).

(** [Q] is kept when a segment accepted by [f] is put in front, and holds
    of a raise after such a segment. *)
Definition absorbs {A} (f : action -> bool)
    (Q : result A -> list action -> Prop) : Prop :=
  (forall r s1 s2, Forall (fun a => f a = true) s1 -> Q r s2 -> Q r (s1 ++ s2))
  /\ (forall e s1, Forall (fun a => f a = true) s1 -> Q (Raise e) s1).

(** What a training phase may emit. *)
Definition training_action (a : action) : bool :=
  match a with
  | SetMode _ | NewOptimizer | ZeroGrad | GetBatch _ _ | TrainHelper
  | Backward | OptimizerStep | GcCollect | CudaEmptyCache
  | Callback (EvLog _) _ | Callback (EvTrain _ _ _) _ => true
  | _ => false
  end.

(** What [_evaluate] may emit. *)
Definition evaluation_action (a : action) : bool :=
  match a with
  | GetAllLabels | EvalBatch _ | ComputeMetrics | PlotConfusionMatrix
  | PlotOverallMetrics | PlotTrainingLoss
  | Callback (EvLog _) _ | Callback (EvEval _) _ => true
  | _ => false
  end.

(** The trace of one micro-batch at global step [step] when nothing raises
    and the callback does not stop. *)
Definition micro_batch_trace (w : world) (epoch_str : epoch_label)
    (micro_batch_size grad_accum_steps n_indexes total : Z)
    (step i_th start_idx : Z) : list action :=
  [GetBatch start_idx (Z.min (start_idx + micro_batch_size) n_indexes); TrainHelper]
  ++ (if (logits_rows w step =? 0)%nat then []
      else [Backward]
           ++ (if ((i_th + 1) mod grad_accum_steps =? 0)%Z then [OptimizerStep] else [])
           ++ [Callback
                 (EvTrain epoch_str
                    (if (total >? 0)%Z
                     then (inject_Z step / inject_Z total)%Q else 0%Q)
                    (criterion w step / inject_Z grad_accum_steps
                     * inject_Z grad_accum_steps)%Q)
                 false]).

Fixpoint micro_batches_trace (w : world) (epoch_str : epoch_label)
    (micro_batch_size grad_accum_steps n_indexes total : Z)
    (step i_th : Z) (starts : list Z) : list (list action) :=
  match starts with
  | [] => []
  | start_idx :: rest =>
      micro_batch_trace w epoch_str micro_batch_size grad_accum_steps n_indexes
        total (step + 1) i_th start_idx
      :: micro_batches_trace w epoch_str micro_batch_size grad_accum_steps
           n_indexes total (step + 1) (i_th + 1) rest
  end.

(** The progress fractions of the training statuses, in order. *)
Definition reported_progress (tr : list action) : list Q :=
  omap (fun a => match a with
                 | Callback (EvTrain _ progress _) _ => Some progress
                 | _ => None
                 end) tr.

(** ** Example runs *)

Definition example_hp_int (batch_size micro_batch_size e1 e2 e3 e4 : Z)
    : gmap string Z :=
  list_to_map
    [("batch_size", batch_size); ("micro_batch_size", micro_batch_size);
     ("n_epochs_phase1", e1); ("n_epochs_phase2", e2);
     ("n_epochs_phase3", e3); ("n_epochs_phase4", e4);
     ("max_content_len", 128%Z); ("max_seq_len", 128%Z)].

Definition example_lr : gmap string Q :=
  list_to_map
    [("lr_phase1", (1 # 1000)%Q); ("lr_phase2", (1 # 1000)%Q);
     ("lr_phase3", (1 # 1000)%Q); ("lr_phase4", (1 # 1000)%Q)].

Definition example_hp_real : gmap string Q :=
  <[ "min_less_portion" := 0%Q ]> example_lr.

(** A dataset of [n] samples, the first of which is the only one of the
    minority class. *)
Definition example_dataset (n : nat) : LogDataset :=
  {| ds_len := n; num_less := 1; num_majority := Z.of_nat n - 1;
     less_indexes := [0%Z] |}.

(** A world in which no collaborator raises. *)
Definition example_world (train : LogDataset) (rows : Z -> nat)
    (answer : list action -> event -> bool) : world :=
  {| callback := answer;
     create_new_run := Some "run-1";
     train_csv := train;
     test_csv := example_dataset 2;
     choice_draw := fun k => k;
     built_model := toy_model toy_names;
     logits_rows := rows;
     criterion := fun _ => (1 # 2)%Q;
     fault := fun _ _ => None;
     cuda_is_available := false |}.

Definition never_stop : list action -> event -> bool := fun _ _ => false.

Definition stop_on_training_status : list action -> event -> bool :=
  fun _ e => match e with EvTrain _ _ _ => true | _ => false end.

(** * Part III, continued: notions for the further properties *)

(** A model that keeps only the first line of every sample. *)
Definition short_model : LogSentinelModel :=
  {| max_content_len := 128;
     max_seq_len := 1;
     llama_hidden_size := 1;
     bert_model := map (fun _ => [1%Q]);
     projector := fun v => v;
     classifier := fun _ => [Finite 0; Finite 1];
     llama_model := fun xs _ => xs;
     instruc_embeds := [[0%Q]];
     named_parameters := [] |}.

(** The losses of the training statuses, in order. *)
Definition reported_losses (tr : list action) : list Q :=
  omap (fun a => match a with
                 | Callback (EvTrain _ _ loss) _ => Some loss
                 | _ => None
                 end) tr.

(** The stager modes that were set, in order. *)
Definition modes_of (tr : list action) : list mode :=
  omap (fun a => match a with SetMode m => Some m | _ => None end) tr.

(** The test batches that were evaluated, by their first position. *)
Definition evaluated_batches (tr : list action) : list Z :=
  omap (fun a => match a with EvalBatch i => Some i | _ => None end) tr.

(** The progress fractions reported during evaluation. *)
Definition evaluation_progress (tr : list action) : list Q :=
  omap (fun a => match a with
                 | Callback (EvEval progress) _ => Some progress
                 | _ => None
                 end) tr.

(** The order in which [run] lists the phases. *)
Definition curriculum : list mode :=
  [ProjectorOnly; ClassifierOnly; ProjectorAndClassifier; FinetuningAll].

(** The progress line 105 computes at a global step. *)
Definition progress_at (total step : Z) : Q :=
  if (total >? 0)%Z then (inject_Z step / inject_Z total)%Q else 0%Q.

(** Neither a training status nor a stager call. *)
Definition plain (a : action) : bool :=
  match a with
  | Callback (EvTrain _ _ _) _ | SetMode _ => false
  | _ => true
  end.

(** What a training phase may emit besides its statuses. *)
Definition phase_action (a : action) : bool :=
  match a with
  | NewOptimizer | ZeroGrad | GetBatch _ _ | TrainHelper
  | Backward | OptimizerStep | GcCollect | CudaEmptyCache
  | Callback (EvLog _) _ | Callback (EvTrain _ _ _) _ => true
  | _ => false
  end.

(** What [run] may do before the model is built. *)
Definition before_model (a : action) : bool :=
  match a with
  | CreateNewRun | MakeReportDir | LoadDataset _ | Callback (EvLog _) _ => true
  | _ => false
  end.

(** A computation relates the state it starts from to the state it leaves,
    whatever its outcome. *)
Definition keeps (R : TrainingController -> TrainingController -> Prop)
    {A} (m : M A) : Prop :=
  forall c, R c (m c).2.

(** The loss series grows by exactly the losses reported to the callback. *)
Definition logs_losses (c c' : TrainingController) : Prop :=
  exists seg,
    trace c' = trace c ++ seg
    /\ batch_losses c' = batch_losses c ++ reported_losses seg.

(** Training moves forward: the hyperparameters and the step budget are
    untouched, the step count does not go down, and the reported progress
    fractions are those of strictly increasing step counts reached on the
    way. *)
Definition advances (c c' : TrainingController) : Prop :=
  hp_int c' = hp_int c
  /\ total_training_steps c' = total_training_steps c
  /\ (global_step_count c <= global_step_count c')%Z
  /\ exists seg steps,
       trace c' = trace c ++ seg
       /\ reported_progress seg = map (progress_at (total_training_steps c)) steps
       /\ StronglySorted Z.lt steps
       /\ Forall (fun s => (global_step_count c < s <= global_step_count c')%Z) steps.

(** Nothing of training happens: no training status is reported and the
    step count stays. *)
Definition idle (c c' : TrainingController) : Prop :=
  global_step_count c' = global_step_count c
  /\ exists seg, trace c' = trace c ++ seg /\ reported_progress seg = [].

(** Idle, and the step budget is untouched as well. *)
Definition settled (c c' : TrainingController) : Prop :=
  idle c c' /\ total_training_steps c' = total_training_steps c.

(** The shape of a run: preparation, then training, then the wrap-up. *)
Definition trains (c c' : TrainingController) : Prop :=
  exists c1 c2, idle c c1 /\ advances c1 c2 /\ settled c2 c'.

(** The fine-tuned model being written. *)
Definition is_save_ft_model (a : action) : bool :=
  match a with SaveFtModel => true | _ => false end.

(** The two writes that end a completed run. *)
Definition is_saving (a : action) : bool :=
  match a with SavePerformanceMetrics | SaveFtModel => true | _ => false end.

Definition unsaved (a : action) : bool := negb (is_saving a).

(** How the guarded block ends: COMPLETED right after the two writes, and
    without a saved model otherwise. *)
Definition saved_last (r : result string) (seg : list action) : Prop :=
  (r = Ok "COMPLETED"
   /\ exists pre, seg = pre ++ [SavePerformanceMetrics; SaveFtModel]
                  /\ Forall (fun a => unsaved a = true) pre)
  \/ (r <> Ok "COMPLETED" /\ Forall (fun a => is_save_ft_model a = false) seg).

(** A world whose database hands back no run id. *)
Definition world_without_run_record : world :=
  {| callback := never_stop;
     create_new_run := None;
     train_csv := example_dataset 4;
     test_csv := example_dataset 2;
     choice_draw := fun k => k;
     built_model := toy_model toy_names;
     logits_rows := fun _ => 1%nat;
     criterion := fun _ => (1 # 2)%Q;
     fault := fun _ _ => None;
     cuda_is_available := false |}.

(** The model being built. *)
Definition is_build_model (a : action) : bool :=
  match a with BuildModel => true | _ => false end.

(** What [run] may do before the first phase is set up. *)
Definition before_training (a : action) : bool :=
  before_model a || is_build_model a.

(** What a run emits whose guarded block raised after actions accepted by
    [f]: those, the report of the error, and the teardown. *)
Definition around (f : action -> bool) (a : action) : bool :=
  f a || closing a
  || match a with
     | MonitorStart | Callback (EvLog _) _ | Callback (EvError _) _ => true
     | _ => false
     end.

(** The hyperparameters are the same dictionary, with the same entries. *)
Definition same_hp (c c' : TrainingController) : Prop :=
  hp_int c' = hp_int c /\ hp_real c' = hp_real c.

(** From any state with the hyperparameters [hi] and [hr], the computation
    raises, having emitted only actions accepted by [f]. *)
Definition fails_with (hi : gmap string Z) (hr : gmap string Q)
    (f : action -> bool) {A} (m : M A) : Prop :=
  forall c, hp_int c = hi -> hp_real c = hr ->
    exists e seg,
      (m c).1 = Raise e
      /\ trace (m c).2 = trace c ++ seg
      /\ Forall (fun a => f a = true) seg.

(** The keys [run] reads with [self.hp[...]] before it builds the model,
    and those it reads to list the phases. *)
Definition keys_for_model : list string :=
  ["micro_batch_size"; "max_content_len"; "max_seq_len"].

Definition keys_for_epochs : list string :=
  ["n_epochs_phase1"; "n_epochs_phase2"; "n_epochs_phase3"; "n_epochs_phase4"].

Definition keys_for_rates : list string :=
  ["lr_phase1"; "lr_phase2"; "lr_phase3"; "lr_phase4"].

(** The computation never returns [x]. *)
Definition avoids {A} (x : A) (m : M A) : Prop :=
  forall c, (m c).1 <> Ok x.

(** A callback that answers STOP to everything but a training status. *)
Definition stop_on_everything_else : list action -> event -> bool :=
  fun _ e => match e with EvTrain _ _ _ => false | _ => true end.

(** No stager call. *)
Definition modeless (a : action) : bool :=
  match a with SetMode _ => false | _ => true end.

(** The modes a list of phases sets. *)
Definition modes_listed (phases : list (string * mode * Z * Q)) : list mode :=
  map (fun ph => ph.1.1.2) phases.

(** The stager was called along the phases in their order, and for all of
    them when the outcome is [done]. *)
Definition staged {A} (modes : list mode) (done : result A)
    (r : result A) (seg : list action) : Prop :=
  modes_of seg `prefix_of` modes /\ (r = done -> modes_of seg = modes).

Definition is_backward (a : action) : bool :=
  match a with Backward => true | _ => false end.

(** Neither an optimizer step nor a training status. *)
Definition stepless (a : action) : bool :=
  match a with
  | OptimizerStep | Callback (EvTrain _ _ _) _ => false
  | _ => true
  end.

(** Nor a backward pass. *)
Definition gradless (a : action) : bool := stepless a && negb (is_backward a).

(** Nothing is learned: no optimizer step is taken and no status reported,
    and the computation returns [v] without a backward pass or raises. *)
Definition barren {A} (v : A) (r : result A) (seg : list action) : Prop :=
  Forall (fun a => stepless a = true) seg
  /\ ((r = Ok v /\ Forall (fun a => gradless a = true) seg)
      \/ exists e, r = Raise e).

(** [extends], from the states whose integer hyperparameters are [hi]. *)
Definition given (hi : gmap string Z) {A} (m : M A)
    (Q : result A -> list action -> Prop) : Prop :=
  forall c, hp_int c = hi ->
    exists seg, trace (m c).2 = trace c ++ seg /\ Q (m c).1 seg.

(** Nothing that counts moves: the hyperparameters, the step count and the
    step budget stay. *)
Definition still (c c' : TrainingController) : Prop :=
  hp_int c' = hp_int c /\ hp_real c' = hp_real c
  /\ global_step_count c' = global_step_count c
  /\ total_training_steps c' = total_training_steps c.

(** The micro-batches of an epoch over [n] indexes, [m] at a time. *)
Definition steps_per_epoch (n m : Z) : Z :=
  (n / m + (if n mod m =? 0 then 0 else 1))%Z.

(** The steps a list of phases can take at most, at [per_epoch] steps an
    epoch. *)
Definition phases_budget (per_epoch : Z) (phases : list (string * mode * Z * Q)) : Z :=
  foldr (fun ph acc => (Z.max 0 ph.1.2 * per_epoch + acc)%Z) 0%Z phases.

(** From the states whose integer hyperparameters are [hi], the computation
    keeps them and the step budget, and takes at most [k] steps. *)
Definition paced (hi : gmap string Z) (k : Z) {A} (m : M A) : Prop :=
  forall c, hp_int c = hi ->
    hp_int (m c).2 = hi
    /\ total_training_steps (m c).2 = total_training_steps c
    /\ (global_step_count c <= global_step_count (m c).2 <= global_step_count c + k)%Z.

(** From the states with the hyperparameters [hi] and [hr], the computation
    either takes no step or leaves the step budget at [K] and takes at
    most [K] steps. *)
Definition budgeted (hi : gmap string Z) (hr : gmap string Q) (K : Z)
    {A} (m : M A) : Prop :=
  forall c, hp_int c = hi -> hp_real c = hr ->
    global_step_count (m c).2 = global_step_count c
    \/ (total_training_steps (m c).2 = K
        /\ (global_step_count c <= global_step_count (m c).2
            <= global_step_count c + K)%Z).

(** * Part IV: properties of [logsentinel_model.py] *)

Section Stager.

Lemma kwargs_projector_only :
  kwargs_get {[ "projector" := true ]} "projector" = true
  /\ kwargs_get {[ "projector" := true ]} "classifier" = false
  /\ kwargs_get {[ "projector" := true ]} "llama_lora" = false.
Proof. repeat split; reflexivity. Qed.

Lemma kwargs_classifier_only :
  kwargs_get {[ "classifier" := true ]} "projector" = false
  /\ kwargs_get {[ "classifier" := true ]} "classifier" = true
  /\ kwargs_get {[ "classifier" := true ]} "llama_lora" = false.
Proof. repeat split; reflexivity. Qed.

Lemma kwargs_projector_and_classifier :
  let kw : gmap string bool := <[ "projector" := true ]> {[ "classifier" := true ]} in
  kwargs_get kw "projector" = true
  /\ kwargs_get kw "classifier" = true
  /\ kwargs_get kw "llama_lora" = false.
Proof. repeat split; reflexivity. Qed.

Lemma kwargs_finetuning_all :
  let kw : gmap string bool :=
    <[ "projector" := true ]> (<[ "classifier" := true ]> {[ "llama_lora" := true ]}) in
  kwargs_get kw "projector" = true
  /\ kwargs_get kw "classifier" = true
  /\ kwargs_get kw "llama_lora" = true.
Proof. repeat split; reflexivity. Qed.

(** The [if]/[elif] chain is a disjunction over the groups that were passed. *)
Lemma _set_trainable_param_flag kwargs p :
  _set_trainable_param kwargs p =
  (p.1, in_group GProjector p.1 && kwargs_get kwargs "projector"
        || in_group GClassifier p.1 && kwargs_get kwargs "classifier"
        || in_group GLlamaLora p.1 && kwargs_get kwargs "llama_lora").
Proof.
  unfold _set_trainable_param, in_group.
  destruct (contains "projector" p.1 && kwargs_get kwargs "projector"); [reflexivity|].
  destruct (contains "classifier" p.1 && kwargs_get kwargs "classifier"); [reflexivity|].
  destruct (contains "llama_model" p.1 && contains "lora_" p.1
            && kwargs_get kwargs "llama_lora"); reflexivity.
Qed.

Lemma set_mode_parameters m self :
  named_parameters (set_mode m self) =
  map (fun p => (p.1, existsb (fun g => in_group g p.1) (mode_groups m)))
      (named_parameters self).
Proof.
  destruct m; cbn [set_mode mode_groups existsb];
    unfold set_train_only_projector, set_train_only_classifier,
      set_train_projector_and_classifier, set_finetuning_all, _set_trainable;
    cbn [named_parameters with_parameters];
    apply map_ext; intros p; rewrite _set_trainable_param_flag.
  - destruct kwargs_projector_only as (-> & -> & ->).
    destruct (in_group GProjector p.1), (in_group GClassifier p.1),
      (in_group GLlamaLora p.1); reflexivity.
  - destruct kwargs_classifier_only as (-> & -> & ->).
    destruct (in_group GProjector p.1), (in_group GClassifier p.1),
      (in_group GLlamaLora p.1); reflexivity.
  - destruct kwargs_projector_and_classifier as (-> & -> & ->).
    destruct (in_group GProjector p.1), (in_group GClassifier p.1),
      (in_group GLlamaLora p.1); reflexivity.
  - destruct kwargs_finetuning_all as (-> & -> & ->).
    destruct (in_group GProjector p.1), (in_group GClassifier p.1),
      (in_group GLlamaLora p.1); reflexivity.
Qed.

Lemma trainable_after_iff m self name :
  trainable_after m self name <->
  (exists old, (name, old) ∈ named_parameters self)
  /\ existsb (fun g => in_group g name) (mode_groups m) = true.
Proof.
  unfold trainable_after. rewrite set_mode_parameters, list_elem_of_fmap. split.
  - intros ([n old] & Heq & Hin). cbn in Heq. inversion Heq; subst.
    split; [exists old; exact Hin | congruence].
  - intros ((old & Hin) & Hg). exists (name, old). cbn. rewrite Hg. auto.
Qed.

(** C8 (as amended). After any single stager call the parameters keep their
    names and order, and a parameter has [requires_grad = True] if and only
    if its name puts it in one of the groups that mode lists, whatever the
    flags were before: only the last mode's predicate is active and every
    other parameter is frozen. Projector+classifier trains exactly what the
    two single modes train together, and the modes grow along
    projector-only, projector+classifier, full fine-tuning, and along
    classifier-only, projector+classifier; classifier-only does not contain
    projector-only. *)
Theorem stager_mode_sets_exactly_its_groups (m : mode) (self : LogSentinelModel) :
  named_parameters (set_mode m self) =
    map (fun p => (p.1, existsb (fun g => in_group g p.1) (mode_groups m)))
        (named_parameters self)
  /\ (forall m', named_parameters (set_mode m (set_mode m' self)) =
                 named_parameters (set_mode m self))
  /\ (forall name,
        trainable_after ProjectorAndClassifier self name <->
        trainable_after ProjectorOnly self name
        \/ trainable_after ClassifierOnly self name)
  /\ additive self ProjectorOnly ProjectorAndClassifier
  /\ additive self ClassifierOnly ProjectorAndClassifier
  /\ additive self ProjectorAndClassifier FinetuningAll.
Proof.
  split; [apply set_mode_parameters|]. split.
  { intros m'. rewrite !set_mode_parameters, map_map. reflexivity. }
  split.
  { intros name. rewrite !trainable_after_iff. cbn [mode_groups existsb].
    destruct (in_group GProjector name), (in_group GClassifier name); cbn;
      intuition congruence. }
  unfold additive. repeat split; intros name; rewrite !trainable_after_iff;
    intros (Hin & Hg); (split; [exact Hin|]); cbn [mode_groups existsb] in *;
    destruct (in_group GProjector name), (in_group GClassifier name);
    cbn in *; congruence.
Qed.

(** C8 (as stated) fails at the first step of the curriculum: the projector
    weight that projector-only trains is frozen by classifier-only. *)
Lemma stager_modes_not_additive_in_order :
  ~ (additive (toy_model toy_names) ProjectorOnly ClassifierOnly
     /\ additive (toy_model toy_names) ClassifierOnly ProjectorAndClassifier
     /\ additive (toy_model toy_names) ProjectorAndClassifier FinetuningAll).
Proof.
  intros (H & _). specialize (H "projector.0.weight").
  rewrite !trainable_after_iff in H.
  assert (Hin : exists old, ("projector.0.weight", old)
                            ∈ named_parameters (toy_model toy_names)).
  { exists false. cbn. left. }
  specialize (H (conj Hin eq_refl)). destruct H as (_ & H).
  vm_compute in H. discriminate.
Qed.

End Stager.

Section Padding.

(** C6, evaluated on the code. Two embeddings of lengths 3 and 5 are packed
    with left padding into rows of length 5. [attention_mask.sum(dim=1) - 1]
    is 2 for the shorter sample and 4 for the longer one, so the hidden
    state taken for the shorter sample is the one at column 2, not the one
    at the last column [padded_length - 1 = 4]. *)
Theorem left_padding_classification_position
    (width : nat) (a b c d e f g h : vec)
    (h0 h1 h2 h3 h4 k0 k1 k2 k3 k4 : vec) :
  let padded := stack_and_pad_left width [[a; b; c]; [d; e; f; g; h]] in
  map length padded.1 = [5; 5]%nat
  /\ padded.2 = [[0; 0; 1; 1; 1]; [1; 1; 1; 1; 1]]%Z
  /\ sequence_lengths padded.2 = [2; 4]%Z
  /\ gather_from [[h0; h1; h2; h3; h4]; [k0; k1; k2; k3; k4]] 0
       (sequence_lengths padded.2) = Ok [h2; k4].
Proof. cbn. repeat split; reflexivity. Qed.

End Padding.

Section Sentinel.

Lemma slice_to_nil {A} (n : Z) : slice_to n (@nil A) = [].
Proof. unfold slice_to. destruct (0 <=? n)%Z; apply take_nil. Qed.

Lemma argmax_nonneg (row : list fval) : (0 <= argmax row)%Z.
Proof. destruct row; cbn; lia. Qed.

Lemma argmax_sentinel : argmax sentinel = 0%Z.
Proof. reflexivity. Qed.

Lemma forward_single_empty (self : LogSentinelModel) :
  forward self [[]] = Ok [sentinel].
Proof.
  unfold forward, _get_logits, get_cls_embeddings. cbn [map].
  rewrite slice_to_nil. reflexivity.
Qed.

(** The mask [all_preds != -1] keeps every position whose prediction is a
    column number. *)
Lemma mask_select_valid_indices {A} (a : list A) (all_preds : list Z) :
  Forall (fun p => 0 <= p)%Z all_preds ->
  length a = length all_preds ->
  mask_select a (valid_indices all_preds) = Ok a.
Proof.
  intros Hpos. revert a. induction Hpos as [|p ps Hp _ IH]; intros [|x a] Hlen;
    cbn in Hlen; try discriminate; [reflexivity|].
  cbn. rewrite IH by lia. cbn.
  destruct (p =? -1)%Z eqn:E; [lia|reflexivity].
Qed.

Lemma mask_select_length {A} (a : list A) (mask : list bool) (kept : list A) :
  mask_select a mask = Ok kept -> length a = length mask.
Proof.
  revert mask kept. induction a as [|x a IH]; intros [|b mask] kept; cbn;
    try discriminate; [reflexivity|].
  destruct (mask_select a mask) as [rest|] eqn:E; cbn; [|discriminate].
  intros _. f_equal. eapply IH. exact E.
Qed.

Lemma predict_batches_columns self test batch_size starts all_preds :
  predict_batches self test batch_size starts = Ok all_preds ->
  Forall (fun p => 0 <= p)%Z all_preds.
Proof.
  revert all_preds. induction starts as [|i rest IH]; intros all_preds; cbn.
  - intros [= <-]. constructor.
  - destruct (forward self _) as [logits|]; cbn; [|discriminate].
    destruct (predict_batches self test batch_size rest) as [later|]; cbn;
      [|discriminate].
    intros [= <-]. apply Forall_app. split; [|apply IH; reflexivity].
    apply Forall_forall. intros p Hp. apply list_elem_of_fmap in Hp.
    destruct Hp as (row & -> & _). apply argmax_nonneg.
Qed.

(** Whenever [_evaluate] gets as far as scoring, no position was filtered
    out: every label of the test set is scored. *)
Lemma evaluate_predictions_scores_every_row self test batch_size preds gt :
  evaluate_predictions self test batch_size = Ok (preds, gt) ->
  gt = gt_labels test /\ length preds = length (gt_labels test).
Proof.
  unfold evaluate_predictions.
  destruct (py_range _ _) as [starts|]; cbn; [|discriminate].
  destruct (predict_batches self test batch_size starts) as [all_preds|] eqn:E;
    cbn; [|discriminate].
  pose proof (predict_batches_columns _ _ _ _ _ E) as Hpos.
  rewrite (mask_select_valid_indices all_preds all_preds Hpos eq_refl). cbn.
  destruct (mask_select (gt_labels test) (valid_indices all_preds)) as [g|] eqn:G;
    cbn; [|discriminate].
  intros [= <- <-].
  assert (Hlen : length (gt_labels test) = length all_preds).
  { apply mask_select_length in G. unfold valid_indices in G.
    rewrite length_map in G. exact G. }
  rewrite (mask_select_valid_indices _ _ Hpos Hlen) in G. inversion G. auto.
Qed.

(** C1, evaluated on the code. A test set with one sample whose log-line
    list is empty: [forward] returns the sentinel row, [argmax] turns it
    into prediction 0, the filter [all_preds != -1] keeps it, and the sample
    is scored as predicted normal; with true label 1 it is the one false
    negative of the confusion matrix and brings accuracy and recall to 0. *)
Theorem sentinel_row_is_scored (self : LogSentinelModel) (gt : Z) :
  forward self [[]] = Ok [sentinel]
  /\ argmax sentinel = 0%Z
  /\ evaluate_predictions self {| test_sequences := [[]]; gt_labels := [gt] |} 1
     = Ok ([0%Z], [gt])
  /\ confusion_matrix [1%Z] [0%Z] = [[0; 0]; [1; 0]]%Z
  /\ accuracy_score [1%Z] [0%Z] = Some 0%Q
  /\ recall [1%Z] [0%Z] = 0%Q.
Proof.
  split; [apply forward_single_empty|]. split; [reflexivity|].
  split; [|repeat split; reflexivity].
  unfold evaluate_predictions.
  change (py_range _ 1) with (Ok [0%Z]). cbn [rbind].
  change (predict_batches self _ 1 [0%Z])
    with (logits <-? forward self [[]]; Ok (map argmax logits ++ []))%result.
  rewrite forward_single_empty. reflexivity.
Qed.

End Sentinel.

Section Pipeline.

(** *** Sub-batched encoding keeps one row per merged line *)

Lemma range_chunks_length {A B} (f : list A -> list B) (l : list A) :
  (forall batch, length (f batch) = length batch) ->
  forall fuel start,
    (length l - start <= fuel)%nat ->
    length (concat (map (fun i => f (take (Z.to_nat physical_batch_size)
                                          (drop (Z.to_nat i) l)))
                        (range_from fuel (Z.of_nat start) (Z.of_nat (length l))
                                    physical_batch_size)))
    = (length l - start)%nat.
Proof.
  intros Hf. induction fuel as [|fuel IH]; intros start Hfuel; cbn [range_from].
  - cbn. lia.
  - destruct (Z.ltb_spec (Z.of_nat start) (Z.of_nat (length l))) as [Hlt|Hge].
    + cbn [map concat]. rewrite length_app, Hf, length_take, length_drop.
      rewrite Nat2Z.id.
      replace (Z.of_nat start + physical_batch_size)%Z
        with (Z.of_nat (start + 64)) by (unfold physical_batch_size; lia).
      rewrite IH by lia.
      change (Z.to_nat physical_batch_size) with 64%nat. lia.
    + cbn. lia.
Qed.

(** *** [merge_data] and [tensor_split] are inverse on lengths *)

Lemma merge_data_from_merged {A} (data : list (list A)) cur :
  (merge_data_from cur data).1 = concat data.
Proof.
  revert cur. induction data as [|s rest IH]; intros cur; cbn; [reflexivity|].
  rewrite IH. reflexivity.
Qed.

Lemma tensor_split_lengths {A B} (data : list (list A)) :
  forall cur (t : list B),
    data <> [] ->
    length t = (cur + length (concat data))%nat ->
    map length (tensor_split_from t cur (tail (merge_data_from cur data).2))
    = map length data.
Proof.
  induction data as [|s rest IH]; intros cur t Hne Hlen; [congruence|].
  cbn [merge_data_from snd tail]. cbn [concat] in Hlen. rewrite length_app in Hlen.
  destruct rest as [|s' rest'].
  - cbn. rewrite length_drop. cbn in Hlen. f_equal. lia.
  - cbn [map]. specialize (IH (cur + length s)%nat t).
    cbn [merge_data_from snd tail] in IH |- *.
    cbn [tensor_split_from map]. rewrite length_take, length_drop.
    f_equal; [lia|]. apply IH; [discriminate|lia].
Qed.

Lemma concat_nil_lengths {A} (data : list (list A)) :
  concat data = [] <-> Forall (fun n => n = 0%nat) (map length data).
Proof.
  induction data as [|s rest IH]; cbn; [split; auto|].
  rewrite Forall_cons, <- IH. destruct s; cbn; split.
  - auto.
  - intros (_ & H); exact H.
  - discriminate.
  - intros (H & _); discriminate.
Qed.

Lemma get_cls_embeddings_lengths self sequences_ :
  well_shaped self ->
  let sequences := map (slice_to (max_seq_len self)) sequences_ in
  match get_cls_embeddings self sequences_ with
  | None => concat sequences = []
  | Some seq_embeddings =>
      concat sequences <> [] /\ map length seq_embeddings = map length sequences
  end.
Proof.
  intros Hshape sequences. unfold get_cls_embeddings. fold sequences.
  unfold merge_data. rewrite merge_data_from_merged.
  destruct (concat sequences) as [|line merged'] eqn:Hmerged; [reflexivity|].
  set (merged := line :: merged') in *.
  pose proof (range_chunks_length (bert_model self) merged (bert_rows self Hshape)
                (length merged) 0 ltac:(lia)) as Hrows.
  rewrite Nat.sub_0_r in Hrows. change (Z.of_nat 0) with 0%Z in Hrows.
  destruct (map _ (range_from (length merged) 0 _ physical_batch_size))
    as [|out outs] eqn:Hchunks.
  { cbn in Hrows. discriminate. }
  rewrite length_map, Hrows.
  change (length merged =? 0)%nat with false. cbv iota.
  assert (Hsplit :
    map length (tensor_split (map (projector self) (concat (out :: outs)))
                             (tail (merge_data_from 0 sequences).2))
    = map length sequences).
  { apply tensor_split_lengths.
    - intros E. rewrite E in Hmerged. discriminate.
    - rewrite length_map, Hrows, Hmerged. reflexivity. }
  destruct (tail (merge_data_from 0 sequences).2);
    (split; [discriminate|exact Hsplit]).
Qed.

(** *** The samples that are kept *)

Lemma collect_valid_positions instruc segs :
  forall i,
    (collect_valid instruc i segs).2 = nonempty_positions i (map length segs)
    /\ length (collect_valid instruc i segs).1
       = length (collect_valid instruc i segs).2
    /\ Forall (fun e => 0 < length e)%nat (collect_valid instruc i segs).1.
Proof.
  induction segs as [|seg rest IH]; intros i; cbn [collect_valid map nonempty_positions].
  - cbn. auto.
  - destruct (IH (S i)) as (Hpos & Hlen & Hne).
    destruct (0 <? length seg)%nat eqn:E; cbn [fst snd length].
    + split; [rewrite Hpos; reflexivity|]. split; [rewrite Hlen; reflexivity|].
      constructor; [|exact Hne].
      rewrite length_app. apply Nat.ltb_lt in E. lia.
    + auto.
Qed.

Lemma nonempty_positions_elem lens :
  forall i x,
    x ∈ nonempty_positions i lens <->
    exists j n, x = (i + j)%nat /\ lens !! j = Some n /\ (0 < n)%nat.
Proof.
  induction lens as [|n rest IH]; intros i x; cbn [nonempty_positions].
  - split; [intros H; inversion H|intros (j & n & _ & H & _); discriminate].
  - assert (Htail : x ∈ nonempty_positions (S i) rest <->
                    exists j m, x = (i + S j)%nat /\ rest !! j = Some m /\ (0 < m)%nat).
    { rewrite IH. split; intros (j & m & -> & H); exists j, m; split; auto; lia. }
    destruct (Nat.ltb_spec 0 n) as [Hn|Hn].
    + rewrite elem_of_cons, Htail. split.
      * intros [-> | (j & m & -> & H)].
        -- exists 0%nat, n. split; [lia|]. auto.
        -- exists (S j), m. auto.
      * intros ([|j] & m & -> & Hj & Hm).
        -- left. lia.
        -- right. exists j, m. auto.
    + rewrite Htail. split.
      * intros (j & m & -> & H). exists (S j), m. auto.
      * intros ([|j] & m & -> & Hj & Hm).
        -- cbn in Hj. inversion Hj; subst. lia.
        -- exists j, m. auto.
Qed.

Lemma nonempty_positions_NoDup lens : forall i, NoDup (nonempty_positions i lens).
Proof.
  induction lens as [|n rest IH]; intros i; cbn [nonempty_positions]; [constructor|].
  destruct (0 <? n)%nat; [|apply IH].
  constructor; [|apply IH].
  rewrite nonempty_positions_elem. intros (j & m & Hx & _). lia.
Qed.

Lemma nonempty_positions_nil lens i :
  nonempty_positions i lens = [] <-> Forall (fun n => n = 0%nat) lens.
Proof.
  revert i. induction lens as [|n rest IH]; intros i; cbn [nonempty_positions].
  - split; auto.
  - rewrite Forall_cons. destruct (Nat.ltb_spec 0 n) as [Hn|Hn].
    + split; [discriminate|]. intros (H & _). lia.
    + rewrite IH. split; [intros H; split; [lia|exact H]|intros (_ & H); exact H].
Qed.

Lemma surviving_elem self sequences_ i :
  i ∈ surviving self sequences_ <->
  exists s, sequences_ !! i = Some s /\ slice_to (max_seq_len self) s <> [].
Proof.
  unfold surviving. rewrite nonempty_positions_elem. split.
  - intros (j & n & -> & Hj & Hn). rewrite list_lookup_fmap in Hj.
    destruct (sequences_ !! j) as [s|] eqn:E; [|discriminate].
    cbn in Hj. inversion Hj; subst. exists s. split; [exact E|].
    intros Hnil. rewrite Hnil in Hn. cbn in Hn. lia.
  - intros (s & Hs & Hne). exists i, (length (slice_to (max_seq_len self) s)).
    split; [reflexivity|]. rewrite list_lookup_fmap, Hs. split; [reflexivity|].
    destruct (slice_to (max_seq_len self) s); [congruence|cbn; lia].
Qed.

End Pipeline.

Section Logits.

Lemma mask_sum (pad real : nat) :
  foldr Z.add 0%Z (replicate pad 0%Z ++ replicate real 1%Z) = Z.of_nat real.
Proof.
  induction pad as [|pad IH]; cbn [replicate app foldr].
  - induction real as [|real IH]; cbn [replicate foldr]; lia.
  - rewrite IH. lia.
Qed.

Lemma index_wrap_in_range {A} (row : list A) (c : Z) :
  (0 <= c < Z.of_nat (length row))%Z -> exists x, index_wrap row c = Ok x.
Proof.
  intros Hc. unfold index_wrap.
  destruct (Z.ltb_spec c 0); [lia|].
  destruct (Z.leb_spec 0 c); [|lia].
  destruct (Z.ltb_spec c (Z.of_nat (length row))); [|lia]. cbn.
  destruct (lookup_lt_is_Some_2 row (Z.to_nat c) ltac:(lia)) as [x ->].
  exists x. reflexivity.
Qed.

Lemma gather_from_ok (last_hidden_state : list (list vec)) (columns : list Z) :
  forall k,
    (forall j c, columns !! j = Some c ->
       exists row, last_hidden_state !! (k + j)%nat = Some row
                   /\ (0 <= c < Z.of_nat (length row))%Z) ->
    exists hs, gather_from last_hidden_state k columns = Ok hs
               /\ length hs = length columns.
Proof.
  induction columns as [|c rest IH]; intros k Hcols; cbn [gather_from].
  - exists []. auto.
  - destruct (Hcols 0%nat c eq_refl) as (row & Hrow & Hc).
    rewrite Nat.add_0_r in Hrow. rewrite Hrow.
    destruct (index_wrap_in_range row c Hc) as [h ->]. cbn [rbind].
    destruct (IH (S k)) as (hs & -> & Hlen).
    { intros j c' Hj. destruct (Hcols (S j) c' Hj) as (row' & Hrow' & Hc').
      exists row'. split; [|exact Hc']. rewrite <- Hrow'. f_equal. lia. }
    cbn [rbind]. exists (h :: hs). cbn. auto.
Qed.

Lemma padded_batch_gather self (tensors : list (list vec)) :
  well_shaped self ->
  Forall (fun e => 0 < length e)%nat tensors ->
  let padded := stack_and_pad_left (llama_hidden_size self) tensors in
  exists hs,
    gather_from (llama_model self padded.1 padded.2) 0 (sequence_lengths padded.2)
    = Ok hs
    /\ length hs = length tensors.
Proof.
  intros Hshape Hne padded.
  destruct (gather_from_ok (llama_model self padded.1 padded.2)
              (sequence_lengths padded.2) 0) as (hs & Hhs & Hlen).
  - intros j c Hc. unfold sequence_lengths, padded, stack_and_pad_left in Hc.
    cbn [snd] in Hc.
    rewrite !list_lookup_fmap in Hc.
    destruct (tensors !! j) as [t|] eqn:Ht; [|discriminate].
    cbn in Hc. rewrite mask_sum in Hc. inversion Hc; subst c. clear Hc.
    assert (Hx : padded.1 !! j
                 = Some (replicate (max_list (map length tensors) - length t)
                                   (replicate (llama_hidden_size self) 0%Q) ++ t)).
    { unfold padded, stack_and_pad_left. cbn [fst].
      rewrite list_lookup_fmap, Ht. reflexivity. }
    destruct (lookup_lt_is_Some_2 (llama_model self padded.1 padded.2) j) as [row Hrow].
    { rewrite (llama_rows self Hshape). apply lookup_lt_Some in Hx. exact Hx. }
    exists row. split; [exact Hrow|].
    rewrite (llama_cols self Hshape _ _ _ _ _ Hx Hrow).
    rewrite length_app, length_replicate.
    assert (length t <= max_list (map length tensors))%nat.
    { apply max_list_elem_of_le, list_elem_of_fmap. exists t. split; [reflexivity|].
      eapply list_elem_of_lookup_2. exact Ht. }
    assert (0 < length t)%nat.
    { eapply (proj1 (Forall_forall _ _) Hne). eapply list_elem_of_lookup_2. exact Ht. }
    lia.
  - exists hs. split; [exact Hhs|]. rewrite Hlen.
    unfold sequence_lengths, padded, stack_and_pad_left. cbn [snd].
    rewrite !length_map. reflexivity.
Qed.

(** [_get_logits] never raises on a well-shaped model: it returns nothing
    when no sample survives, and otherwise one two-column row per surviving
    sample together with the surviving positions, in order. *)
Lemma _get_logits_spec self sequences_ :
  well_shaped self ->
  exists r,
    _get_logits self sequences_ = Ok r
    /\ match r with
       | None => surviving self sequences_ = []
       | Some (logits, original_indices) =>
           original_indices = surviving self sequences_
           /\ original_indices <> []
           /\ length logits = length original_indices
           /\ Forall (fun row => length row = 2%nat) logits
       end.
Proof.
  intros Hshape. unfold _get_logits.
  pose proof (get_cls_embeddings_lengths self sequences_ Hshape) as Hcls.
  cbv zeta in Hcls.
  destruct (get_cls_embeddings self sequences_) as [segs|].
  - destruct Hcls as (Hne & Hlens).
    destruct (collect_valid_positions (instruc_embeds self) segs 0)
      as (Hpos & Hlen & Hvalid).
    rewrite Hlens, map_map in Hpos. fold (surviving self sequences_) in Hpos.
    assert (Hsurv : surviving self sequences_ <> []).
    { unfold surviving. rewrite nonempty_positions_nil. intros Hall.
      apply Hne. apply concat_nil_lengths. rewrite map_map. exact Hall. }
    destruct (collect_valid (instruc_embeds self) 0 segs).1 as [|e valid] eqn:Hv.
    { exfalso. apply Hsurv. rewrite <- Hpos.
      destruct (collect_valid (instruc_embeds self) 0 segs).2; [reflexivity|].
      cbn in Hlen. discriminate. }
    destruct (padded_batch_gather self (e :: valid) Hshape Hvalid) as (hs & Hhs & Hn).
    cbv zeta in Hhs. rewrite Hhs. cbn [rbind].
    eexists. split; [reflexivity|]. cbn beta iota.
    split; [exact Hpos|]. split; [rewrite Hpos; exact Hsurv|].
    split; [rewrite length_map, Hn, <- Hlen; reflexivity|].
    apply Forall_forall. intros row Hrow. apply list_elem_of_fmap in Hrow.
    destruct Hrow as (h & -> & _). apply (classifier_cols self Hshape).
  - exists None. split; [reflexivity|].
    unfold surviving. apply nonempty_positions_nil.
    apply concat_nil_lengths in Hcls. rewrite map_map in Hcls. exact Hcls.
Qed.

(** *** Writing the surviving rows back *)

Lemma index_put_spec (width : nat) (indices : list nat) :
  forall (t values : list (list fval)),
    NoDup indices ->
    length values = length indices ->
    (forall i, i ∈ indices -> (i < length t)%nat) ->
    Forall (fun row => length row = width) t ->
    Forall (fun row => length row = width) values ->
    exists out,
      index_put t indices values = Ok out
      /\ length out = length t
      /\ Forall (fun row => length row = width) out
      /\ (forall i, i ∉ indices -> out !! i = t !! i)
      /\ (forall k i, indices !! k = Some i -> out !! i = values !! k).
Proof.
  induction indices as [|i indices IH]; intros t values Hnd Hlen Hrange Ht Hv.
  - destruct values; [|discriminate]. exists t. cbn. repeat split; auto.
    intros k i Hk. discriminate.
  - destruct values as [|v values]; [discriminate|].
    apply NoDup_cons in Hnd. destruct Hnd as (Hi & Hnd).
    apply Forall_cons in Hv. destruct Hv as (Hvw & Hv').
    cbn [index_put].
    destruct (lookup_lt_is_Some_2 t i) as [old Hold].
    { apply Hrange. left. }
    rewrite Hold.
    assert (Hw : length old = width).
    { eapply (proj1 (Forall_forall _ _) Ht). eapply list_elem_of_lookup_2. exact Hold. }
    rewrite Hw, Hvw, Nat.eqb_refl.
    destruct (IH (<[i:=v]> t) values Hnd) as (out & Hout & Hl & Hwd & Hother & Hput).
    + cbn in Hlen. lia.
    + intros j Hj. rewrite length_insert. apply Hrange. right. exact Hj.
    + apply Forall_insert; auto.
    + exact Hv'.
    + exists out. split; [exact Hout|]. rewrite length_insert in Hl.
      split; [exact Hl|]. split; [exact Hwd|]. split.
      * intros j Hj. rewrite not_elem_of_cons in Hj. destruct Hj as (Hji & Hj).
        rewrite (Hother j Hj). apply list_lookup_insert_ne. congruence.
      * intros [|k] j Hk; cbn in Hk.
        -- inversion Hk; subst j. rewrite (Hother i Hi). cbn.
           apply list_lookup_insert_eq. apply Hrange. left.
        -- cbn. apply Hput. exact Hk.
Qed.

End Logits.

Section ForwardAndTrainHelper.

Lemma toy_model_well_shaped names : well_shaped (toy_model names).
Proof.
  constructor; cbn.
  - intros batch. apply length_map.
  - reflexivity.
  - intros xs mask k x h Hx Hh. congruence.
  - reflexivity.
Qed.

Lemma full_lookup rows cols v i :
  (i < rows)%nat -> full rows cols v !! i = Some (replicate cols v).
Proof. intros Hi. unfold full. apply lookup_replicate_2. exact Hi. Qed.

Lemma full_widths rows cols v :
  Forall (fun row => length row = cols) (full rows cols v).
Proof.
  unfold full. apply Forall_forall. intros row Hrow.
  apply elem_of_replicate in Hrow. destruct Hrow as (-> & _).
  apply length_replicate.
Qed.

(** C4. On a well-shaped model [forward] returns, for every input batch,
    exactly one row of two columns per input sample. A sample with no log
    line left after truncation (an empty log-line list in particular) gets
    the sentinel row; every other sample gets, at its original position, the
    row of logits [_get_logits] computed for it. *)
Theorem forward_one_row_per_sample
    (self : LogSentinelModel) (sequences_ : list (list string)) :
  well_shaped self ->
  exists out,
    forward self sequences_ = Ok out
    /\ length out = length sequences_
    /\ Forall (fun row => length row = 2%nat) out
    /\ (forall i s, sequences_ !! i = Some s ->
          slice_to (max_seq_len self) s = [] -> out !! i = Some sentinel)
    /\ (forall i s, sequences_ !! i = Some s ->
          slice_to (max_seq_len self) s <> [] ->
          exists logits original_indices k row,
            _get_logits self sequences_ = Ok (Some (logits, original_indices))
            /\ original_indices !! k = Some i
            /\ logits !! k = Some row
            /\ out !! i = Some row).
Proof.
  intros Hshape. unfold forward.
  destruct (_get_logits_spec self sequences_ Hshape) as (r & Hr & Hspec).
  rewrite Hr. cbn [rbind]. destruct r as [[logits original_indices]|].
  - destruct Hspec as (Hidx & Hne & Hlen & Hwidth).
    destruct (index_put_spec 2 original_indices (full (length sequences_) 2 NegInf) logits)
      as (out & Hout & Hl & Hw & Hother & Hput).
    + rewrite Hidx. apply nonempty_positions_NoDup.
    + exact Hlen.
    + intros i Hi. rewrite Hidx in Hi. apply surviving_elem in Hi.
      destruct Hi as (s & Hs & _). unfold full. rewrite length_replicate.
      eapply lookup_lt_Some. exact Hs.
    + apply full_widths.
    + exact Hwidth.
    + exists out. split; [exact Hout|].
      unfold full in Hl. rewrite length_replicate in Hl.
      split; [exact Hl|]. split; [exact Hw|]. split.
      * intros i s Hs Hnil. rewrite Hother.
        -- apply full_lookup. eapply lookup_lt_Some. exact Hs.
        -- rewrite Hidx, surviving_elem. intros (s' & Hs' & Hne').
           rewrite Hs in Hs'. inversion Hs'; subst. contradiction.
      * intros i s Hs Hsome.
        assert (Hin : i ∈ original_indices).
        { rewrite Hidx. apply surviving_elem. exists s. auto. }
        apply list_elem_of_lookup in Hin. destruct Hin as (k & Hk).
        destruct (lookup_lt_is_Some_2 logits k) as [row Hrow].
        { rewrite Hlen. eapply lookup_lt_Some. exact Hk. }
        exists logits, original_indices, k, row.
        split; [reflexivity|]. split; [exact Hk|]. split; [exact Hrow|].
        rewrite (Hput k i Hk). exact Hrow.
  - exists (full (length sequences_) 2 NegInf). split; [reflexivity|].
    split; [unfold full; apply length_replicate|]. split; [apply full_widths|]. split.
    + intros i s Hs _. apply full_lookup. eapply lookup_lt_Some. exact Hs.
    + intros i s Hs Hsome. exfalso.
      assert (Hin : i ∈ surviving self sequences_).
      { apply surviving_elem. exists s. auto. }
      rewrite Hspec in Hin. inversion Hin.
Qed.

Lemma forward_one_row_per_sample_witness :
  well_shaped (toy_model toy_names)
  /\ exists out,
       forward (toy_model toy_names) [["a"; "b"]; []; ["c"]] = Ok out
       /\ length out = 3%nat
       /\ Forall (fun row => length row = 2%nat) out
       /\ (forall i s, [["a"; "b"]; []; ["c"]] !! i = Some s ->
             slice_to 128 s = [] -> out !! i = Some sentinel)
       /\ (forall i s, [["a"; "b"]; []; ["c"]] !! i = Some s ->
             slice_to 128 s <> [] ->
             exists logits original_indices k row,
               _get_logits (toy_model toy_names) [["a"; "b"]; []; ["c"]]
               = Ok (Some (logits, original_indices))
               /\ original_indices !! k = Some i
               /\ logits !! k = Some row
               /\ out !! i = Some row).
Proof.
  split; [apply toy_model_well_shaped|].
  apply (forward_one_row_per_sample (toy_model toy_names) [["a"; "b"]; []; ["c"]]).
  apply toy_model_well_shaped.
Defined.

Lemma rmapM_list_item {A} (labels : list A) (indices : list nat) :
  (forall i, i ∈ indices -> (i < length labels)%nat) ->
  exists items,
    rmapM (list_item labels) indices = Ok items
    /\ length items = length indices
    /\ (forall k i, indices !! k = Some i -> items !! k = labels !! i).
Proof.
  induction indices as [|i indices IH]; intros Hrange; cbn [rmapM].
  - exists []. repeat split; auto. intros k i Hk. discriminate.
  - destruct (lookup_lt_is_Some_2 labels i) as [x Hx]; [apply Hrange; left|].
    unfold list_item at 1. rewrite Hx. cbn [rbind].
    destruct IH as (items & -> & Hlen & Hitems).
    { intros j Hj. apply Hrange. right. exact Hj. }
    cbn [rbind]. exists (x :: items). split; [reflexivity|].
    split; [cbn; lia|]. intros [|k] j Hk; cbn in Hk |- *.
    + inversion Hk; subst. symmetry. exact Hx.
    + apply Hitems. exact Hk.
Qed.

Lemma label_id_spec (lbl : string) :
  label_id lbl = if decide (lbl = "anomalous") then 1%Z else 0%Z.
Proof.
  unfold label_id. destruct (String.eqb_spec lbl "anomalous") as [->|Hne].
  - reflexivity.
  - destruct (decide (lbl = "anomalous")); [contradiction|reflexivity].
Qed.

(** C10. For a batch with at least one surviving sample (and a label for
    every sample), [train_helper] returns the logits of the surviving
    samples together with one integer label per surviving sample, in order:
    1 exactly when that sample's label string equals ['anomalous'], and 0 for
    every other string. *)
Theorem train_helper_label_ids
    (self : LogSentinelModel) (sequences_ : list (list string)) (labels : list string) :
  well_shaped self ->
  (length sequences_ <= length labels)%nat ->
  surviving self sequences_ <> [] ->
  exists logits integer_labels,
    _get_logits self sequences_ = Ok (Some (logits, surviving self sequences_))
    /\ train_helper self sequences_ labels = Ok (logits, integer_labels)
    /\ length integer_labels = length (surviving self sequences_)
    /\ (forall k i lbl,
          surviving self sequences_ !! k = Some i ->
          labels !! i = Some lbl ->
          integer_labels !! k
          = Some (if decide (lbl = "anomalous") then 1%Z else 0%Z)).
Proof.
  intros Hshape Hlabels Hsurv. unfold train_helper.
  destruct (_get_logits_spec self sequences_ Hshape) as (r & Hr & Hspec).
  rewrite Hr. cbn [rbind]. destruct r as [[logits original_indices]|];
    [|contradiction].
  destruct Hspec as (-> & _ & Hlen & _).
  destruct (rmapM_list_item labels (surviving self sequences_))
    as (items & Hitems & Hn & Hlook).
  { intros i Hi. apply surviving_elem in Hi. destruct Hi as (s & Hs & _).
    apply lookup_lt_Some in Hs. lia. }
  rewrite Hitems. cbn [rbind].
  exists logits, (map label_id items). split; [reflexivity|]. split; [reflexivity|].
  split; [rewrite length_map; exact Hn|].
  intros k i lbl Hk Hlbl. rewrite list_lookup_fmap, (Hlook k i Hk), Hlbl. cbn.
  rewrite label_id_spec. reflexivity.
Qed.

Lemma train_helper_label_ids_witness :
  exists logits integer_labels,
    _get_logits (toy_model toy_names) [["a"]; []; ["b"]; ["c"]]
    = Ok (Some (logits, [0; 2; 3]%nat))
    /\ train_helper (toy_model toy_names) [["a"]; []; ["b"]; ["c"]]
         ["anomalous"; "normal"; "Anomalous"; "anomaly"]
       = Ok (logits, integer_labels)
    /\ length integer_labels = 3%nat
    /\ (forall k i lbl,
          [0; 2; 3]%nat !! k = Some i ->
          ["anomalous"; "normal"; "Anomalous"; "anomaly"] !! i = Some lbl ->
          integer_labels !! k
          = Some (if decide (lbl = "anomalous") then 1%Z else 0%Z)).
Proof.
  apply (train_helper_label_ids (toy_model toy_names) [["a"]; []; ["b"]; ["c"]]
           ["anomalous"; "normal"; "Anomalous"; "anomaly"]).
  - apply toy_model_well_shaped.
  - cbn. lia.
  - vm_compute. discriminate.
Defined.

End ForwardAndTrainHelper.

(** * Part V: properties of [engine/training_controller.py] *)

Section Oversampling.

Variable w : world.

Lemma fraction_nonneg (a : Z) (b : nat) :
  (0 < a)%Z -> b <> 0%nat -> (0 <= inject_Z a / inject_Z (Z.of_nat b))%Q.
Proof.
  intros Ha Hb. apply Qle_shift_div_l.
  - change 0%Q with (inject_Z 0). rewrite <- Zlt_Qlt. lia.
  - rewrite Qmult_0_l. change 0%Q with (inject_Z 0). rewrite <- Zle_Qle. lia.
Qed.

(** X18. Where line 181 is not reached, oversampling is off: with
    [min_less_portion] present and equal to 0 the index list is the
    original index range and nothing is raised, for every training set.
    With the key absent the guard compares the minority fraction with the
    default 0.5, and the index list is the original range, with nothing
    raised, when the minority class is empty or its fraction is at least
    0.5. *)
Theorem oversampling_disabled
    (hp : gmap string Q) (train : LogDataset) (c : TrainingController) :
  ((0 < num_less train)%Z -> ds_len train <> 0%nat) ->
  ((exists p, hp !! "min_less_portion" = Some p /\ (p == 0)%Q)
   \/ (hp !! "min_less_portion" = None
       /\ ((num_less train <= 0)%Z
           \/ (1 # 2 <= inject_Z (num_less train)
                         / inject_Z (Z.of_nat (ds_len train)))%Q))) ->
  oversample w hp train c = (Ok (map Z.of_nat (seq 0 (ds_len train))), c).
Proof.
  intros Hds Hkey. unfold oversample, bind.
  destruct (Z.gtb_spec (num_less train) 0) as [Hless|Hless]; [|reflexivity].
  destruct (Nat.eqb_spec (ds_len train) 0) as [Hlen|Hlen];
    [exfalso; apply Hds; [lia|exact Hlen]|].
  cbn [ret].
  assert (Hguard :
    Qle_bool (default (1 # 2)%Q (hp !! "min_less_portion"))
             (inject_Z (num_less train) / inject_Z (Z.of_nat (ds_len train)))
    = true).
  { apply Qle_bool_iff. destruct Hkey as [(p & -> & Hp)|(-> & [Hn|Hfrac])]; cbn.
    - rewrite Hp. apply fraction_nonneg; [lia|exact Hlen].
    - lia.
    - exact Hfrac. }
  rewrite Hguard. reflexivity.
Qed.

End Oversampling.

Lemma oversampling_disabled_witness :
  oversample (example_world (example_dataset 4) (fun _ => 1%nat) never_stop)
    example_hp_real (example_dataset 4) (__init__ ∅ example_hp_real)
  = (Ok [0; 1; 2; 3]%Z, __init__ ∅ example_hp_real).
Proof.
  apply (oversampling_disabled
           (example_world (example_dataset 4) (fun _ => 1%nat) never_stop)
           example_hp_real (example_dataset 4) (__init__ ∅ example_hp_real)).
  - intros _. cbn. lia.
  - left. exists 0%Q. split; reflexivity.
Defined.

(** C7, evaluated on the code. The hyperparameters have no
    [min_less_portion] and one training sample out of four is of the
    minority class. Line 180 reads the key with the default 0.5, so the
    guard holds for the fraction 0.25; line 181 then reads the same key
    without a default and raises [KeyError]: no index list is produced and
    the run ends as FAILED on account of the missing key. *)
Lemma missing_min_less_portion_raises :
  let w := example_world (example_dataset 4) (fun _ => 1%nat) never_stop in
  let c := __init__ (example_hp_int 2 2 1 0 0 0) example_lr in
  hp_real c !! "min_less_portion" = None
  /\ (oversample w (hp_real c) (example_dataset 4) c).1
     = Raise (KeyError "min_less_portion")
  /\ last (trace (run w c).2) = Some (Callback (EvDone "FAILED") false).
Proof. vm_compute. repeat split; reflexivity. Qed.

Section StepAccounting.

(** The first half of the step accounting: the total is the sum over the four
    phases of the configured epochs times [len(base_indexes) //
    micro_batch_size]. *)
Lemma compute_total_training_steps_sum (hp : gmap string Z)
    (base_indexes : list Z) (micro_batch_size : Z) :
  hp !! "micro_batch_size" = Some micro_batch_size ->
  micro_batch_size <> 0%Z ->
  compute_total_training_steps hp base_indexes
  = Ok (default 0 (hp !! "n_epochs_phase1")
          * (Z.of_nat (length base_indexes) / micro_batch_size)
        + default 0 (hp !! "n_epochs_phase2")
          * (Z.of_nat (length base_indexes) / micro_batch_size)
        + default 0 (hp !! "n_epochs_phase3")
          * (Z.of_nat (length base_indexes) / micro_batch_size)
        + default 0 (hp !! "n_epochs_phase4")
          * (Z.of_nat (length base_indexes) / micro_batch_size))%Z.
Proof.
  intros Hkey Hne. unfold compute_total_training_steps, hp_item, floordiv.
  rewrite Hkey. cbn [rbind].
  destruct (Z.eqb_spec micro_batch_size 0); [contradiction|]. cbn [rbind].
  f_equal. cbn [seq map foldr].
  change (phase_key "n_epochs_phase" 0) with "n_epochs_phase1".
  change (phase_key "n_epochs_phase" 1) with "n_epochs_phase2".
  change (phase_key "n_epochs_phase" 2) with "n_epochs_phase3".
  change (phase_key "n_epochs_phase" 3) with "n_epochs_phase4".
  lia.
Qed.

(** C2, evaluated on the code. Three training indexes, micro-batches of two,
    one epoch in phase 1 and none in the others: [total_training_steps] is
    [1 * (3 // 2) = 1], but the epoch runs the two micro-batches
    [range(0, 3, 2)] yields, so the statuses report progress 1 and then 2. *)
Theorem progress_exceeds_one :
  let w := example_world (example_dataset 3) (fun _ => 1%nat) never_stop in
  let c := __init__ (example_hp_int 2 2 1 0 0 0) example_hp_real in
  compute_total_training_steps (hp_int c) [0; 1; 2]%Z = Ok 1%Z
  /\ total_training_steps (run w c).2 = 1%Z
  /\ reported_progress (trace (run w c).2) = [1%Q; (2 # 1)%Q]
  /\ (1 < 2 # 1)%Q.
Proof. vm_compute. repeat split; reflexivity. Qed.

End StepAccounting.

Section TraceLogic.

Variable w : world.

Local Open Scope ctl_scope.

Lemma extends_bind {A B} (m : M A) (k : A -> M B)
    (Q1 : result A -> list action -> Prop)
    (Q2 : A -> result B -> list action -> Prop)
    (Q : result B -> list action -> Prop) :
  extends m Q1 ->
  (forall a, extends (k a) (Q2 a)) ->
  (forall a s1 r s2, Q1 (Ok a) s1 -> Q2 a r s2 -> Q r (s1 ++ s2)) ->
  (forall e s1, Q1 (Raise e) s1 -> Q (Raise e) s1) ->
  extends (bind m k) Q.
Proof.
  intros Hm Hk Hok Hraise c. unfold bind.
  destruct (Hm c) as (s1 & Ht1 & HQ1).
  destruct (m c) as [[a|e] c1]; cbn [fst snd] in *.
  - destruct (Hk a c1) as (s2 & Ht2 & HQ2).
    exists (s1 ++ s2). rewrite Ht2, Ht1, app_assoc. split; [reflexivity|].
    eapply Hok; eassumption.
  - exists s1. split; [exact Ht1|]. apply Hraise. exact HQ1.
Qed.

Lemma extends_weaken {A} (m : M A) (Q Q' : result A -> list action -> Prop) :
  extends m Q -> (forall r s, Q r s -> Q' r s) -> extends m Q'.
Proof.
  intros Hm HQ c. destruct (Hm c) as (s & Ht & Hs). exists s. auto.
Qed.

Lemma extends_ret {A} (a : A) (Q : result A -> list action -> Prop) :
  Q (Ok a) [] -> extends (ret a) Q.
Proof. intros HQ c. exists []. cbn. rewrite app_nil_r. auto. Qed.

Lemma extends_prefix {A B} (f : action -> bool) (m : M A) (k : A -> M B)
    (Q : result B -> list action -> Prop) :
  absorbs f Q -> only f m -> (forall a, extends (k a) Q) -> extends (bind m k) Q.
Proof.
  intros (Hab1 & Hab2) Hm Hk.
  apply (extends_bind m k _ (fun _ => Q) Q Hm Hk).
  - intros a s1 r s2 H1 H2. apply Hab1; assumption.
  - intros e s1 H1. apply Hab2. exact H1.
Qed.

Lemma absorbs_only {A} (f : action -> bool) :
  absorbs f (fun (_ : result A) seg => Forall (fun a => f a = true) seg).
Proof.
  split.
  - intros r s1 s2 H1 H2. apply Forall_app. auto.
  - intros e s1 H1. exact H1.
Qed.

Lemma only_bind {A B} f (m : M A) (k : A -> M B) :
  only f m -> (forall a, only f (k a)) -> only f (bind m k).
Proof. intros Hm Hk. apply (extends_prefix f); auto using absorbs_only. Qed.

Lemma only_weaken {A} (f g : action -> bool) (m : M A) :
  (forall a, f a = true -> g a = true) -> only f m -> only g m.
Proof.
  intros Hfg Hm. eapply extends_weaken; [exact Hm|].
  intros r s Hs. cbn beta in *. eapply Forall_impl; [exact Hs|]. exact Hfg.
Qed.

Lemma only_ret {A} f (a : A) : only f (ret a).
Proof. apply extends_ret. constructor. Qed.

Lemma only_raise {A} f (e : exn) : only f (@raise A e).
Proof. intros c. exists []. cbn. rewrite app_nil_r. auto. Qed.

Lemma only_lift {A} f (r : result A) : only f (lift r).
Proof. intros c. exists []. cbn. rewrite app_nil_r. auto. Qed.

Lemma only_gets {A} f (g : TrainingController -> A) : only f (gets g).
Proof. intros c. exists []. cbn. rewrite app_nil_r. auto. Qed.

Lemma only_modify f (g : TrainingController -> TrainingController) :
  (forall c, trace (g c) = trace c) -> only f (modify g).
Proof. intros Hg c. exists []. cbn. rewrite app_nil_r, Hg. auto. Qed.

Lemma only_emit f (a : action) : f a = true -> only f (emit a).
Proof. intros Ha c. exists [a]. cbn. auto. Qed.

Lemma only_perform f (a : action) : f a = true -> only f (perform w a).
Proof.
  intros Ha c. unfold perform. destruct (fault w (global_step_count c) a).
  - exists []. cbn. rewrite app_nil_r. auto.
  - exists [a]. cbn. auto.
Qed.

Lemma only_call_back f (e : event) :
  (forall b, f (Callback e b) = true) -> only f (call_back w e).
Proof. intros He c. exists [Callback e (callback w (trace c) e)]. cbn. auto. Qed.

Lemma only_log f (m : message) :
  (forall b, f (Callback (EvLog m) b) = true) -> only f (_log w m).
Proof.
  intros Hm. unfold _log. apply only_bind; [apply only_call_back; exact Hm|].
  intros _. apply only_ret.
Qed.

End TraceLogic.

Create HintDb only_db.

(** One step of a proof that straight-line code emits accepted actions. *)
Ltac only_step :=
  lazymatch goal with
  | |- only _ (bind _ _) => apply only_bind; [|intros ?]
  | |- only _ (ret _) => apply only_ret
  | |- only _ (raise _) => apply only_raise
  | |- only _ (lift _) => apply only_lift
  | |- only _ (gets _) => apply only_gets
  | |- only _ (modify _) => apply only_modify; intros ?; reflexivity
  | |- only _ (emit _) => apply only_emit; reflexivity
  | |- only _ (perform _ _) => apply only_perform; reflexivity
  | |- only _ (call_back _ _) => apply only_call_back; intros ?; reflexivity
  | |- only _ (_log _ _) => apply only_log; intros ?; reflexivity
  | |- only _ (if ?b then _ else _) => destruct b
  | |- only _ (match ?x with _ => _ end) => destruct x
  | |- only _ _ => solve [auto with only_db]
  end.

Ltac only_tac := repeat only_step.

Ltac action_cases :=
  let a := fresh "a" in
  let H := fresh "H" in
  intros a H; destruct a;
  try solve [reflexivity | discriminate H];
  repeat match goal with
         | e : event |- _ => destruct e
         | b : bool |- _ => destruct b
         end;
  solve [reflexivity | discriminate H].

Lemma training_action_guarded a : training_action a = true -> guarded a = true.
Proof. revert a. action_cases. Qed.

Lemma evaluation_action_guarded a : evaluation_action a = true -> guarded a = true.
Proof. revert a. action_cases. Qed.

Lemma evaluation_action_quiet a : evaluation_action a = true -> quiet a = true.
Proof. revert a. action_cases. Qed.

Lemma calm_quiet a : calm a = true -> quiet a = true.
Proof. unfold calm, quiet. intros H. apply andb_true_iff in H. tauto. Qed.

Lemma closing_not_training a : closing a = true -> is_training_work a = false.
Proof. revert a. action_cases. Qed.

Lemma closing_not_persist a : closing a = true -> is_persist a = false.
Proof. revert a. action_cases. Qed.

Lemma closing_quiet a : closing a = true -> quiet a = true.
Proof. revert a. action_cases. Qed.

Section Emissions.

Variable w : world.

Local Open Scope ctl_scope.

Lemma only_micro_batch lbl mbs g n i_th start_idx :
  only training_action (micro_batch w lbl mbs g n i_th start_idx).
Proof. unfold micro_batch. cbv zeta. only_tac. Qed.

#[local] Hint Resolve only_micro_batch : only_db.

Lemma only_for_micro_batches lbl mbs g n starts :
  forall i_th, only training_action (for_micro_batches w lbl mbs g n i_th starts).
Proof.
  induction starts as [|start_idx rest IH]; intros i_th; cbn [for_micro_batches];
    only_tac.
Qed.

#[local] Hint Resolve only_for_micro_batches : only_db.

Lemma only_epoch_body name n_epochs g indexes epoch :
  only training_action (epoch_body w name n_epochs g indexes epoch).
Proof. unfold epoch_body. cbv zeta. only_tac. Qed.

#[local] Hint Resolve only_epoch_body : only_db.

Lemma only_for_epochs name n_epochs g indexes epochs :
  only training_action (for_epochs w name n_epochs g indexes epochs).
Proof. induction epochs as [|epoch rest IH]; cbn [for_epochs]; only_tac. Qed.

#[local] Hint Resolve only_for_epochs : only_db.

Lemma only__train_phase name n_epochs lr indexes :
  only training_action (_train_phase w name n_epochs lr indexes).
Proof. unfold _train_phase. only_tac. Qed.

#[local] Hint Resolve only__train_phase : only_db.

Lemma only_for_phases phases indexes :
  only training_action (for_phases w phases indexes).
Proof.
  induction phases as [|[[[name setup_func] epochs] lr] rest IH];
    cbn [for_phases]; only_tac.
Qed.

Lemma only_for_eval_batches total starts :
  only evaluation_action (for_eval_batches w total starts).
Proof.
  induction starts as [|i rest IH]; cbn [for_eval_batches]; cbv zeta; only_tac.
Qed.

#[local] Hint Resolve only_for_eval_batches : only_db.

Lemma only__evaluate : only evaluation_action (_evaluate w).
Proof. unfold _evaluate. only_tac. Qed.

Lemma guarded_for_phases phases indexes :
  only guarded (for_phases w phases indexes).
Proof.
  eapply only_weaken; [exact training_action_guarded|apply only_for_phases].
Qed.

Lemma guarded__evaluate : only guarded (_evaluate w).
Proof.
  eapply only_weaken; [exact evaluation_action_guarded|apply only__evaluate].
Qed.

#[local] Hint Resolve guarded_for_phases guarded__evaluate : only_db.

Lemma guarded__initialize_run : only guarded (_initialize_run w).
Proof. unfold _initialize_run. only_tac. Qed.

Lemma guarded_oversample hp train : only guarded (oversample w hp train).
Proof. unfold oversample. cbv zeta. only_tac. Qed.

#[local] Hint Resolve guarded__initialize_run guarded_oversample : only_db.

Lemma guarded_run_except e : only guarded (run_except w e).
Proof. unfold run_except. only_tac. Qed.

Lemma closing__cleanup : only closing (_cleanup w).
Proof. unfold _cleanup. only_tac. Qed.

#[local] Hint Resolve closing__cleanup : only_db.

Lemma closing_run_finally status : only closing (run_finally w status).
Proof. unfold run_finally. only_tac. Qed.

End Emissions.

#[export] Hint Resolve only_micro_batch only_for_micro_batches only_epoch_body
  only_for_epochs only__train_phase only_for_eval_batches guarded_for_phases
  guarded__evaluate guarded__initialize_run guarded_oversample closing__cleanup
  : only_db.

Section Counting.

Lemma count_app f (s1 s2 : list action) :
  count f (s1 ++ s2) = (count f s1 + count f s2)%nat.
Proof. unfold count. rewrite filter_app, length_app. reflexivity. Qed.

Lemma count_none (f g : action -> bool) (seg : list action) :
  (forall a, g a = true -> f a = false) ->
  Forall (fun a => g a = true) seg ->
  count f seg = 0%nat.
Proof.
  intros Hgf Hseg. unfold count. induction Hseg as [|a seg Ha _ IH]; [reflexivity|].
  rewrite filter_cons. destruct (decide (f a = true)) as [Hf|_]; [|exact IH].
  rewrite (Hgf a Ha) in Hf. discriminate.
Qed.

Lemma guarded_not_monitor_stop a : guarded a = true -> is_monitor_stop a = false.
Proof. revert a. action_cases. Qed.

Lemma guarded_not_del_references a : guarded a = true -> is_del_references a = false.
Proof. revert a. action_cases. Qed.

Lemma guarded_not_save_resource_metrics a :
  guarded a = true -> is_save_resource_metrics a = false.
Proof. revert a. action_cases. Qed.

End Counting.

Section Teardown.

Variable w : world.

Local Open Scope ctl_scope.

Lemma absorbs_guarded_status :
  absorbs guarded
    (fun (r : result string) seg =>
       Forall (fun a => guarded a = true) seg
       /\ forall s, r = Ok s -> s = "COMPLETED" \/ s = "ABORTED").
Proof.
  split.
  - intros r s1 s2 H1 (H2 & Hs). split; [apply Forall_app; auto|exact Hs].
  - intros e s1 H1. split; [exact H1|]. intros s Hs. discriminate.
Qed.

(** The guarded block emits no teardown call and leaves [final_status] as
    COMPLETED or ABORTED when it does not raise. *)
Lemma run_try_status :
  extends (run_try w)
    (fun r seg =>
       Forall (fun a => guarded a = true) seg
       /\ forall s, r = Ok s -> s = "COMPLETED" \/ s = "ABORTED").
Proof.
  unfold run_try.
  repeat (apply (extends_prefix guarded);
          [exact absorbs_guarded_status | solve [only_tac] | intros ?]).
  match goal with |- extends (if ?b then _ else _) _ => destruct b end.
  - repeat (apply (extends_prefix guarded);
            [exact absorbs_guarded_status | solve [only_tac] | intros ?]).
    apply extends_ret. split; [constructor|]. intros s [= <-]. auto.
  - apply extends_ret. split; [constructor|]. intros s [= <-]. auto.
Qed.

Lemma run_except_result e c : (run_except w e c).1 = Ok "FAILED".
Proof. reflexivity. Qed.

Lemma run_try_except_spec c :
  exists seg status c1,
    run_try_except w c = (Ok status, c1)
    /\ trace c1 = trace c ++ seg
    /\ Forall (fun a => guarded a = true) seg
    /\ (status = "COMPLETED" \/ status = "ABORTED" \/ status = "FAILED").
Proof.
  unfold run_try_except.
  destruct (run_try_status c) as (s1 & Ht1 & Hg1 & Hs).
  destruct (run_try w c) as [[status|e] c1]; cbn [fst snd] in *.
  - exists s1, status, c1. repeat split; auto.
    destruct (Hs status eq_refl); auto.
  - destruct (guarded_run_except w e c1) as (s2 & Ht2 & Hg2).
    pose proof (run_except_result e c1) as Hr.
    destruct (run_except w e c1) as [r c2]; cbn [fst snd] in *. subst r.
    exists (s1 ++ s2), "FAILED", c2. rewrite Ht2, Ht1, app_assoc.
    repeat split; auto. apply Forall_app. auto.
Qed.

(** The [finally] clause returns normally; it stops the monitor once,
    releases the references once, saves the resource metrics and the run
    status when there is a run id, and ends with the final callback. *)
Lemma run_finally_spec status c :
  exists seg answer c',
    run_finally w status c = (Ok tt, c')
    /\ trace c' = trace c ++ seg
    /\ last seg = Some (Callback (EvDone status) answer)
    /\ Forall (fun a => closing a = true) seg
    /\ count is_monitor_stop seg = 1%nat
    /\ count is_del_references seg = 1%nat
    /\ count is_save_resource_metrics seg = (if truthy (run_id c) then 1 else 0)%nat
    /\ (truthy (run_id c) = true ->
        UpdateRunStatus status (String.eqb status "COMPLETED") ∈ seg)
    /\ run_id c' = run_id c
    /\ model c' = None /\ train_dataset c' = None /\ test_dataset c' = None
    /\ visualizer c' = false.
Proof.
  unfold run_finally, _cleanup, _log, bind, emit, modify, gets, call_back, ret.
  destruct (truthy (run_id c)) eqn:Et, (visualizer c) eqn:Ev,
    (cuda_is_available w) eqn:Ec;
    repeat (first [ progress cbn [run_id visualizer set_trace set_model
                                  set_train_dataset set_test_dataset set_visualizer
                                  trace fst snd model train_dataset test_dataset]
                  | rewrite Et | rewrite Ev | rewrite Ec ]);
    (eexists _, _, _; split; [reflexivity|]);
    cbn [run_id visualizer set_trace set_model set_train_dataset set_test_dataset
         set_visualizer trace fst snd model train_dataset test_dataset];
    (split; [repeat rewrite <- (app_assoc (trace c)); cbn [app]; reflexivity|]);
    (split; [reflexivity|]);
    (split; [repeat constructor|]);
    (split; [reflexivity|]); (split; [reflexivity|]); (split; [reflexivity|]);
    (split; [|repeat split; reflexivity]);
    intros Htruthy; try discriminate Htruthy;
    repeat (first [apply list_elem_of_here | apply list_elem_of_further]).
Qed.

End Teardown.

Section RunContract.

Variable w : world.

Local Open Scope ctl_scope.

(** C9 (as amended). [run] hands [None] back to its caller; the terminal
    status, one of COMPLETED, ABORTED and FAILED, is delivered through the
    last callback event (and through [update_run_status] when there is a run
    id). Whether the guarded block completes, is cancelled or raises, [run]
    stops the resource monitor exactly once, saves the resource metrics
    exactly once when there is a run id (and not at all otherwise), and
    releases the model, dataset and visualizer references exactly once. *)
Theorem run_tears_down_on_every_path (c : TrainingController) :
  exists c' seg status answer,
    run w c = (Ok PyNone, c')
    /\ trace c' = trace c ++ MonitorStart :: seg
    /\ last seg = Some (Callback (EvDone status) answer)
    /\ (status = "COMPLETED" \/ status = "ABORTED" \/ status = "FAILED")
    /\ count is_monitor_stop seg = 1%nat
    /\ count is_del_references seg = 1%nat
    /\ count is_save_resource_metrics seg
       = (if truthy (run_id c') then 1 else 0)%nat
    /\ (truthy (run_id c') = true ->
        UpdateRunStatus status (String.eqb status "COMPLETED") ∈ seg)
    /\ model c' = None /\ train_dataset c' = None /\ test_dataset c' = None
    /\ visualizer c' = false.
Proof.
  unfold run, bind. cbn [emit modify].
  set (c0 := set_trace (trace c ++ [MonitorStart]) c).
  destruct (run_try_except_spec w c0) as (s1 & status & c1 & E1 & Ht1 & Hg1 & Hs).
  rewrite E1.
  destruct (run_finally_spec w status c1)
    as (s2 & answer & c2 & E2 & Ht2 & Hlast & _ & Hm & Hd & Hsr & Hup & Hid & Hrel).
  rewrite E2. cbn [ret].
  exists c2, (s1 ++ s2), status, answer.
  split; [reflexivity|]. split.
  { rewrite Ht2, Ht1. unfold c0. cbn [trace set_trace].
    rewrite <- !app_assoc. reflexivity. }
  split; [rewrite last_app, Hlast; reflexivity|]. split; [exact Hs|].
  rewrite !count_app, Hm, Hd, Hsr, Hid.
  rewrite (count_none _ _ s1 guarded_not_monitor_stop Hg1).
  rewrite (count_none _ _ s1 guarded_not_del_references Hg1).
  rewrite (count_none _ _ s1 guarded_not_save_resource_metrics Hg1).
  split; [reflexivity|]. split; [reflexivity|]. split; [reflexivity|].
  split; [|exact Hrel].
  intros Htruthy. apply elem_of_app. right. apply Hup. exact Htruthy.
Qed.

End RunContract.

(** C9 (as stated) fails on its first clause: a run that completes hands
    [None], not a status, back to its caller. *)
Lemma run_returns_none :
  let w := example_world (example_dataset 3) (fun _ => 1%nat) never_stop in
  let c := __init__ (example_hp_int 2 2 1 0 0 0) example_hp_real in
  (run w c).1 = Ok PyNone
  /\ ~ (exists status, (run w c).1 = Ok (PyStr status)
                       /\ (status = "COMPLETED" \/ status = "ABORTED"
                           \/ status = "FAILED")).
Proof.
  cbv zeta. split; [vm_compute; reflexivity|].
  intros (status & H & _). vm_compute in H. discriminate H.
Qed.

Section Cancellation.

Variable w : world.

Local Open Scope ctl_scope.

Lemma halted_prefix (s1 s2 : list action) :
  Forall (fun a => calm a = true) s1 -> halted s2 -> halted (s1 ++ s2).
Proof.
  intros H1 (prefix & lbl & progress & loss & answer & -> & Hp).
  exists (s1 ++ prefix), lbl, progress, loss, answer.
  rewrite app_assoc. split; [reflexivity|]. apply Forall_app. auto.
Qed.

Lemma absorbs_stops {A} (h : A) :
  absorbs calm
    (fun (r : result A) seg =>
       (r = Ok h /\ halted seg)
       \/ (r <> Ok h /\ Forall (fun a => calm a = true) seg)).
Proof.
  split.
  - intros r s1 s2 H1 [(Hr & Hh)|(Hr & Hc)].
    + left. split; [exact Hr|]. apply halted_prefix; assumption.
    + right. split; [exact Hr|]. apply Forall_app. auto.
  - intros e s1 H1. right. split; [discriminate|exact H1].
Qed.

Lemma stops_ret {A} (h a : A) : a <> h -> stops h (ret a).
Proof.
  intros Hne. apply extends_ret. right. split; [congruence|constructor].
Qed.

Lemma stops_raise {A} (h : A) (e : exn) : stops h (raise e).
Proof.
  intros c. exists []. cbn. rewrite app_nil_r. split; [reflexivity|].
  right. split; [discriminate|constructor].
Qed.

(** After a computation that may halt: the continuation runs only when it
    did not, and a halt is passed on as [h']. *)
Lemma stops_then {A B} (hf : A) (h' : B) (m : M A) (k : A -> M B)
    (Q : result B -> list action -> Prop) :
  stops hf m ->
  absorbs calm Q ->
  (forall a, a = hf \/ a <> hf) ->
  (forall a, a <> hf -> extends (k a) Q) ->
  (forall c, k hf c = (Ok h', c)) ->
  (forall s, halted s -> Q (Ok h') s) ->
  extends (bind m k) Q.
Proof.
  intros Hm (Hab1 & Hab2) Hdec Hk Hkh HQ.
  apply (extends_bind m k _
           (fun a r s => (a = hf /\ r = Ok h' /\ s = []) \/ (a <> hf /\ Q r s))
           Q Hm).
  - intros a. destruct (Hdec a) as [->|Hne].
    + intros c. exists []. rewrite Hkh. cbn. rewrite app_nil_r. auto.
    + eapply extends_weaken; [apply Hk; exact Hne|]. intros r s Hs. auto.
  - intros a s1 r s2 [(Ha & Hh)|(Ha & Hc)] [(-> & -> & ->)|(Hne & Hq)].
    + rewrite app_nil_r. apply HQ. exact Hh.
    + inversion Ha. contradiction.
    + contradiction.
    + apply Hab1; assumption.
  - intros e s1 [(Ha & _)|(_ & Hc)]; [discriminate|]. apply Hab2. exact Hc.
Qed.

Lemma stops_loop {A B} (hf : A) (h' : B) (m : M A) (k : A -> M B) :
  stops hf m ->
  (forall a, a = hf \/ a <> hf) ->
  (forall a, a <> hf -> stops h' (k a)) ->
  (forall c, k hf c = (Ok h', c)) ->
  stops h' (bind m k).
Proof.
  intros Hm Hdec Hk Hkh. unfold stops.
  apply (stops_then hf h' m k _ Hm (absorbs_stops h') Hdec Hk Hkh).
  intros s Hs. left. auto.
Qed.

Lemma flow_eq_dec_halt (a : flow) : a = Return false \/ a <> Return false.
Proof. destruct a as [|[]]; auto; right; discriminate. Qed.

Lemma bool_eq_dec_false (a : bool) : a = false \/ a <> false.
Proof. destruct a; auto. Qed.

(** The end of a micro-batch: the status callback and the check of its
    answer. *)
Lemma stops_status_check lbl progress loss :
  stops (Return false)
    (stop <~ call_back w (EvTrain lbl progress loss) ;;
     if stop then _log w MsgStopRequest ;;; ret (Return false) else ret Next).
Proof.
  intros c. unfold bind, call_back, _log, ret. cbn [fst snd trace set_trace].
  destruct (callback w (trace c) (EvTrain lbl progress loss)) eqn:E;
    unfold bind, call_back, _log, ret; cbn [fst snd trace set_trace].
  - eexists. rewrite <- app_assoc. cbn [app]. split; [reflexivity|].
    left. split; [reflexivity|].
    exists [], lbl, progress, loss. eexists. split; [reflexivity|constructor].
  - eexists. split; [reflexivity|]. right. split; [discriminate|].
    repeat constructor.
Qed.

Ltac stops_step :=
  lazymatch goal with
  | |- stops _ _ => unfold stops
  | |- extends (bind (call_back _ (EvTrain _ _ _)) _) _ => apply stops_status_check
  | |- extends (bind _ _) _ =>
      apply (extends_prefix calm);
      [exact (absorbs_stops _) | solve [only_tac] | intros ?]
  | |- extends (if ?b then _ else _) _ => destruct b
  | |- extends (match ?x with _ => _ end) _ => destruct x
  | |- extends (ret _) _ => apply stops_ret; discriminate
  | |- extends (raise _) _ => apply stops_raise
  end.

Lemma stops_micro_batch lbl mbs g n i_th start_idx :
  stops (Return false) (micro_batch w lbl mbs g n i_th start_idx).
Proof. unfold micro_batch. cbv zeta. repeat stops_step. Qed.

Lemma stops_for_micro_batches lbl mbs g n starts :
  forall i_th, stops (Return false) (for_micro_batches w lbl mbs g n i_th starts).
Proof.
  induction starts as [|start_idx rest IH]; intros i_th; cbn [for_micro_batches].
  - apply stops_ret. discriminate.
  - apply (stops_loop (Return false)).
    + apply stops_micro_batch.
    + exact flow_eq_dec_halt.
    + intros [|[]] Hne; [apply IH|apply stops_ret; discriminate|contradiction].
    + reflexivity.
Qed.

Lemma stops_epoch_body name n_epochs g indexes epoch :
  stops (Return false) (epoch_body w name n_epochs g indexes epoch).
Proof.
  unfold epoch_body. cbv zeta.
  repeat stops_step. apply stops_for_micro_batches.
Qed.

Lemma stops_for_epochs name n_epochs g indexes epochs :
  stops (Return false) (for_epochs w name n_epochs g indexes epochs).
Proof.
  induction epochs as [|epoch rest IH]; cbn [for_epochs].
  - apply stops_ret. discriminate.
  - apply (stops_loop (Return false)).
    + apply stops_epoch_body.
    + exact flow_eq_dec_halt.
    + intros [|[]] Hne; [apply IH|apply stops_ret; discriminate|contradiction].
    + reflexivity.
Qed.

Lemma stops__train_phase name n_epochs lr indexes :
  stops false (_train_phase w name n_epochs lr indexes).
Proof.
  unfold _train_phase. repeat stops_step.
  apply (stops_loop (Return false)).
  - apply stops_for_epochs.
  - exact flow_eq_dec_halt.
  - intros [|[]] Hne; [repeat stops_step|apply stops_ret; discriminate|contradiction].
  - reflexivity.
Qed.

Lemma stops_for_phases phases indexes :
  stops false (for_phases w phases indexes).
Proof.
  induction phases as [|[[[name setup_func] epochs] lr] rest IH]; cbn [for_phases].
  - apply stops_ret. discriminate.
  - repeat stops_step. apply (stops_loop false).
    + apply stops__train_phase.
    + exact bool_eq_dec_false.
    + intros [] Hne; [exact IH|contradiction].
    + reflexivity.
Qed.

End Cancellation.

Lemma calm_not_persist a : calm a = true -> is_persist a = false.
Proof.
  unfold calm. intros H. apply andb_true_iff in H. destruct H as (_ & H).
  destruct (is_persist a); [discriminate|reflexivity].
Qed.

Lemma quiet_no_stop (l pre post : list action) (a : action) :
  Forall (fun a => quiet a = true) l ->
  l = pre ++ a :: post -> is_stop_answer a = true -> False.
Proof.
  intros Hl -> Ha. apply Forall_app in Hl. destruct Hl as (_ & Hl).
  apply Forall_cons in Hl. destruct Hl as (Hq & _).
  unfold quiet in Hq. rewrite Ha in Hq. discriminate.
Qed.

(** A trace with a single stop answer splits around it in one way only. *)
Lemma split_at_stop (s1 s2 pre post : list action) (a a' : action) :
  Forall (fun a => quiet a = true) s1 ->
  Forall (fun a => quiet a = true) s2 ->
  is_stop_answer a = true ->
  is_stop_answer a' = true ->
  pre ++ a :: post = s1 ++ a' :: s2 ->
  pre = s1 /\ post = s2.
Proof.
  intros H1 H2 Ha Ha'. revert pre.
  induction H1 as [|x s1 Hx _ IH]; intros [|y pre] Heq; cbn in Heq.
  - inversion Heq. auto.
  - inversion Heq; subst. exfalso.
    eapply (quiet_no_stop (pre ++ a :: post)); eauto.
  - inversion Heq; subst. unfold quiet in Hx. rewrite Ha in Hx. discriminate.
  - inversion Heq; subst. destruct (IH pre) as (-> & ->); auto.
Qed.

Section CancellationOfRun.

Variable w : world.

Local Open Scope ctl_scope.

Lemma calm__initialize_run : only calm (_initialize_run w).
Proof. unfold _initialize_run. only_tac. Qed.

Lemma calm_oversample hp train : only calm (oversample w hp train).
Proof. unfold oversample. cbv zeta. only_tac. Qed.

Lemma quiet__evaluate : only quiet (_evaluate w).
Proof.
  eapply only_weaken; [exact evaluation_action_quiet|apply only__evaluate].
Qed.

Lemma quiet_run_except e : only quiet (run_except w e).
Proof. unfold run_except. only_tac. Qed.

#[local] Hint Resolve calm__initialize_run calm_oversample quiet__evaluate : only_db.

Lemma absorbs_calm_aborted :
  absorbs calm
    (fun (r : result string) seg =>
       (r = Ok "ABORTED" /\ halted seg)
       \/ (r <> Ok "ABORTED" /\ Forall (fun a => quiet a = true) seg)).
Proof.
  split.
  - intros r s1 s2 H1 [(Hr & Hh)|(Hr & Hq)].
    + left. split; [exact Hr|]. apply halted_prefix; assumption.
    + right. split; [exact Hr|]. apply Forall_app. split; [|exact Hq].
      eapply Forall_impl; [exact H1|]. exact calm_quiet.
  - intros e s1 H1. right. split; [discriminate|].
    eapply Forall_impl; [exact H1|]. exact calm_quiet.
Qed.

Lemma absorbs_quiet_not_aborted :
  absorbs quiet
    (fun (r : result string) seg =>
       r <> Ok "ABORTED" /\ Forall (fun a => quiet a = true) seg).
Proof.
  split.
  - intros r s1 s2 H1 (Hr & Hq). split; [exact Hr|]. apply Forall_app. auto.
  - intros e s1 H1. split; [discriminate|exact H1].
Qed.

(** The guarded block leaves ABORTED exactly when a phase was halted by a
    stop answer; otherwise no stop answer occurs in it. *)
Lemma run_try_halts :
  extends (run_try w)
    (fun r seg =>
       (r = Ok "ABORTED" /\ halted seg)
       \/ (r <> Ok "ABORTED" /\ Forall (fun a => quiet a = true) seg)).
Proof.
  unfold run_try.
  repeat (apply (extends_prefix calm);
          [exact absorbs_calm_aborted | solve [only_tac] | intros ?]).
  apply (stops_then false "ABORTED").
  - apply stops_for_phases.
  - exact absorbs_calm_aborted.
  - exact bool_eq_dec_false.
  - intros [] Hne; [|contradiction].
    eapply extends_weaken.
    + repeat (apply (extends_prefix quiet);
              [exact absorbs_quiet_not_aborted | solve [only_tac] | intros ?]).
      apply extends_ret. split; [discriminate|constructor].
    + intros r s Hs. right. exact Hs.
  - reflexivity.
  - intros s Hs. left. auto.
Qed.

Lemma run_try_except_halts c :
  exists seg status c1,
    run_try_except w c = (Ok status, c1)
    /\ trace c1 = trace c ++ seg
    /\ ((status = "ABORTED" /\ halted seg)
        \/ Forall (fun a => quiet a = true) seg).
Proof.
  unfold run_try_except.
  destruct (run_try_halts c) as (s1 & Ht1 & HQ).
  destruct (run_try w c) as [[status|e] c1]; cbn [fst snd] in *.
  - exists s1, status, c1. split; [reflexivity|]. split; [exact Ht1|].
    destruct HQ as [(Hr & Hh)|(_ & Hq)]; [left|right; exact Hq].
    inversion Hr. auto.
  - destruct (quiet_run_except e c1) as (s2 & Ht2 & Hq2).
    pose proof (run_except_result w e c1) as Hr.
    destruct (run_except w e c1) as [r c2]; cbn [fst snd] in *. subst r.
    exists (s1 ++ s2), "FAILED", c2. rewrite Ht2, Ht1, app_assoc.
    split; [reflexivity|]. split; [reflexivity|]. right.
    destruct HQ as [(Hr & _)|(_ & Hq)]; [discriminate|]. apply Forall_app. auto.
Qed.

(** C3. Whenever the callback answers STOP to the status of a micro-batch,
    nothing of a training phase runs afterwards (no batch is fetched, no
    forward or backward pass, no optimizer step, no later phase is set up),
    the run ends with status ABORTED, and no performance metrics, plots or
    model artifacts are written at any point of the run. *)
Theorem stop_aborts_the_run (c : TrainingController)
    (pre post : list action) (lbl : epoch_label) (progress loss : Q) :
  trace (run w c).2
  = trace c ++ pre ++ Callback (EvTrain lbl progress loss) true :: post ->
  (run w c).1 = Ok PyNone
  /\ Forall (fun a => is_training_work a = false) post
  /\ Forall (fun a => is_persist a = false) (pre ++ post)
  /\ (exists answer, last post = Some (Callback (EvDone "ABORTED") answer))
  /\ (truthy (run_id (run w c).2) = true ->
      UpdateRunStatus "ABORTED" false ∈ post).
Proof.
  unfold run, bind. cbn [emit modify].
  set (c0 := set_trace (trace c ++ [MonitorStart]) c).
  destruct (run_try_except_halts c0) as (s1 & status & c1 & E1 & Ht1 & HQ).
  rewrite E1.
  destruct (run_finally_spec w status c1)
    as (s2 & answer & c2 & E2 & Ht2 & Hlast & Hcl & _ & _ & _ & Hup & Hid & _).
  rewrite E2. cbn [ret fst snd]. intros Htrace.
  rewrite Ht2, Ht1 in Htrace. unfold c0 in Htrace. cbn [trace set_trace] in Htrace.
  rewrite <- !app_assoc in Htrace. apply app_inv_head in Htrace. cbn [app] in Htrace.
  assert (Hq2 : Forall (fun a => quiet a = true) s2).
  { eapply Forall_impl; [exact Hcl|]. exact closing_quiet. }
  destruct HQ as [(-> & prefix & lbl' & progress' & loss' & answer' & -> & Hp)|Hq1].
  - rewrite <- app_assoc in Htrace. cbn [app] in Htrace.
    destruct (split_at_stop (MonitorStart :: prefix)
                (Callback (EvLog MsgStopRequest) answer' :: s2) pre post
                (Callback (EvTrain lbl progress loss) true)
                (Callback (EvTrain lbl' progress' loss') true))
      as (-> & ->).
    + constructor; [reflexivity|]. eapply Forall_impl; [exact Hp|]. exact calm_quiet.
    + constructor; [reflexivity|exact Hq2].
    + reflexivity.
    + reflexivity.
    + symmetry. exact Htrace.
    + split; [reflexivity|]. split.
      { constructor; [reflexivity|].
        eapply Forall_impl; [exact Hcl|]. exact closing_not_training. }
      split.
      { apply Forall_app. split.
        - constructor; [reflexivity|].
          eapply Forall_impl; [exact Hp|]. exact calm_not_persist.
        - constructor; [reflexivity|].
          eapply Forall_impl; [exact Hcl|]. exact closing_not_persist. }
      split.
      { exists answer. rewrite last_cons, Hlast. reflexivity. }
      intros Htruthy. rewrite Hid in Htruthy. right. apply Hup. exact Htruthy.
  - exfalso.
    eapply (quiet_no_stop (MonitorStart :: s1 ++ s2) pre post); [|exact Htrace|reflexivity].
    constructor; [reflexivity|]. apply Forall_app. auto.
Qed.

End CancellationOfRun.

Lemma stop_aborts_the_run_witness :
  let w := example_world (example_dataset 4) (fun _ => 1%nat) stop_on_training_status in
  let c := __init__ (example_hp_int 4 2 1 1 1 1) example_hp_real in
  let tr := trace (run w c).2 in
  (run w c).1 = Ok PyNone
  /\ Forall (fun a => is_training_work a = false) (drop 18 tr)
  /\ Forall (fun a => is_persist a = false) (take 17 tr ++ drop 18 tr)
  /\ (exists answer, last (drop 18 tr) = Some (Callback (EvDone "ABORTED") answer))
  /\ (truthy (run_id (run w c).2) = true ->
      UpdateRunStatus "ABORTED" false ∈ drop 18 tr).
Proof.
  cbv zeta.
  apply (stop_aborts_the_run
           (example_world (example_dataset 4) (fun _ => 1%nat) stop_on_training_status)
           (__init__ (example_hp_int 4 2 1 1 1 1) example_hp_real)
           _ _
           {| epoch_number := 1; epoch_total := 1; epoch_phase := "Projector" |}
           (1 # 8) (2 # 4)).
  vm_compute. reflexivity.
Defined.

Section Accumulation.

Variable w : world.

Hypothesis no_fault : forall s a, fault w s a = None.
Hypothesis never_stops : forall tr e, callback w tr e = false.

Local Open Scope ctl_scope.
Local Open Scope Z_scope.

Lemma micro_batch_exact lbl mbs g n i_th start_idx c :
  g <> 0 -> 0 < mbs -> 0 <= start_idx < n ->
  exists c',
    micro_batch w lbl mbs g n i_th start_idx c = (Ok Next, c')
    /\ trace c' = trace c ++ micro_batch_trace w lbl mbs g n (total_training_steps c)
                               (global_step_count c + 1) i_th start_idx
    /\ global_step_count c' = global_step_count c + 1
    /\ total_training_steps c' = total_training_steps c.
Proof.
  intros Hg Hmbs Hstart.
  unfold micro_batch, micro_batch_trace, bind, modify, perform, emit, gets, lift,
    call_back, ret, pymod.
  cbn [global_step_count set_global_step_count set_trace trace
       total_training_steps batch_losses set_batch_losses fst snd].
  destruct (Z.leb_spec (Z.min (start_idx + mbs) n) start_idx) as [Hle|_]; [lia|].
  rewrite !no_fault.
  cbn [global_step_count set_global_step_count set_trace trace modify
       total_training_steps batch_losses set_batch_losses].
  rewrite !no_fault.
  cbn [global_step_count set_global_step_count set_trace trace modify
       total_training_steps batch_losses set_batch_losses].
  destruct (logits_rows w (global_step_count c + 1) =? 0)%nat.
  { eexists. split; [reflexivity|].
    cbn [global_step_count set_global_step_count set_trace trace total_training_steps].
    rewrite <- !app_assoc. auto. }
  rewrite !no_fault.
  cbn [global_step_count set_global_step_count set_trace trace modify
       total_training_steps batch_losses set_batch_losses].
  destruct (Z.eqb_spec g 0) as [|_]; [contradiction|].
  destruct ((i_th + 1) mod g =? 0); rewrite ?no_fault;
    cbn [global_step_count set_global_step_count set_trace trace modify
         total_training_steps batch_losses set_batch_losses];
    rewrite !never_stops;
    (eexists; split; [reflexivity|]);
    cbn [global_step_count set_global_step_count set_trace trace
         total_training_steps batch_losses set_batch_losses];
    rewrite <- !app_assoc; auto.
Qed.

Lemma for_micro_batches_exact lbl mbs g n starts :
  g <> 0 -> 0 < mbs -> Forall (fun s => 0 <= s < n) starts ->
  forall i_th c,
  exists c',
    for_micro_batches w lbl mbs g n i_th starts c = (Ok Next, c')
    /\ trace c' = trace c ++ concat (micro_batches_trace w lbl mbs g n
                                       (total_training_steps c)
                                       (global_step_count c) i_th starts)
    /\ global_step_count c' = global_step_count c + Z.of_nat (length starts)
    /\ total_training_steps c' = total_training_steps c.
Proof.
  intros Hg Hmbs Hstarts. induction Hstarts as [|start_idx rest Hs _ IH]; intros i_th c.
  - exists c. cbn. rewrite app_nil_r. repeat split; auto. lia.
  - cbn [for_micro_batches micro_batches_trace concat]. unfold bind.
    destruct (micro_batch_exact lbl mbs g n i_th start_idx c Hg Hmbs Hs)
      as (c1 & -> & Ht1 & Hs1 & Htot1).
    destruct (IH (i_th + 1) c1) as (c2 & -> & Ht2 & Hs2 & Htot2).
    exists c2. split; [reflexivity|]. rewrite Ht2, Ht1, Hs1, Htot1, <- app_assoc.
    split; [reflexivity|]. split; [rewrite Hs2, Hs1; cbn [length]; lia|].
    congruence.
Qed.

Lemma range_from_bounds (stop step : Z) :
  0 < step ->
  forall fuel start, 0 <= start ->
    Forall (fun s => 0 <= s < stop) (range_from fuel start stop step).
Proof.
  intros Hstep. induction fuel as [|fuel IH]; intros start Hstart; cbn [range_from].
  - constructor.
  - destruct (Z.ltb_spec start stop); constructor; [lia|]. apply IH. lia.
Qed.

Lemma micro_batches_trace_lookup lbl mbs g n total starts :
  forall step i_th i seg,
    micro_batches_trace w lbl mbs g n total step i_th starts !! i = Some seg ->
    exists start_idx,
      starts !! i = Some start_idx
      /\ seg = micro_batch_trace w lbl mbs g n total
                 (step + Z.of_nat i + 1) (i_th + Z.of_nat i) start_idx.
Proof.
  induction starts as [|start_idx rest IH]; intros step i_th i seg;
    cbn [micro_batches_trace]; [discriminate|].
  destruct i as [|i]; cbn [lookup list_lookup].
  - intros [= <-]. exists start_idx. split; [reflexivity|].
    f_equal; lia.
  - intros Hseg. destruct (IH _ _ _ _ Hseg) as (s & Hs & ->).
    exists s. split; [exact Hs|]. f_equal; lia.
Qed.

Lemma micro_batches_trace_length lbl mbs g n total starts :
  forall step i_th,
    length (micro_batches_trace w lbl mbs g n total step i_th starts) = length starts.
Proof.
  induction starts as [|start_idx rest IH]; intros step i_th; cbn; [reflexivity|].
  rewrite IH. reflexivity.
Qed.

Lemma count_micro_batch_trace lbl mbs g n total step i_th start_idx :
  count is_train_helper (micro_batch_trace w lbl mbs g n total step i_th start_idx)
  = 1%nat
  /\ count is_optimizer_step
       (micro_batch_trace w lbl mbs g n total step i_th start_idx)
     = (if negb (logits_rows w step =? 0)%nat && ((i_th + 1) mod g =? 0)%Z
        then 1 else 0)%nat.
Proof.
  unfold micro_batch_trace.
  destruct (logits_rows w step =? 0)%nat, ((i_th + 1) mod g =? 0);
    split; reflexivity.
Qed.

Lemma scaled_loss_undone (x : Q) (g : Z) :
  g <> 0 -> (x / inject_Z g * inject_Z g == x)%Q.
Proof.
  intros Hg. rewrite Qmult_comm. apply Qmult_div_r.
  unfold Qeq. cbn. lia.
Qed.

Lemma reported_loss lbl mbs g n total step i_th start_idx lbl' p l b :
  g <> 0 ->
  Callback (EvTrain lbl' p l) b
    ∈ micro_batch_trace w lbl mbs g n total step i_th start_idx ->
  l = (criterion w step / inject_Z g * inject_Z g)%Q /\ (l == criterion w step)%Q.
Proof.
  intros Hg. unfold micro_batch_trace.
  destruct (logits_rows w step =? 0)%nat, ((i_th + 1) mod g =? 0); cbn [app];
    rewrite ?elem_of_cons, elem_of_nil; intros Hin;
    repeat match type of Hin with
           | _ \/ _ => destruct Hin as [Hin|Hin]
           end;
    try discriminate Hin; try contradiction;
    inversion Hin; subst; (split; [reflexivity|apply scaled_loss_undone; exact Hg]).
Qed.

Lemma div_succ_indicator (a g : Z) :
  0 <= a -> 0 < g ->
  (a + 1) / g = a / g + (if (a + 1) mod g =? 0 then 1 else 0).
Proof.
  intros Ha Hg.
  pose proof (Z.mod_pos_bound a g Hg) as Hr.
  pose proof (Z.div_mod a g ltac:(lia)) as Ha'.
  assert (Hmod : (a + 1) mod g = (a mod g + 1) mod g).
  { rewrite Z.add_mod_idemp_l by lia. reflexivity. }
  destruct (Z.lt_ge_cases (a mod g + 1) g) as [Hlt|Hge].
  - rewrite (Z.mod_small (a mod g + 1) g) in Hmod by lia. rewrite Hmod.
    destruct (Z.eqb_spec (a mod g + 1) 0) as [|_]; [lia|].
    symmetry. apply (Z.div_unique_pos (a + 1) g _ (a mod g + 1)); lia.
  - assert (Hg' : a mod g + 1 = g) by lia.
    rewrite Hg', Z.mod_same in Hmod by lia. rewrite Hmod. cbn.
    symmetry. apply (Z.div_unique_pos (a + 1) g _ 0); lia.
Qed.

Lemma count_optimizer_steps lbl mbs g n total starts :
  0 < g ->
  (forall s, logits_rows w s <> 0%nat) ->
  forall step i_th,
    0 <= i_th ->
    Z.of_nat (count is_optimizer_step
                (concat (micro_batches_trace w lbl mbs g n total step i_th starts)))
    = (i_th + Z.of_nat (length starts)) / g - i_th / g.
Proof.
  intros Hg Hrows. induction starts as [|start_idx rest IH]; intros step i_th Hi;
    cbn [micro_batches_trace concat length].
  - cbn. rewrite Z.add_0_r. lia.
  - rewrite count_app, Nat2Z.inj_add, (IH (step + 1) (i_th + 1)) by lia.
    destruct (count_micro_batch_trace lbl mbs g n total (step + 1) i_th start_idx)
      as (_ & ->).
    destruct (Nat.eqb_spec (logits_rows w (step + 1)) 0) as [E|_];
      [exfalso; exact (Hrows _ E)|].
    cbn [negb andb]. rewrite (div_succ_indicator i_th g Hi Hg).
    replace (i_th + Z.of_nat (S (length rest)))
      with (i_th + 1 + Z.of_nat (length rest)) by lia.
    destruct ((i_th + 1) mod g =? 0); cbn; lia.
Qed.

(** C5 (as amended). In an epoch in which no call raises and the callback
    does not stop, every micro-batch calls [train_helper] once; an optimizer
    step follows the micro-batch at position [i] (from 0) exactly when the
    micro-batch is not skipped as degenerate and [i + 1] is a multiple of
    [grad_accum_steps]; so when no micro-batch is degenerate the epoch makes
    [floor(n / grad_accum_steps)] optimizer steps for its [n] micro-batches
    and a trailing incomplete group triggers none. The loss reported for a
    micro-batch is the scaled loss times [grad_accum_steps], which is the
    unscaled cross-entropy. *)
Theorem accumulation_cadence (phase_name : string) (n_epochs g mbs : Z)
    (indexes : list Z) (epoch : Z) (c : TrainingController) :
  0 < g -> 0 < mbs ->
  hp_int c !! "micro_batch_size" = Some mbs ->
  let lbl := {| epoch_number := epoch + 1; epoch_total := n_epochs;
                epoch_phase := phase_name |} in
  let n := Z.of_nat (length indexes) in
  let segs := micro_batches_trace w lbl mbs g n (total_training_steps c)
                (global_step_count c) 0 (range_from (length indexes) 0 n mbs) in
  exists c',
    epoch_body w phase_name n_epochs g indexes epoch c = (Ok Next, c')
    /\ trace c' = trace c ++ [Callback (EvLog (MsgEpoch lbl)) false; ZeroGrad]
                           ++ concat segs
    /\ (forall i seg, segs !! i = Some seg ->
          let step := global_step_count c + Z.of_nat i + 1 in
          count is_train_helper seg = 1%nat
          /\ count is_optimizer_step seg
             = (if negb (logits_rows w step =? 0)%nat
                   && ((Z.of_nat i + 1) mod g =? 0)%Z
                then 1 else 0)%nat
          /\ (forall lbl' p l b,
                Callback (EvTrain lbl' p l) b ∈ seg ->
                l = (criterion w step / inject_Z g * inject_Z g)%Q
                /\ (l == criterion w step)%Q))
    /\ ((forall s, logits_rows w s <> 0%nat) ->
        Z.of_nat (count is_optimizer_step (concat segs))
        = Z.of_nat (length segs) / g).
Proof.
  intros Hg Hmbs Hkey lbl n segs.
  assert (Hgne : g <> 0) by lia.
  pose proof (range_from_bounds n mbs Hmbs (length indexes) 0 ltac:(lia)) as Hstarts.
  unfold epoch_body. fold lbl. unfold bind at 1. unfold _log, bind at 1.
  unfold call_back. rewrite never_stops. cbn [ret].
  unfold bind at 1. unfold perform. cbn [global_step_count set_trace].
  rewrite no_fault. cbn [emit modify].
  unfold bind at 1. cbn [gets hp_int set_trace].
  unfold bind at 1. unfold hp_item. rewrite Hkey. cbn [lift].
  unfold bind at 1. unfold py_range.
  destruct (Z.eqb_spec mbs 0) as [|_]; [lia|].
  destruct (Z.ltb_spec mbs 0) as [|_]; [lia|]. cbn [lift].
  fold n.
  match goal with
  | |- context [for_micro_batches w lbl mbs g n 0 _ ?c0] =>
      destruct (for_micro_batches_exact lbl mbs g n _ Hgne Hmbs Hstarts 0 c0)
        as (c' & -> & Ht & _ & _)
  end.
  cbn [trace set_trace total_training_steps global_step_count] in Ht.
  exists c'. split; [reflexivity|]. split.
  { rewrite Ht. fold segs. rewrite <- !app_assoc. reflexivity. }
  split.
  - intros i seg Hseg. cbv zeta.
    destruct (micro_batches_trace_lookup _ _ _ _ _ _ _ _ _ _ Hseg) as (s & _ & ->).
    destruct (count_micro_batch_trace lbl mbs g n (total_training_steps c)
                (global_step_count c + Z.of_nat i + 1) (0 + Z.of_nat i) s)
      as (Hth & Hos).
    split; [exact Hth|]. split.
    + rewrite Hos. rewrite Z.add_0_l. reflexivity.
    + intros lbl' p l b Hin. eapply reported_loss; [exact Hgne|exact Hin].
  - intros Hrows. unfold segs.
    rewrite (count_optimizer_steps lbl mbs g n _ _ Hg Hrows _ 0 ltac:(lia)).
    rewrite micro_batches_trace_length, Z.add_0_l.
    rewrite Z.div_0_l by lia. lia.
Qed.

End Accumulation.

Lemma accumulation_cadence_witness :
  let w := example_world (example_dataset 5) (fun _ => 1%nat) never_stop in
  let c := __init__ (example_hp_int 4 2 1 0 0 0) example_hp_real in
  let g := 2%Z in
  let lbl := {| epoch_number := 1; epoch_total := 1; epoch_phase := "Projector" |} in
  let segs := micro_batches_trace w lbl 2 g 5 0 0 0 [0; 2; 4]%Z in
  exists c',
    epoch_body w "Projector" 1 g [0; 1; 2; 3; 4]%Z 0 c = (Ok Next, c')
    /\ trace c' = trace c ++ [Callback (EvLog (MsgEpoch lbl)) false; ZeroGrad]
                           ++ concat segs
    /\ (forall i seg, segs !! i = Some seg ->
          let step := (0 + Z.of_nat i + 1)%Z in
          count is_train_helper seg = 1%nat
          /\ count is_optimizer_step seg
             = (if negb (logits_rows w step =? 0)%nat
                   && ((Z.of_nat i + 1) mod g =? 0)%Z
                then 1 else 0)%nat
          /\ (forall lbl' p l b,
                Callback (EvTrain lbl' p l) b ∈ seg ->
                l = (criterion w step / inject_Z g * inject_Z g)%Q
                /\ (l == criterion w step)%Q))
    /\ ((forall s, logits_rows w s <> 0%nat) ->
        Z.of_nat (count is_optimizer_step (concat segs))
        = (Z.of_nat (length segs) / g)%Z).
Proof.
  cbv zeta.
  apply (accumulation_cadence
           (example_world (example_dataset 5) (fun _ => 1%nat) never_stop)
           (fun _ _ => eq_refl) (fun _ _ => eq_refl)
           "Projector" 1 2 2 [0; 1; 2; 3; 4]%Z 0
           (__init__ (example_hp_int 4 2 1 0 0 0) example_hp_real)).
  - lia.
  - lia.
  - vm_compute. reflexivity.
Defined.

(** C5 (as stated) fails when a micro-batch is skipped as degenerate: with
    [grad_accum_steps = 2] and an epoch of two micro-batches whose second one
    returns no logits, the [continue] also skips the step check, and the
    epoch makes no optimizer step for its one full group. *)
Lemma degenerate_batch_skips_optimizer_step :
  let w := example_world (example_dataset 2)
             (fun s => if (s =? 2)%Z then 0%nat else 1%nat) never_stop in
  let c := __init__ (example_hp_int 2 1 1 0 0 0) example_hp_real in
  let tr := trace (run w c).2 in
  floordiv 2 1 = Ok 2%Z
  /\ count is_train_helper tr = 2%nat
  /\ count is_optimizer_step tr = 0%nat
  /\ ~ (Z.of_nat (count is_optimizer_step tr)
        = Z.of_nat (count is_train_helper tr) / 2)%Z.
Proof.
  vm_compute. repeat split; try reflexivity. intros H. discriminate H.
Qed.

(** * Part VI: further properties of [logsentinel_model.py] *)

Section Truncation.

(** X1. [forward], which runs the networks in evaluation mode, reads a
    batch only through the first [max_seq_len] lines of every sample: two
    batches that agree on them are given the same logits, the sentinel
    rows included. *)
Theorem lines_beyond_max_seq_len_are_ignored
    (self : LogSentinelModel) (batch1 batch2 : list (list string)) :
  map (slice_to (max_seq_len self)) batch1
  = map (slice_to (max_seq_len self)) batch2 ->
  forward self batch1 = forward self batch2.
Proof.
  intros Hsame.
  assert (Hlen : length batch1 = length batch2).
  { apply (f_equal length) in Hsame. rewrite !length_map in Hsame. exact Hsame. }
  assert (Hcls : get_cls_embeddings self batch1 = get_cls_embeddings self batch2).
  { unfold get_cls_embeddings. rewrite Hsame. reflexivity. }
  assert (Hlogits : _get_logits self batch1 = _get_logits self batch2).
  { unfold _get_logits. rewrite Hcls. reflexivity. }
  unfold forward. rewrite Hlogits, Hlen. reflexivity.
Qed.

End Truncation.

Lemma lines_beyond_max_seq_len_are_ignored_witness :
  forward short_model [["a"; "b"]; ["c"]]
  = forward short_model [["a"; "x"; "y"]; ["c"; "d"]].
Proof.
  apply (lines_beyond_max_seq_len_are_ignored short_model
           [["a"; "b"]; ["c"]] [["a"; "x"; "y"]; ["c"; "d"]]).
  reflexivity.
Defined.

Section MergeAndSplit.

Lemma range_chunks_concat {A B} (enc : A -> B) (l : list A) :
  forall fuel start,
    (length l - start <= fuel)%nat ->
    concat (map (fun i => map enc (take (Z.to_nat physical_batch_size)
                                        (drop (Z.to_nat i) l)))
                (range_from fuel (Z.of_nat start) (Z.of_nat (length l))
                            physical_batch_size))
    = map enc (drop start l).
Proof.
  induction fuel as [|fuel IH]; intros start Hfuel; cbn [range_from].
  - cbn. rewrite drop_ge by lia. reflexivity.
  - destruct (Z.ltb_spec (Z.of_nat start) (Z.of_nat (length l))) as [Hlt|Hge].
    + cbn [map concat]. rewrite Nat2Z.id.
      replace (Z.of_nat start + physical_batch_size)%Z
        with (Z.of_nat (start + 64)) by (unfold physical_batch_size; lia).
      rewrite IH by lia. change (Z.to_nat physical_batch_size) with 64%nat.
      rewrite <- map_app. f_equal.
      rewrite <- drop_drop. apply take_drop.
    + cbn. rewrite drop_ge by lia. reflexivity.
Qed.

Lemma tensor_split_merge {A B} (g : A -> B) (data : list (list A)) :
  forall cur (t : list B),
    data <> [] ->
    drop cur t = map g (concat data) ->
    tensor_split_from t cur (tail (merge_data_from cur data).2)
    = map (map g) data.
Proof.
  induction data as [|s rest IH]; intros cur t Hne Hdrop; [congruence|].
  cbn [merge_data_from snd tail]. cbn [concat] in Hdrop. rewrite map_app in Hdrop.
  destruct rest as [|s' rest'].
  - cbn. cbn in Hdrop. rewrite app_nil_r in Hdrop. rewrite Hdrop. reflexivity.
  - cbn [map]. specialize (IH (cur + length s)%nat t).
    cbn [merge_data_from snd tail] in IH |- *.
    cbn [tensor_split_from]. f_equal.
    + replace (cur + length s - cur)%nat with (length (map g s))
        by (rewrite length_map; lia).
      rewrite Hdrop. apply take_app_length.
    + apply IH; [discriminate|].
      rewrite <- drop_drop, Hdrop.
      replace (length s) with (length (map g s)) by apply length_map.
      apply drop_app_length.
Qed.

(** X2. When the sequence encoder encodes every line on its own, the
    flattening of the batch, the encoding in sub-batches of 64 lines and the
    split at the start offsets cancel out: [get_cls_embeddings] returns, for
    every sample, the projected encodings of that sample's own truncated
    lines, and nothing when no sample has a line left. *)
Theorem get_cls_embeddings_per_sample
    (self : LogSentinelModel) (enc : string -> list Q)
    (sequences_ : list (list string)) :
  (forall batch, bert_model self batch = map enc batch) ->
  let sequences := map (slice_to (max_seq_len self)) sequences_ in
  get_cls_embeddings self sequences_
  = match concat sequences with
    | [] => None
    | _ :: _ => Some (map (map (fun line => projector self (enc line))) sequences)
    end.
Proof.
  intros Henc sequences. unfold get_cls_embeddings. fold sequences.
  unfold merge_data. rewrite merge_data_from_merged.
  destruct (concat sequences) as [|line merged'] eqn:Hmerged; [reflexivity|].
  set (merged := line :: merged') in *.
  assert (Hchunks :
    concat (map (fun i => bert_model self (take (Z.to_nat physical_batch_size)
                                               (drop (Z.to_nat i) merged)))
                (range_from (length merged) 0 (Z.of_nat (length merged))
                            physical_batch_size))
    = map enc merged).
  { erewrite map_ext; [|intros i; apply Henc].
    apply (range_chunks_concat enc merged (length merged) 0). lia. }
  destruct (map _ (range_from (length merged) 0 _ physical_batch_size))
    as [|out outs] eqn:Hout.
  { cbn in Hchunks. discriminate. }
  rewrite Hchunks, length_map, length_map.
  change (length merged =? 0)%nat with false. cbv iota.
  assert (Hsplit :
    tensor_split (map (projector self) (map enc merged))
                 (tail (merge_data_from 0 sequences).2)
    = map (map (fun line => projector self (enc line))) sequences).
  { apply tensor_split_merge.
    - intros E. rewrite E in Hmerged. discriminate.
    - cbn [drop]. rewrite Hmerged, map_map. reflexivity. }
  destruct (tail (merge_data_from 0 sequences).2); rewrite <- Hsplit; reflexivity.
Qed.

End MergeAndSplit.

Lemma get_cls_embeddings_per_sample_witness :
  get_cls_embeddings (toy_model toy_names) [["a"; "b"]; []; ["c"]]
  = Some [[[1%Q]; [1%Q]]; []; [[1%Q]]].
Proof.
  apply (get_cls_embeddings_per_sample (toy_model toy_names) (fun _ => [1%Q])
           [["a"; "b"]; []; ["c"]]).
  intros batch. reflexivity.
Defined.

Section DegenerateBatch.

Lemma concat_all_nil {A} (data : list (list A)) :
  Forall (fun s => s = []) data -> concat data = [].
Proof.
  induction 1 as [|s rest Hs _ IH]; [reflexivity|]. cbn. rewrite Hs, IH. reflexivity.
Qed.

(** X3. A batch in which no sample has a line left after truncation is
    handled without calling any network, whatever the model: [_get_logits]
    returns nothing, [forward] returns one sentinel row per sample and
    [train_helper] returns no rows and no labels, which is the case the
    training loop skips. *)
Theorem batch_without_lines
    (self : LogSentinelModel) (sequences_ : list (list string))
    (labels : list string) :
  Forall (fun s => slice_to (max_seq_len self) s = []) sequences_ ->
  _get_logits self sequences_ = Ok None
  /\ forward self sequences_ = Ok (replicate (length sequences_) sentinel)
  /\ train_helper self sequences_ labels = Ok ([], []).
Proof.
  intros Hempty.
  assert (Hcls : get_cls_embeddings self sequences_ = None).
  { unfold get_cls_embeddings, merge_data. rewrite merge_data_from_merged.
    rewrite concat_all_nil; [reflexivity|].
    apply Forall_fmap. exact Hempty. }
  assert (Hlogits : _get_logits self sequences_ = Ok None).
  { unfold _get_logits. rewrite Hcls. reflexivity. }
  unfold forward, train_helper. rewrite Hlogits. repeat split; reflexivity.
Qed.

End DegenerateBatch.

Lemma batch_without_lines_witness :
  _get_logits short_model [[]; []] = Ok None
  /\ forward short_model [[]; []] = Ok [sentinel; sentinel]
  /\ train_helper short_model [[]; []] ["normal"; "anomalous"] = Ok ([], []).
Proof.
  apply (batch_without_lines short_model [[]; []] ["normal"; "anomalous"]).
  repeat constructor.
Defined.

Section FrozenParameters.

(** X4. Parameters outside the projector and the classifier stay frozen
    until full fine-tuning, and of those only the decoder's adapter weights
    are ever unfrozen: a parameter whose name contains neither ['projector']
    nor ['classifier'] is not trainable after a stager call unless the call
    is [set_finetuning_all] and the name contains both ['llama_model'] and
    ['lora_']. The sequence encoder and the decoder's base weights are
    therefore frozen in all four modes. *)
Theorem only_adapters_join_in_full_finetuning
    (m : mode) (self : LogSentinelModel) (name : string) :
  contains "projector" name = false ->
  contains "classifier" name = false ->
  m <> FinetuningAll
  \/ contains "llama_model" name = false
  \/ contains "lora_" name = false ->
  ~ trainable_after m self name.
Proof.
  intros Hp Hc Hrest Htrain. apply trainable_after_iff in Htrain.
  destruct Htrain as (_ & Hg).
  destruct m; cbn [mode_groups existsb in_group] in Hg;
    rewrite ?Hp, ?Hc in Hg; cbn in Hg; try discriminate Hg.
  destruct Hrest as [Hm|[Hl|Hl]]; [congruence| |]; rewrite Hl in Hg;
    rewrite ?andb_false_r in Hg; cbn in Hg; discriminate Hg.
Qed.

End FrozenParameters.

Lemma only_adapters_join_in_full_finetuning_witness :
  ~ trainable_after ProjectorAndClassifier (toy_model toy_names)
      "llama_model.layers.0.self_attn.q_proj.lora_A.weight"
  /\ ~ trainable_after FinetuningAll (toy_model toy_names)
         "bert_model.pooler.dense.weight".
Proof.
  split.
  - apply (only_adapters_join_in_full_finetuning ProjectorAndClassifier
             (toy_model toy_names)
             "llama_model.layers.0.self_attn.q_proj.lora_A.weight").
    + reflexivity.
    + reflexivity.
    + left. discriminate.
  - apply (only_adapters_join_in_full_finetuning FinetuningAll
             (toy_model toy_names) "bert_model.pooler.dense.weight").
    + reflexivity.
    + reflexivity.
    + right. left. reflexivity.
Defined.

(** * Part VII: further properties of [engine/training_controller.py] *)

Section EvaluationCoverage.

Lemma forward_rows (self : LogSentinelModel) (sequences_ : list (list string)) :
  well_shaped self ->
  exists out,
    forward self sequences_ = Ok out
    /\ length out = length sequences_
    /\ Forall (fun row => length row = 2%nat) out.
Proof.
  intros Hshape. unfold forward.
  destruct (_get_logits_spec self sequences_ Hshape) as (r & -> & Hspec).
  cbn [rbind]. destruct r as [[logits original_indices]|].
  - destruct Hspec as (Hidx & _ & Hlen & Hwidth).
    destruct (index_put_spec 2 original_indices (full (length sequences_) 2 NegInf) logits)
      as (out & Hout & Hl & Hw & _).
    + rewrite Hidx. apply nonempty_positions_NoDup.
    + exact Hlen.
    + intros i Hi. rewrite Hidx in Hi. apply surviving_elem in Hi.
      destruct Hi as (s & Hs & _). unfold full. rewrite length_replicate.
      eapply lookup_lt_Some. exact Hs.
    + apply full_widths.
    + exact Hwidth.
    + exists out. split; [exact Hout|].
      unfold full in Hl. rewrite length_replicate in Hl. auto.
  - exists (full (length sequences_) 2 NegInf). split; [reflexivity|].
    split; [unfold full; apply length_replicate|apply full_widths].
Qed.

Lemma argmax_two_columns (row : list fval) :
  length row = 2%nat -> argmax row = 0%Z \/ argmax row = 1%Z.
Proof.
  destruct row as [|a [|b [|c row]]]; cbn; try discriminate. intros _.
  destruct (fval_ltb a b); auto.
Qed.

Lemma predict_batches_covers self (test : TestSet) (batch_size : Z) :
  well_shaped self ->
  (0 < batch_size)%Z ->
  forall fuel start,
    (length (test_sequences test) - start <= fuel)%nat ->
    exists preds,
      predict_batches self test batch_size
        (range_from fuel (Z.of_nat start)
                    (Z.of_nat (length (test_sequences test))) batch_size)
      = Ok preds
      /\ length preds = (length (test_sequences test) - start)%nat
      /\ Forall (fun p => p = 0%Z \/ p = 1%Z) preds.
Proof.
  intros Hshape Hbs. induction fuel as [|fuel IH]; intros start Hfuel;
    cbn [range_from].
  - exists []. cbn. repeat split; [lia|constructor].
  - destruct (Z.ltb_spec (Z.of_nat start) (Z.of_nat (length (test_sequences test))))
      as [Hlt|Hge].
    + cbn [predict_batches].
      match goal with
      | |- context [forward self ?seqs] =>
          destruct (forward_rows self seqs Hshape) as (out & -> & Hlen & Hw)
      end.
      cbn [rbind].
      replace (Z.of_nat start + batch_size)%Z
        with (Z.of_nat (start + Z.to_nat batch_size)) by lia.
      destruct (IH (start + Z.to_nat batch_size)%nat ltac:(lia))
        as (later & -> & Hlater & H01).
      cbn [rbind]. eexists. split; [reflexivity|]. split.
      * rewrite length_app, length_map, Hlen, Hlater, length_take, length_drop. lia.
      * apply Forall_app. split; [|exact H01].
        apply Forall_fmap. eapply Forall_impl; [exact Hw|].
        intros row Hrow. apply argmax_two_columns. exact Hrow.
    + exists []. cbn. repeat split; [lia|constructor].
Qed.


End EvaluationCoverage.


Section Keeping.

Variable R : TrainingController -> TrainingController -> Prop.
Hypothesis R_refl : forall c, R c c.
Hypothesis R_trans : forall c1 c2 c3, R c1 c2 -> R c2 c3 -> R c1 c3.

Variable w : world.

Lemma keeps_ret {A} (a : A) : keeps R (ret a).
Proof. intros c. apply R_refl. Qed.

Lemma keeps_raise {A} (e : exn) : keeps R (@raise A e).
Proof. intros c. apply R_refl. Qed.

Lemma keeps_lift {A} (r : result A) : keeps R (lift r).
Proof. intros c. apply R_refl. Qed.

Lemma keeps_gets {A} (g : TrainingController -> A) : keeps R (gets g).
Proof. intros c. apply R_refl. Qed.

Lemma keeps_bind {A B} (m : M A) (k : A -> M B) :
  keeps R m -> (forall a, keeps R (k a)) -> keeps R (bind m k).
Proof.
  intros Hm Hk c. unfold bind. specialize (Hm c).
  destruct (m c) as [[a|e] c1]; cbn [snd] in *; [|exact Hm].
  eapply R_trans; [exact Hm|]. apply Hk.
Qed.

Lemma keeps_modify (f : TrainingController -> TrainingController) :
  (forall c, R c (f c)) -> keeps R (modify f).
Proof. intros Hf c. apply Hf. Qed.

Lemma keeps_emit (a : action) :
  (forall c, R c (set_trace (trace c ++ [a]) c)) -> keeps R (emit a).
Proof. intros Ha c. apply Ha. Qed.

Lemma keeps_perform (a : action) :
  (forall c, R c (set_trace (trace c ++ [a]) c)) -> keeps R (perform w a).
Proof.
  intros Ha c. unfold perform.
  destruct (fault w (global_step_count c) a); [apply R_refl|apply Ha].
Qed.

Lemma keeps_call_back (e : event) :
  (forall c b, R c (set_trace (trace c ++ [Callback e b]) c)) ->
  keeps R (call_back w e).
Proof. intros He c. apply He. Qed.

Lemma keeps_log (m : message) :
  (forall c b, R c (set_trace (trace c ++ [Callback (EvLog m) b]) c)) ->
  keeps R (_log w m).
Proof.
  intros Hm. unfold _log. apply keeps_bind; [apply keeps_call_back; exact Hm|].
  intros _. apply keeps_ret.
Qed.

End Keeping.

Create HintDb keeps_db.

(** One step of a proof that straight-line code keeps a relation, given its
    reflexivity, its transitivity, and what it says of a plain call and of a
    change of attributes. *)
Ltac keeps_step refl trans call same :=
  lazymatch goal with
  | |- keeps _ (bind _ _) => apply (keeps_bind _ trans); [|intros ?]
  | |- keeps _ (ret _) => apply (keeps_ret _ refl)
  | |- keeps _ (raise _) => apply (keeps_raise _ refl)
  | |- keeps _ (lift _) => apply (keeps_lift _ refl)
  | |- keeps _ (gets _) => apply (keeps_gets _ refl)
  | |- keeps _ (modify _) => apply keeps_modify; intros ?; apply same; reflexivity
  | |- keeps _ (emit _) => apply keeps_emit; intros ?; apply call; reflexivity
  | |- keeps _ (perform _ _) =>
      apply (keeps_perform _ refl); intros ?; apply call; reflexivity
  | |- keeps _ (call_back _ _) =>
      apply keeps_call_back; intros ? ?; apply call; reflexivity
  | |- keeps _ (_log _ _) =>
      apply (keeps_log _ refl trans); intros ? ?; apply call; reflexivity
  | |- keeps _ (if ?b then _ else _) => destruct b
  | |- keeps _ (match ?x with _ => _ end) => destruct x
  | |- keeps _ _ => solve [auto with keeps_db]
  end.

Section LossSeries.

Lemma reported_losses_app s1 s2 :
  reported_losses (s1 ++ s2) = reported_losses s1 ++ reported_losses s2.
Proof. unfold reported_losses. apply omap_app. Qed.

Lemma reported_progress_app s1 s2 :
  reported_progress (s1 ++ s2) = reported_progress s1 ++ reported_progress s2.
Proof. unfold reported_progress. apply omap_app. Qed.

Lemma logs_losses_refl c : logs_losses c c.
Proof. exists []. rewrite !app_nil_r. auto. Qed.

Lemma logs_losses_trans c1 c2 c3 :
  logs_losses c1 c2 -> logs_losses c2 c3 -> logs_losses c1 c3.
Proof.
  intros (s1 & Ht1 & Hl1) (s2 & Ht2 & Hl2). exists (s1 ++ s2).
  rewrite Ht2, Ht1, Hl2, Hl1, reported_losses_app, !app_assoc. auto.
Qed.

Lemma logs_losses_call a c :
  reported_losses [a] = [] -> logs_losses c (set_trace (trace c ++ [a]) c).
Proof.
  intros Ha. exists [a]. split; [reflexivity|].
  rewrite Ha, app_nil_r. reflexivity.
Qed.

Lemma logs_losses_same c c' :
  trace c' = trace c -> batch_losses c' = batch_losses c -> logs_losses c c'.
Proof. intros Ht Hl. exists []. rewrite !app_nil_r. auto. Qed.

End LossSeries.

Ltac losses_tac :=
  repeat keeps_step logs_losses_refl logs_losses_trans logs_losses_call
                    logs_losses_same.

Section MicroBatchStep.

Variable w : world.

Local Open Scope Z_scope.

(** One micro-batch, on every path: the step count goes up by one, at most
    one status is reported, its progress is the one of the new step count,
    and its loss is the one entry added to the loss series. *)
Lemma micro_batch_step lbl mbs g n i_th start_idx c :
  let c' := (micro_batch w lbl mbs g n i_th start_idx c).2 in
  hp_int c' = hp_int c
  /\ total_training_steps c' = total_training_steps c
  /\ global_step_count c' = global_step_count c + 1
  /\ exists seg,
       trace c' = trace c ++ seg
       /\ batch_losses c' = batch_losses c ++ reported_losses seg
       /\ Forall (fun a => phase_action a = true) seg
       /\ (reported_progress seg = []
           \/ reported_progress seg
              = [progress_at (total_training_steps c) (global_step_count c + 1)]).
Proof.
  unfold micro_batch, _log.
  unfold bind, modify, perform, emit, gets, lift, call_back, ret, pymod, progress_at.
  cbn [global_step_count set_global_step_count set_trace trace hp_int
       total_training_steps batch_losses set_batch_losses fst snd].
  repeat match goal with
         | |- context [match fault w ?s ?a with _ => _ end] =>
             destruct (fault w s a)
         | |- context [if ?b then _ else _] =>
             lazymatch b with
             | (_ >? _) => fail
             | _ => destruct b
             end
         | _ => progress cbn [global_step_count set_global_step_count set_trace
                              trace hp_int total_training_steps batch_losses
                              set_batch_losses fst snd modify]
         end;
    (split; [reflexivity|]); (split; [reflexivity|]); (split; [reflexivity|]);
    eexists; (split; [repeat rewrite <- (app_assoc (trace c)); cbn [app];
                      first [reflexivity | symmetry; apply app_nil_r]|]);
    (split; [cbn; rewrite ?app_nil_r; reflexivity|]);
    (split; [repeat constructor|]);
    cbn; auto.
Qed.

End MicroBatchStep.

Section LossSeriesOfRun.

Variable w : world.

Lemma losses_micro_batch lbl mbs g n i_th start_idx :
  keeps logs_losses (micro_batch w lbl mbs g n i_th start_idx).
Proof.
  intros c.
  destruct (micro_batch_step w lbl mbs g n i_th start_idx c)
    as (_ & _ & _ & seg & Ht & Hl & _).
  exists seg. auto.
Qed.

#[local] Hint Resolve losses_micro_batch : keeps_db.

Lemma losses_for_micro_batches lbl mbs g n starts :
  forall i_th, keeps logs_losses (for_micro_batches w lbl mbs g n i_th starts).
Proof.
  induction starts as [|start_idx rest IH]; intros i_th; cbn [for_micro_batches];
    losses_tac.
Qed.

#[local] Hint Resolve losses_for_micro_batches : keeps_db.

Lemma losses_epoch_body name n_epochs g indexes epoch :
  keeps logs_losses (epoch_body w name n_epochs g indexes epoch).
Proof. unfold epoch_body. cbv zeta. losses_tac. Qed.

#[local] Hint Resolve losses_epoch_body : keeps_db.

Lemma losses_for_epochs name n_epochs g indexes epochs :
  keeps logs_losses (for_epochs w name n_epochs g indexes epochs).
Proof. induction epochs as [|epoch rest IH]; cbn [for_epochs]; losses_tac. Qed.

#[local] Hint Resolve losses_for_epochs : keeps_db.

Lemma losses__train_phase name n_epochs lr indexes :
  keeps logs_losses (_train_phase w name n_epochs lr indexes).
Proof. unfold _train_phase. losses_tac. Qed.

#[local] Hint Resolve losses__train_phase : keeps_db.

Lemma losses_for_phases phases indexes :
  keeps logs_losses (for_phases w phases indexes).
Proof.
  induction phases as [|[[[name setup_func] epochs] lr] rest IH];
    cbn [for_phases]; losses_tac.
Qed.

Lemma losses_for_eval_batches total starts :
  keeps logs_losses (for_eval_batches w total starts).
Proof.
  induction starts as [|i rest IH]; cbn [for_eval_batches]; cbv zeta; losses_tac.
Qed.

#[local] Hint Resolve losses_for_phases losses_for_eval_batches : keeps_db.

Lemma losses__evaluate : keeps logs_losses (_evaluate w).
Proof. unfold _evaluate. losses_tac. Qed.

Lemma losses__initialize_run : keeps logs_losses (_initialize_run w).
Proof. unfold _initialize_run. losses_tac. Qed.

Lemma losses_oversample hp train : keeps logs_losses (oversample w hp train).
Proof. unfold oversample. cbv zeta. losses_tac. Qed.

#[local] Hint Resolve losses__evaluate losses__initialize_run losses_oversample
  : keeps_db.

Lemma losses_run_try : keeps logs_losses (run_try w).
Proof. unfold run_try. cbv zeta. losses_tac. Qed.

Lemma losses_run_except e : keeps logs_losses (run_except w e).
Proof. unfold run_except. losses_tac. Qed.

Lemma losses_run_try_except : keeps logs_losses (run_try_except w).
Proof.
  intros c. unfold run_try_except. pose proof (losses_run_try c) as H1.
  destruct (run_try w c) as [[status|e] c1]; cbn [snd] in *; [exact H1|].
  eapply logs_losses_trans; [exact H1|]. apply losses_run_except.
Qed.

Lemma losses__cleanup : keeps logs_losses (_cleanup w).
Proof. unfold _cleanup. losses_tac. Qed.

#[local] Hint Resolve losses_run_try_except losses__cleanup : keeps_db.

Lemma losses_run_finally status : keeps logs_losses (run_finally w status).
Proof. unfold run_finally. losses_tac. Qed.

#[local] Hint Resolve losses_run_finally : keeps_db.

(** X6. On every path through [run], whatever the callback answers and
    wherever a collaborator raises, the loss series [batch_losses] grows by
    exactly the losses that were reported to the callback in training
    statuses, in the same order: a micro-batch that is skipped or that
    raises adds nothing, and nothing else writes to the series. *)
Theorem loss_series_is_what_was_reported (c : TrainingController) :
  exists seg,
    trace (run w c).2 = trace c ++ seg
    /\ batch_losses (run w c).2 = batch_losses c ++ reported_losses seg.
Proof.
  assert (H : keeps logs_losses (run w)) by (unfold run; losses_tac).
  exact (H c).
Qed.

End LossSeriesOfRun.

(** ** Progress of training *)

Section Progress.

Local Open Scope Z_scope.

Lemma advances_refl c : advances c c.
Proof.
  repeat split; [lia|]. exists [], []. rewrite app_nil_r.
  repeat split; constructor.
Qed.

Lemma advances_trans c1 c2 c3 : advances c1 c2 -> advances c2 c3 -> advances c1 c3.
Proof.
  intros (Hh1 & Ht1 & Hg1 & s1 & l1 & Hs1 & Hp1 & Ho1 & Hb1)
         (Hh2 & Ht2 & Hg2 & s2 & l2 & Hs2 & Hp2 & Ho2 & Hb2).
  split; [congruence|]. split; [congruence|]. split; [lia|].
  exists (s1 ++ s2), (l1 ++ l2).
  split; [rewrite Hs2, Hs1, app_assoc; reflexivity|].
  split; [rewrite reported_progress_app, Hp1, Hp2, Ht1, map_app; reflexivity|].
  split.
  - apply StronglySorted_app_2; [|assumption|assumption].
    intros x1 x2 H1 H2.
    rewrite Forall_forall in Hb1, Hb2.
    specialize (Hb1 _ H1). specialize (Hb2 _ H2). lia.
  - apply Forall_app. split.
    + eapply Forall_impl; [exact Hb1|]. cbn. intros; lia.
    + eapply Forall_impl; [exact Hb2|]. cbn. intros; lia.
Qed.

Lemma advances_call a c :
  reported_progress [a] = [] -> advances c (set_trace (trace c ++ [a]) c).
Proof.
  intros Ha. repeat split; [cbn; lia|]. exists [a], [].
  repeat split; [exact Ha|constructor|constructor].
Qed.

Lemma advances_same c c' :
  trace c' = trace c -> hp_int c' = hp_int c ->
  total_training_steps c' = total_training_steps c ->
  global_step_count c' = global_step_count c -> advances c c'.
Proof.
  intros Ht Hh Hs Hg. repeat split; [assumption|assumption|lia|].
  exists [], []. rewrite app_nil_r. repeat split; [assumption|constructor|constructor].
Qed.

Lemma idle_refl c : idle c c.
Proof. split; [reflexivity|]. exists []. rewrite app_nil_r. auto. Qed.

Lemma idle_trans c1 c2 c3 : idle c1 c2 -> idle c2 c3 -> idle c1 c3.
Proof.
  intros (Hg1 & s1 & Hs1 & Hp1) (Hg2 & s2 & Hs2 & Hp2).
  split; [congruence|]. exists (s1 ++ s2).
  rewrite Hs2, Hs1, reported_progress_app, Hp1, Hp2, app_assoc. auto.
Qed.

Lemma idle_call a c :
  reported_progress [a] = [] -> idle c (set_trace (trace c ++ [a]) c).
Proof. intros Ha. split; [reflexivity|]. exists [a]. auto. Qed.

Lemma idle_same c c' :
  trace c' = trace c -> global_step_count c' = global_step_count c -> idle c c'.
Proof.
  intros Ht Hg. split; [assumption|]. exists []. rewrite app_nil_r. auto.
Qed.

Lemma settled_refl c : settled c c.
Proof. split; [apply idle_refl|reflexivity]. Qed.

Lemma settled_trans c1 c2 c3 : settled c1 c2 -> settled c2 c3 -> settled c1 c3.
Proof.
  intros [H1 T1] [H2 T2]. split; [eapply idle_trans; eassumption|congruence].
Qed.

Lemma settled_call a c :
  reported_progress [a] = [] -> settled c (set_trace (trace c ++ [a]) c).
Proof. intros Ha. split; [apply idle_call, Ha|reflexivity]. Qed.

Lemma settled_same c c' :
  trace c' = trace c -> global_step_count c' = global_step_count c ->
  total_training_steps c' = total_training_steps c -> settled c c'.
Proof. intros Ht Hg Hs. split; [apply idle_same; assumption|assumption]. Qed.

Lemma settled_idle {A} (m : M A) : keeps settled m -> keeps idle m.
Proof. intros H c. apply H. Qed.

Lemma idle_trains c c' : idle c c' -> trains c c'.
Proof.
  intros H. exists c', c'. split; [exact H|].
  split; [apply advances_refl|apply settled_refl].
Qed.

Lemma trains_bind_idle {A B} (m : M A) (k : A -> M B) :
  keeps idle m -> (forall a, keeps trains (k a)) -> keeps trains (bind m k).
Proof.
  intros Hm Hk c. unfold bind. specialize (Hm c).
  destruct (m c) as [[a|e] c1]; cbn [snd] in *.
  - destruct (Hk a c1) as (c2 & c3 & H1 & H2 & H3).
    exists c2, c3. split; [eapply idle_trans; eassumption|auto].
  - apply idle_trains, Hm.
Qed.

Lemma trains_bind_advances {A B} (m : M A) (k : A -> M B) :
  keeps advances m -> (forall a, keeps settled (k a)) -> keeps trains (bind m k).
Proof.
  intros Hm Hk c. unfold bind. specialize (Hm c).
  destruct (m c) as [[a|e] c1]; cbn [snd] in *.
  - exists c, c1. split; [apply idle_refl|]. split; [exact Hm|apply Hk].
  - exists c, c1. split; [apply idle_refl|]. split; [exact Hm|apply settled_refl].
Qed.

Lemma trains_bind_settled {A B} (m : M A) (k : A -> M B) :
  keeps trains m -> (forall a, keeps settled (k a)) -> keeps trains (bind m k).
Proof.
  intros Hm Hk c. unfold bind. specialize (Hm c).
  destruct (m c) as [[a|e] c1]; cbn [snd] in *; [|exact Hm].
  destruct Hm as (c2 & c3 & H1 & H2 & H3).
  exists c2, c3. split; [exact H1|]. split; [exact H2|].
  eapply settled_trans; [exact H3|apply Hk].
Qed.

Lemma progress_at_lt total s1 s2 :
  0 < total -> s1 < s2 -> (progress_at total s1 < progress_at total s2)%Q.
Proof.
  intros Ht Hs. unfold progress_at.
  destruct (Z.gtb_spec total 0) as [_|H]; [|lia].
  unfold Qdiv. apply Qmult_lt_compat_r.
  - apply Qinv_lt_0_compat. change 0%Q with (inject_Z 0).
    rewrite <- Zlt_Qlt. exact Ht.
  - rewrite <- Zlt_Qlt. exact Hs.
Qed.

End Progress.

Ltac advances_tac :=
  repeat keeps_step advances_refl advances_trans advances_call advances_same.
Ltac idle_tac :=
  repeat keeps_step idle_refl idle_trans idle_call idle_same.
Ltac settled_tac :=
  repeat keeps_step settled_refl settled_trans settled_call settled_same.

Section ProgressOfRun.

Variable w : world.

Local Open Scope Z_scope.

Lemma advances_micro_batch lbl mbs g n i_th start_idx :
  keeps advances (micro_batch w lbl mbs g n i_th start_idx).
Proof.
  intros c.
  destruct (micro_batch_step w lbl mbs g n i_th start_idx c)
    as (Hh & Ht & Hg & seg & Hs & _ & _ & Hp).
  split; [exact Hh|]. split; [exact Ht|]. split; [lia|].
  destruct Hp as [Hp|Hp].
  - exists seg, []. repeat split; [exact Hs|exact Hp|constructor|constructor].
  - exists seg, [global_step_count c + 1].
    repeat split; [exact Hs|exact Hp|repeat constructor|].
    repeat constructor; lia.
Qed.

#[local] Hint Resolve advances_micro_batch : keeps_db.

Lemma advances_for_micro_batches lbl mbs g n starts :
  forall i_th, keeps advances (for_micro_batches w lbl mbs g n i_th starts).
Proof.
  induction starts as [|start_idx rest IH]; intros i_th; cbn [for_micro_batches];
    advances_tac.
Qed.

#[local] Hint Resolve advances_for_micro_batches : keeps_db.

Lemma advances_epoch_body name n_epochs g indexes epoch :
  keeps advances (epoch_body w name n_epochs g indexes epoch).
Proof. unfold epoch_body. cbv zeta. advances_tac. Qed.

#[local] Hint Resolve advances_epoch_body : keeps_db.

Lemma advances_for_epochs name n_epochs g indexes epochs :
  keeps advances (for_epochs w name n_epochs g indexes epochs).
Proof. induction epochs as [|epoch rest IH]; cbn [for_epochs]; advances_tac. Qed.

#[local] Hint Resolve advances_for_epochs : keeps_db.

Lemma advances__train_phase name n_epochs lr indexes :
  keeps advances (_train_phase w name n_epochs lr indexes).
Proof. unfold _train_phase. advances_tac. Qed.

#[local] Hint Resolve advances__train_phase : keeps_db.

Lemma advances_for_phases phases indexes :
  keeps advances (for_phases w phases indexes).
Proof.
  induction phases as [|[[[name setup_func] epochs] lr] rest IH];
    cbn [for_phases]; advances_tac.
Qed.

Lemma settled_for_eval_batches total starts :
  keeps settled (for_eval_batches w total starts).
Proof.
  induction starts as [|i rest IH]; cbn [for_eval_batches]; cbv zeta; settled_tac.
Qed.

#[local] Hint Resolve settled_for_eval_batches : keeps_db.

Lemma settled__evaluate : keeps settled (_evaluate w).
Proof. unfold _evaluate. settled_tac. Qed.

Lemma settled__cleanup : keeps settled (_cleanup w).
Proof. unfold _cleanup. settled_tac. Qed.

Lemma settled_run_except e : keeps settled (run_except w e).
Proof. unfold run_except. settled_tac. Qed.

#[local] Hint Resolve settled__evaluate settled__cleanup : keeps_db.

Lemma settled_run_finally status : keeps settled (run_finally w status).
Proof. unfold run_finally. settled_tac. Qed.

Lemma idle__initialize_run : keeps idle (_initialize_run w).
Proof. unfold _initialize_run. idle_tac. Qed.

Lemma idle_oversample hp train : keeps idle (oversample w hp train).
Proof. unfold oversample. cbv zeta. idle_tac. Qed.

#[local] Hint Resolve idle__initialize_run idle_oversample : keeps_db.

Lemma trains_run_try : keeps trains (run_try w).
Proof.
  unfold run_try. cbv zeta.
  repeat (apply trains_bind_idle; [solve [idle_tac]|intros ?]).
  apply trains_bind_advances; [apply advances_for_phases|].
  intros ok. settled_tac.
Qed.

Lemma trains_run_try_except : keeps trains (run_try_except w).
Proof.
  intros c. unfold run_try_except. pose proof (trains_run_try c) as H.
  destruct (run_try w c) as [[status|e] c1]; cbn [snd] in *; [exact H|].
  destruct H as (c2 & c3 & H1 & H2 & H3).
  exists c2, c3. split; [exact H1|]. split; [exact H2|].
  eapply settled_trans; [exact H3|apply settled_run_except].
Qed.

Lemma trains_run : keeps trains (run w).
Proof.
  unfold run.
  apply trains_bind_idle; [idle_tac|intros _].
  apply trains_bind_settled; [apply trains_run_try_except|intros status].
  pose proof settled_run_finally. settled_tac.
Qed.

(** X7. On every path through [run], the progress fractions of the training
    statuses are those of strictly increasing global step counts, each one
    above the count the run started from and at most the count it ends
    with, all taken over the step budget the run ends with.  With a
    positive budget the reported progress is therefore strictly
    increasing; with a budget of zero or less every status reports 0. *)
Theorem training_progress_strictly_increases (c : TrainingController) :
  let c' := (run w c).2 in
  exists seg steps,
    trace c' = trace c ++ seg
    /\ reported_progress seg = map (progress_at (total_training_steps c')) steps
    /\ StronglySorted Z.lt steps
    /\ Forall (fun s => global_step_count c < s <= global_step_count c') steps
    /\ (0 < total_training_steps c' -> StronglySorted Qlt (reported_progress seg))
    /\ (total_training_steps c' <= 0 -> Forall (fun p => p = 0%Q) (reported_progress seg)).
Proof.
  cbv zeta.
  destruct (trains_run c) as (c1 & c2 & (Hg1 & s1 & Hs1 & Hp1)
    & (_ & Ht2 & _ & s2 & steps & Hs2 & Hp2 & Ho & Hb)
    & ((Hg3 & s3 & Hs3 & Hp3) & Ht3)).
  assert (Hp : reported_progress (s1 ++ s2 ++ s3)
               = map (progress_at (total_training_steps (run w c).2)) steps).
  { rewrite !reported_progress_app, Hp1, Hp2, Hp3, app_nil_r, Ht3, Ht2.
    reflexivity. }
  exists (s1 ++ s2 ++ s3), steps.
  split; [rewrite Hs3, Hs2, Hs1, <- !app_assoc; reflexivity|].
  split; [exact Hp|]. split; [exact Ho|].
  split; [rewrite Hg3, <- Hg1; exact Hb|].
  rewrite Hp. split.
  - intros Hpos. apply (StronglySorted_fmap _ Z.lt Qlt); [|exact Ho].
    intros x y. apply progress_at_lt, Hpos.
  - intros Hneg. apply Forall_map, Forall_forall. intros s _.
    unfold progress_at. destruct (Z.gtb_spec (total_training_steps (run w c).2) 0);
      [lia|reflexivity].
Qed.

End ProgressOfRun.

(** ** What a completed run has written *)

Section Completion.

Variable w : world.

Local Open Scope ctl_scope.

Lemma unsaved_not_saved a : unsaved a = true -> is_save_ft_model a = false.
Proof. revert a. action_cases. Qed.

Lemma training_action_unsaved a : training_action a = true -> unsaved a = true.
Proof. revert a. action_cases. Qed.

Lemma evaluation_action_unsaved a : evaluation_action a = true -> unsaved a = true.
Proof. revert a. action_cases. Qed.

Lemma calm_unsaved a : calm a = true -> unsaved a = true.
Proof. revert a. action_cases. Qed.

Lemma closing_unsaved a : closing a = true -> unsaved a = true.
Proof. revert a. action_cases. Qed.

Lemma unsaved_for_phases phases indexes : only unsaved (for_phases w phases indexes).
Proof.
  eapply only_weaken; [exact training_action_unsaved|apply only_for_phases].
Qed.

Lemma unsaved__evaluate : only unsaved (_evaluate w).
Proof.
  eapply only_weaken; [exact evaluation_action_unsaved|apply only__evaluate].
Qed.

Lemma unsaved__initialize_run : only unsaved (_initialize_run w).
Proof. eapply only_weaken; [exact calm_unsaved|apply calm__initialize_run]. Qed.

Lemma unsaved_oversample hp train : only unsaved (oversample w hp train).
Proof. eapply only_weaken; [exact calm_unsaved|apply calm_oversample]. Qed.

Lemma unsaved_run_except e : only unsaved (run_except w e).
Proof. unfold run_except. only_tac. Qed.

Lemma absorbs_unsaved : absorbs unsaved saved_last.
Proof.
  split.
  - intros r s1 s2 H1 [(Hr & pre & -> & Hpre)|(Hr & Hs)].
    + left. split; [exact Hr|]. exists (s1 ++ pre).
      rewrite app_assoc. split; [reflexivity|]. apply Forall_app. auto.
    + right. split; [exact Hr|]. apply Forall_app. split; [|exact Hs].
      eapply Forall_impl; [exact H1|]. exact unsaved_not_saved.
  - intros e s1 H1. right. split; [discriminate|].
    eapply Forall_impl; [exact H1|]. exact unsaved_not_saved.
Qed.

Lemma saved_last_writes :
  extends (perform w SavePerformanceMetrics ;;; perform w SaveFtModel ;;;
           ret "COMPLETED")
    saved_last.
Proof.
  intros c. unfold bind, perform, emit, modify, ret.
  destruct (fault w (global_step_count c) SavePerformanceMetrics);
    [exists []; cbn; rewrite app_nil_r; split; [reflexivity|];
     right; split; [discriminate|constructor]|].
  cbn [global_step_count set_trace].
  destruct (fault w (global_step_count c) SaveFtModel); cbn [fst snd trace set_trace].
  - exists [SavePerformanceMetrics]. split; [reflexivity|].
    right. split; [discriminate|repeat constructor].
  - exists [SavePerformanceMetrics; SaveFtModel].
    split; [rewrite <- app_assoc; reflexivity|].
    left. split; [reflexivity|]. exists []. split; [reflexivity|constructor].
Qed.

Lemma run_try_saved_last : extends (run_try w) saved_last.
Proof.
  pose proof unsaved_for_phases. pose proof unsaved__evaluate.
  pose proof unsaved__initialize_run. pose proof unsaved_oversample.
  unfold run_try.
  repeat (apply (extends_prefix unsaved);
          [exact absorbs_unsaved | solve [only_tac; auto] | intros ?]).
  match goal with |- extends (if ?b then _ else _) _ => destruct b end.
  - apply (extends_prefix unsaved); [exact absorbs_unsaved|auto|intros _].
    exact saved_last_writes.
  - apply extends_ret. right. split; [discriminate|constructor].
Qed.

(** X8. [run] reports COMPLETED exactly when the fine-tuned model has been
    saved: in a completed run the performance metrics and then the model
    are written once, one right after the other, and a run that ends
    ABORTED or FAILED has not saved the model at any point (its performance
    metrics may have been saved, when saving the model is what failed). *)
Theorem model_saved_exactly_when_completed (c : TrainingController) :
  exists seg status answer,
    trace (run w c).2 = trace c ++ seg
    /\ last seg = Some (Callback (EvDone status) answer)
    /\ (status = "COMPLETED" ->
        exists pre post,
          seg = pre ++ SavePerformanceMetrics :: SaveFtModel :: post
          /\ Forall (fun a => is_saving a = false) (pre ++ post))
    /\ (status <> "COMPLETED" ->
        Forall (fun a => is_save_ft_model a = false) seg).
Proof.
  unfold run, bind. cbn [emit modify].
  set (c0 := set_trace (trace c ++ [MonitorStart]) c).
  assert (Hte : exists s1 status c1,
             run_try_except w c0 = (Ok status, c1)
             /\ trace c1 = trace c0 ++ s1 /\ saved_last (Ok status) s1).
  { unfold run_try_except.
    destruct (run_try_saved_last c0) as (s1 & Ht1 & HQ).
    destruct (run_try w c0) as [[status|e] c1]; cbn [fst snd] in *.
    - exists s1, status, c1. auto.
    - destruct (unsaved_run_except e c1) as (s2 & Ht2 & Hq2).
      pose proof (run_except_result w e c1) as Hr.
      destruct (run_except w e c1) as [r c2]; cbn [fst snd] in *. subst r.
      exists (s1 ++ s2), "FAILED", c2. rewrite Ht2, Ht1, app_assoc.
      split; [reflexivity|]. split; [reflexivity|]. right.
      split; [discriminate|]. apply Forall_app. split.
      + destruct HQ as [(Hr & _)|(_ & Hs)]; [discriminate|exact Hs].
      + eapply Forall_impl; [exact Hq2|]. exact unsaved_not_saved. }
  destruct Hte as (s1 & status & c1 & E1 & Ht1 & HQ). rewrite E1.
  destruct (run_finally_spec w status c1)
    as (s2 & answer & c2 & E2 & Ht2 & Hlast & Hcl & _).
  rewrite E2. cbn [ret fst snd].
  assert (Hu2 : Forall (fun a => unsaved a = true) s2).
  { eapply Forall_impl; [exact Hcl|]. exact closing_unsaved. }
  exists (MonitorStart :: s1 ++ s2), status, answer.
  split.
  { rewrite Ht2, Ht1. unfold c0. cbn [trace set_trace].
    rewrite <- !app_assoc. reflexivity. }
  split.
  { rewrite last_cons, last_app, Hlast. reflexivity. }
  split.
  - intros ->. destruct HQ as [(_ & pre & -> & Hpre)|(Hr & _)]; [|congruence].
    exists (MonitorStart :: pre), s2.
    split; [cbn [app]; rewrite <- app_assoc; reflexivity|].
    cbn [app]. constructor; [reflexivity|]. apply Forall_app. split.
    + eapply Forall_impl; [exact Hpre|]. unfold unsaved. intros a Ha.
      apply negb_true_iff, Ha.
    + eapply Forall_impl; [exact Hu2|]. unfold unsaved. intros a Ha.
      apply negb_true_iff, Ha.
  - intros Hne. destruct HQ as [(Hr & _)|(_ & Hs)]; [congruence|].
    constructor; [reflexivity|]. apply Forall_app. split; [exact Hs|].
    eapply Forall_impl; [exact Hu2|]. exact unsaved_not_saved.
Qed.

End Completion.

(** ** A run whose record cannot be created *)

Section RunRecord.

Variable w : world.

(** X9. When the database hands back no run id, [run] does nothing of the
    job: no dataset is loaded, no model is built, nothing is trained or
    evaluated. The callback is told of the error, the monitor is stopped,
    the references are released, and the last callback carries FAILED; no
    resource metrics are saved and no run status is written, as there is
    no run to write them to. *)
Theorem run_record_not_created (c : TrainingController) :
  create_new_run w = None ->
  fault w (global_step_count c) CreateNewRun = None ->
  let e := RuntimeError "Failed to create a new run record in the database." in
  exists a1 a2 a3 a4 a5,
    trace (run w c).2
    = trace c
      ++ [MonitorStart; CreateNewRun;
          Callback (EvLog (MsgCriticalError e)) a1; Callback (EvError e) a2;
          MonitorStop; Callback (EvLog MsgCleaningUp) a3; DelReferences; GcCollect]
      ++ (if cuda_is_available w then [CudaEmptyCache] else [])
      ++ [Callback (EvLog MsgCleanupComplete) a4; Callback (EvDone "FAILED") a5].
Proof.
  intros Hnone Hfault e.
  unfold run, run_try_except, run_try, _initialize_run.
  unfold bind at 1 2. unfold emit at 1. unfold modify at 1.
  unfold bind at 1 2. unfold perform at 1.
  cbn [global_step_count set_trace]. rewrite Hfault.
  unfold emit at 1. unfold modify at 1 2. unfold bind at 1 2 3. unfold gets at 1.
  cbn [run_id set_run_id set_trace]. rewrite Hnone. cbn [truthy].
  unfold ret at 1. unfold bind at 1. unfold ret at 1.
  change (bool_decide (@None string <> None)) with false. cbn iota.
  unfold bind at 1. unfold raise at 1.
  unfold run_except, run_finally, _cleanup, _log, bind, emit, modify, gets,
    call_back, ret.
  cbn [run_id set_run_id set_trace trace set_model set_train_dataset
       set_test_dataset set_visualizer truthy fst snd].
  destruct (cuda_is_available w);
    cbn [run_id set_run_id set_trace trace set_model set_train_dataset
         set_test_dataset set_visualizer truthy fst snd];
    repeat rewrite <- (app_assoc (trace c)); cbn [app];
    eexists _, _, _, _, _; reflexivity.
Qed.

End RunRecord.

Lemma run_record_not_created_witness :
  let e := RuntimeError "Failed to create a new run record in the database." in
  exists a1 a2 a3 a4 a5,
    trace (run world_without_run_record
             (__init__ (example_hp_int 4 2 1 1 1 1) example_hp_real)).2
    = [] ++ [MonitorStart; CreateNewRun;
             Callback (EvLog (MsgCriticalError e)) a1; Callback (EvError e) a2;
             MonitorStop; Callback (EvLog MsgCleaningUp) a3; DelReferences; GcCollect]
         ++ []
         ++ [Callback (EvLog MsgCleanupComplete) a4; Callback (EvDone "FAILED") a5].
Proof.
  apply (run_record_not_created world_without_run_record
           (__init__ (example_hp_int 4 2 1 1 1 1) example_hp_real));
    reflexivity.
Defined.

(** ** A hyperparameter that is missing *)

Section Failing.

Variable w : world.
Variable hi : gmap string Z.
Variable hr : gmap string Q.
Variable f : action -> bool.

Lemma same_hp_refl c : same_hp c c.
Proof. split; reflexivity. Qed.

Lemma same_hp_trans c1 c2 c3 : same_hp c1 c2 -> same_hp c2 c3 -> same_hp c1 c3.
Proof. intros [H1 H2] [H3 H4]. split; congruence. Qed.

Lemma same_hp_call (a : action) c :
  a = a -> same_hp c (set_trace (trace c ++ [a]) c).
Proof. intros _. split; reflexivity. Qed.

Lemma same_hp_same c c' :
  hp_int c' = hp_int c -> hp_real c' = hp_real c -> same_hp c c'.
Proof. intros H1 H2. split; assumption. Qed.

Lemma fails_bind {A B} (m : M A) (k : A -> M B) :
  only f m -> keeps same_hp m -> (forall a, fails_with hi hr f (k a)) ->
  fails_with hi hr f (bind m k).
Proof.
  intros Ho Hk Hf c Hi Hr. unfold bind.
  destruct (Ho c) as (s1 & Ht1 & Hs1). destruct (Hk c) as [Hi1 Hr1].
  destruct (m c) as [[a|e] c1]; cbn [fst snd] in *.
  - destruct (Hf a c1) as (e & s2 & He & Ht2 & Hs2); [congruence|congruence|].
    exists e, (s1 ++ s2). split; [exact He|].
    split; [rewrite Ht2, Ht1, app_assoc; reflexivity|]. apply Forall_app. auto.
  - exists e, s1. auto.
Qed.

Lemma fails_gets_int {B} (k : gmap string Z -> M B) :
  fails_with hi hr f (k hi) -> fails_with hi hr f (bind (gets hp_int) k).
Proof. intros Hf c Hi Hr. unfold bind, gets. rewrite Hi. apply Hf; assumption. Qed.

Lemma fails_gets_real {B} (k : gmap string Q -> M B) :
  fails_with hi hr f (k hr) -> fails_with hi hr f (bind (gets hp_real) k).
Proof. intros Hf c Hi Hr. unfold bind, gets. rewrite Hr. apply Hf; assumption. Qed.

Lemma fails_lift {A B} (r : result A) (k : A -> M B) :
  (forall a, fails_with hi hr f (k a)) -> fails_with hi hr f (bind (lift r) k).
Proof.
  intros Hf c Hi Hr. unfold bind, lift. destruct r as [a|e].
  - apply Hf; assumption.
  - exists e, []. cbn. rewrite app_nil_r. auto.
Qed.

Lemma fails_raised {A B} (r : result A) (k : A -> M B) :
  (exists e, r = Raise e) -> fails_with hi hr f (bind (lift r) k).
Proof.
  intros [e ->] c Hi Hr. exists e, []. cbn. rewrite app_nil_r. auto.
Qed.

End Failing.

Ltac hp_tac := repeat keeps_step same_hp_refl same_hp_trans same_hp_call same_hp_same.

Section MissingKey.

Variable w : world.

Local Open Scope ctl_scope.

Lemma same_hp__initialize_run : keeps same_hp (_initialize_run w).
Proof. unfold _initialize_run. hp_tac. Qed.

Lemma same_hp_oversample hp train : keeps same_hp (oversample w hp train).
Proof. unfold oversample. cbv zeta. hp_tac. Qed.

Lemma before_model__initialize_run : only before_model (_initialize_run w).
Proof. unfold _initialize_run. only_tac. Qed.

Lemma before_model_oversample hp train : only before_model (oversample w hp train).
Proof. unfold oversample. cbv zeta. only_tac. Qed.

Lemma before_model_training a : before_model a = true -> before_training a = true.
Proof. unfold before_training. intros ->. reflexivity. Qed.

Lemma before_training__initialize_run : only before_training (_initialize_run w).
Proof.
  eapply only_weaken; [exact before_model_training|].
  exact before_model__initialize_run.
Qed.

Lemma before_training_oversample hp train :
  only before_training (oversample w hp train).
Proof.
  eapply only_weaken; [exact before_model_training|].
  apply before_model_oversample.
Qed.

End MissingKey.

#[export] Hint Resolve same_hp__initialize_run same_hp_oversample : keeps_db.
#[export] Hint Resolve before_model__initialize_run before_model_oversample
  before_training__initialize_run before_training_oversample : only_db.

(** One step towards the lookup that raises. *)
Ltac fails_step :=
  lazymatch goal with
  | |- fails_with _ _ _ (bind (gets hp_int) _) => apply fails_gets_int
  | |- fails_with _ _ _ (bind (gets hp_real) _) => apply fails_gets_real
  | |- fails_with _ _ _ (bind (lift _) _) =>
      first [ apply fails_raised;
              unfold compute_total_training_steps, hp_item;
              match goal with H : _ !! _ = None |- _ => rewrite H end;
              eexists; reflexivity
            | apply fails_lift; intros ? ]
  | |- fails_with _ _ _ (bind _ _) =>
      apply fails_bind; [solve [only_tac] | solve [hp_tac] | intros ?]
  end.

Section MissingKeyOfRun.

Variable w : world.

Lemma run_try_without_model_key hi hr k :
  k ∈ keys_for_model -> hi !! k = None ->
  fails_with hi hr before_model (run_try w).
Proof.
  unfold keys_for_model. intros Hk Hnone. unfold run_try.
  set_unfold in Hk. destruct Hk as [->|[->|[->|[]]]]; repeat fails_step.
Qed.

Lemma run_try_without_epochs_key hi hr k :
  k ∈ keys_for_epochs -> hi !! k = None ->
  fails_with hi hr before_training (run_try w).
Proof.
  unfold keys_for_epochs. intros Hk Hnone. unfold run_try.
  set_unfold in Hk. destruct Hk as [->|[->|[->|[->|[]]]]]; repeat fails_step.
Qed.

Lemma run_try_without_rate_key hi hr k :
  k ∈ keys_for_rates -> hr !! k = None ->
  fails_with hi hr before_training (run_try w).
Proof.
  unfold keys_for_rates. intros Hk Hnone. unfold run_try.
  set_unfold in Hk. destruct Hk as [->|[->|[->|[->|[]]]]]; repeat fails_step.
Qed.

Lemma around_closing f a : closing a = true -> around f a = true.
Proof. unfold around. intros ->. rewrite orb_true_r. reflexivity. Qed.

Lemma around_inside (f : action -> bool) a : f a = true -> around f a = true.
Proof. unfold around. intros ->. reflexivity. Qed.

Lemma around_run_except f e : only (around f) (run_except w e).
Proof.
  unfold run_except.
  apply only_bind;
    [apply only_log; intros b; unfold around; cbn; rewrite ?orb_true_r; reflexivity
    |intros _].
  apply only_bind;
    [apply only_call_back; intros b; unfold around; cbn; rewrite ?orb_true_r;
     reflexivity
    |intros _].
  apply only_ret.
Qed.

(** When the guarded block raises, the run ends FAILED and has emitted,
    around what the block did, only the report of the error and the
    teardown. *)
Lemma run_of_failing_block f c :
  fails_with (hp_int c) (hp_real c) f (run_try w) ->
  exists seg answer,
    trace (run w c).2 = trace c ++ seg
    /\ last seg = Some (Callback (EvDone "FAILED") answer)
    /\ Forall (fun a => around f a = true) seg.
Proof.
  intros Hf. unfold run, bind. cbn [emit modify].
  set (c0 := set_trace (trace c ++ [MonitorStart]) c).
  destruct (Hf c0 eq_refl eq_refl) as (e & s1 & He & Ht1 & Hs1).
  unfold run_try_except.
  destruct (run_try w c0) as [[status|e'] c1]; cbn [fst snd] in *; [discriminate|].
  destruct (around_run_except f e' c1) as (s2 & Ht2 & Hs2).
  pose proof (run_except_result w e' c1) as Hr.
  destruct (run_except w e' c1) as [r c2]; cbn [fst snd] in *. subst r.
  destruct (run_finally_spec w "FAILED" c2)
    as (s3 & answer & c3 & E3 & Ht3 & Hlast & Hcl & _).
  rewrite E3. cbn [ret fst snd].
  exists (MonitorStart :: s1 ++ s2 ++ s3), answer.
  split.
  { rewrite Ht3, Ht2, Ht1. unfold c0. cbn [trace set_trace].
    rewrite <- !app_assoc. reflexivity. }
  split.
  { rewrite last_cons, !last_app, Hlast. reflexivity. }
  constructor; [unfold around; rewrite orb_true_r; reflexivity|].
  apply Forall_app. split.
  - eapply Forall_impl; [exact Hs1|]. apply around_inside.
  - apply Forall_app. split; [exact Hs2|].
    eapply Forall_impl; [exact Hcl|]. apply around_closing.
Qed.

Lemma around_before_training a :
  around before_training a = true -> is_training_work a = false.
Proof. revert a. action_cases. Qed.

Lemma around_before_model a :
  around before_model a = true -> is_build_model a = false.
Proof. revert a. action_cases. Qed.

Lemma around_before_model_training a :
  around before_model a = true -> is_training_work a = false.
Proof. revert a. action_cases. Qed.

(** X10. On its way to the first phase [run] reads eleven hyperparameters
    with [self.hp[...]]. When one of them is missing the run ends FAILED
    without any work of a training phase: no phase is set up, no optimizer
    is made, no batch is fetched.
    When the missing key is one of the three read before the model is
    built, the model is not built either. The defaults [run] gives the
    epoch counts where it adds up the step budget do not help: the same
    keys are read without a default when the phases are listed. *)
Theorem missing_hyperparameter_fails_the_run (c : TrainingController) (k : string) :
  (k ∈ keys_for_model ++ keys_for_epochs /\ hp_int c !! k = None)
  \/ (k ∈ keys_for_rates /\ hp_real c !! k = None) ->
  exists seg answer,
    trace (run w c).2 = trace c ++ seg
    /\ last seg = Some (Callback (EvDone "FAILED") answer)
    /\ Forall (fun a => is_training_work a = false) seg
    /\ (k ∈ keys_for_model -> Forall (fun a => is_build_model a = false) seg).
Proof.
  intros [[Hk Hnone]|[Hk Hnone]].
  - apply elem_of_app in Hk. destruct Hk as [Hk|Hk].
    + destruct (run_of_failing_block before_model c) as (seg & answer & Ht & Hl & Hs).
      { eapply run_try_without_model_key; eassumption. }
      exists seg, answer. split; [exact Ht|]. split; [exact Hl|]. split.
      * eapply Forall_impl; [exact Hs|]. exact around_before_model_training.
      * intros _. eapply Forall_impl; [exact Hs|]. exact around_before_model.
    + destruct (run_of_failing_block before_training c)
        as (seg & answer & Ht & Hl & Hs).
      { eapply run_try_without_epochs_key; eassumption. }
      exists seg, answer. split; [exact Ht|]. split; [exact Hl|]. split.
      * eapply Forall_impl; [exact Hs|]. exact around_before_training.
      * intros Hm. exfalso. revert Hk Hm. unfold keys_for_epochs, keys_for_model.
        set_unfold. intros [->|[->|[->|[->|[]]]]] [H|[H|[H|[]]]]; discriminate H.
  - destruct (run_of_failing_block before_training c)
      as (seg & answer & Ht & Hl & Hs).
    { eapply run_try_without_rate_key; eassumption. }
    exists seg, answer. split; [exact Ht|]. split; [exact Hl|]. split.
    + eapply Forall_impl; [exact Hs|]. exact around_before_training.
    + intros Hm. exfalso. revert Hk Hm. unfold keys_for_rates, keys_for_model.
      set_unfold. intros [->|[->|[->|[->|[]]]]] [H|[H|[H|[]]]]; discriminate H.
Qed.

End MissingKeyOfRun.

Lemma missing_hyperparameter_fails_the_run_witness :
  let w := example_world (example_dataset 4) (fun _ => 1%nat) never_stop in
  let c := __init__ (delete "max_seq_len" (example_hp_int 4 2 1 1 1 1)) example_hp_real in
  exists seg answer,
    trace (run w c).2 = trace c ++ seg
    /\ last seg = Some (Callback (EvDone "FAILED") answer)
    /\ Forall (fun a => is_training_work a = false) seg
    /\ ("max_seq_len" ∈ keys_for_model ->
        Forall (fun a => is_build_model a = false) seg).
Proof.
  cbv zeta.
  apply (missing_hyperparameter_fails_the_run
           (example_world (example_dataset 4) (fun _ => 1%nat) never_stop)
           (__init__ (delete "max_seq_len" (example_hp_int 4 2 1 1 1 1))
                     example_hp_real)
           "max_seq_len").
  left. split; [|vm_compute; reflexivity].
  unfold keys_for_model, keys_for_epochs. cbn [app]. repeat constructor.
Defined.

(** ** What can cancel a run *)

Section Cancelling.

Variable w : world.

Hypothesis statuses_continue :
  forall tr lbl progress loss, callback w tr (EvTrain lbl progress loss) = false.

Local Open Scope ctl_scope.
Local Open Scope Z_scope.

Lemma avoids_bind {A B} (x : B) (m : M A) (k : A -> M B) :
  (forall a, avoids x (k a)) -> avoids x (bind m k).
Proof.
  intros Hk c. unfold bind. destruct (m c) as [[a|e] c1]; [apply Hk|discriminate].
Qed.

Lemma avoids_after {A B} (a0 : A) (x : B) (m : M A) (k : A -> M B) :
  avoids a0 m -> (forall a, a <> a0 -> avoids x (k a)) -> avoids x (bind m k).
Proof.
  intros Hm Hk c. unfold bind. specialize (Hm c).
  destruct (m c) as [[a|e] c1]; cbn [fst] in *; [|discriminate].
  apply Hk. intros ->. apply Hm. reflexivity.
Qed.

Lemma avoids_ret {A} (x a : A) : a <> x -> avoids x (ret a).
Proof. intros Hne c [= ->]. apply Hne. reflexivity. Qed.

Lemma avoids_raise {A} (x : A) e : avoids x (raise e).
Proof. intros c. discriminate. Qed.

Lemma avoids_status_check lbl progress loss :
  avoids (Return false)
    (stop <~ call_back w (EvTrain lbl progress loss) ;;
     if stop then _log w MsgStopRequest ;;; ret (Return false) else ret Next).
Proof.
  intros c. unfold bind, call_back at 1. rewrite statuses_continue. discriminate.
Qed.

Lemma avoids_micro_batch lbl mbs g n i_th start_idx :
  avoids (Return false) (micro_batch w lbl mbs g n i_th start_idx).
Proof.
  unfold micro_batch. cbv zeta.
  repeat first
    [ apply avoids_status_check
    | apply avoids_bind; intros ?
    | apply avoids_ret; discriminate
    | match goal with |- avoids _ (if ?b then _ else _) => destruct b end ].
Qed.

Lemma avoids_for_micro_batches lbl mbs g n starts :
  forall i_th, avoids (Return false) (for_micro_batches w lbl mbs g n i_th starts).
Proof.
  induction starts as [|start_idx rest IH]; intros i_th; cbn [for_micro_batches].
  - apply avoids_ret. discriminate.
  - apply (avoids_after (Return false)); [apply avoids_micro_batch|].
    intros [|[]] Hne; [apply IH|apply avoids_ret; discriminate|contradiction].
Qed.

Lemma avoids_epoch_body name n_epochs g indexes epoch :
  avoids (Return false) (epoch_body w name n_epochs g indexes epoch).
Proof.
  unfold epoch_body. cbv zeta.
  repeat (apply avoids_bind; intros ?). apply avoids_for_micro_batches.
Qed.

Lemma avoids_for_epochs name n_epochs g indexes epochs :
  avoids (Return false) (for_epochs w name n_epochs g indexes epochs).
Proof.
  induction epochs as [|epoch rest IH]; cbn [for_epochs].
  - apply avoids_ret. discriminate.
  - apply (avoids_after (Return false)); [apply avoids_epoch_body|].
    intros [|[]] Hne; [apply IH|apply avoids_ret; discriminate|contradiction].
Qed.

Lemma avoids__train_phase name n_epochs lr indexes :
  avoids false (_train_phase w name n_epochs lr indexes).
Proof.
  unfold _train_phase.
  destruct (negb (n_epochs >? 0)); [apply avoids_ret; discriminate|].
  apply avoids_bind; intros _. apply avoids_bind; intros [self_model|];
    [|apply avoids_raise].
  destruct (trainable_params self_model).
  - apply avoids_bind; intros _. apply avoids_ret. discriminate.
  - do 6 (apply avoids_bind; intros ?).
    apply (avoids_after (Return false)); [apply avoids_for_epochs|].
    intros [|[]] Hne; [|apply avoids_ret; discriminate|contradiction].
    repeat (apply avoids_bind; intros ?). apply avoids_ret. discriminate.
Qed.

Lemma avoids_for_phases phases indexes :
  avoids false (for_phases w phases indexes).
Proof.
  induction phases as [|[[[name setup_func] epochs] lr] rest IH]; cbn [for_phases].
  - apply avoids_ret. discriminate.
  - do 2 (apply avoids_bind; intros ?).
    apply (avoids_after false); [apply avoids__train_phase|].
    intros [] Hne; [apply IH|contradiction].
Qed.

Lemma avoids_run_try : avoids "ABORTED" (run_try w).
Proof.
  unfold run_try. cbv zeta.
  repeat lazymatch goal with
         | |- avoids _ (bind (for_phases _ _ _) _) => fail
         | |- avoids _ (bind _ _) => apply avoids_bind; intros ?
         end.
  apply (avoids_after false); [apply avoids_for_phases|].
  intros [] Hne; [|contradiction].
  repeat (apply avoids_bind; intros ?). apply avoids_ret. discriminate.
Qed.

(** X11. Only a training status can cancel a run. When the callback does
    not answer STOP to a training status, the run does not end ABORTED,
    whatever the callback answers to log lines, to the progress events of
    the evaluation, to the error event and to the final event: those
    answers are not read. *)
Theorem only_training_statuses_cancel (c : TrainingController) :
  exists seg status answer,
    trace (run w c).2 = trace c ++ seg
    /\ last seg = Some (Callback (EvDone status) answer)
    /\ (status = "COMPLETED" \/ status = "FAILED").
Proof.
  unfold run, bind. cbn [emit modify].
  set (c0 := set_trace (trace c ++ [MonitorStart]) c).
  destruct (run_try_except_spec w c0) as (s1 & status & c1 & E1 & Ht1 & _ & Hs).
  assert (Hne : status <> "ABORTED").
  { intros ->. unfold run_try_except in E1.
    pose proof (avoids_run_try c0) as Ha.
    destruct (run_try w c0) as [[status|e] c2]; cbn [fst] in *.
    - apply Ha. congruence.
    - pose proof (run_except_result w e c2) as Hr. rewrite E1 in Hr.
      discriminate Hr. }
  rewrite E1.
  destruct (run_finally_spec w status c1)
    as (s2 & answer & c2 & E2 & Ht2 & Hlast & _).
  rewrite E2. cbn [ret fst snd].
  exists (MonitorStart :: s1 ++ s2), status, answer.
  split.
  { rewrite Ht2, Ht1. unfold c0. cbn [trace set_trace].
    rewrite <- !app_assoc. reflexivity. }
  split; [rewrite last_cons, last_app, Hlast; reflexivity|].
  destruct Hs as [Hs|[Hs|Hs]]; [left; exact Hs|contradiction|right; exact Hs].
Qed.

End Cancelling.

Lemma only_training_statuses_cancel_witness :
  let w := example_world (example_dataset 4) (fun _ => 1%nat) stop_on_everything_else in
  let c := __init__ (example_hp_int 4 2 1 1 1 1) example_hp_real in
  exists seg status answer,
    trace (run w c).2 = trace c ++ seg
    /\ last seg = Some (Callback (EvDone status) answer)
    /\ (status = "COMPLETED" \/ status = "FAILED").
Proof.
  cbv zeta.
  apply (only_training_statuses_cancel
           (example_world (example_dataset 4) (fun _ => 1%nat) stop_on_everything_else)).
  reflexivity.
Defined.

(** ** The evaluation loop *)

Section EvaluationLoop.

Variable w : world.

Hypothesis no_fault : forall s a, fault w s a = None.

Local Open Scope ctl_scope.
Local Open Scope Z_scope.

Lemma evaluated_batches_app s1 s2 :
  evaluated_batches (s1 ++ s2) = evaluated_batches s1 ++ evaluated_batches s2.
Proof. unfold evaluated_batches. apply omap_app. Qed.

Lemma evaluation_progress_app s1 s2 :
  evaluation_progress (s1 ++ s2) = evaluation_progress s1 ++ evaluation_progress s2.
Proof. unfold evaluation_progress. apply omap_app. Qed.

Lemma for_eval_batches_exact total starts :
  forall c,
    exists seg c',
      for_eval_batches w total starts c = (Ok tt, c')
      /\ trace c' = trace c ++ seg
      /\ visualizer c' = visualizer c
      /\ evaluated_batches seg = starts
      /\ evaluation_progress seg
         = map (fun i => (inject_Z (i + 1) / inject_Z total)%Q) starts.
Proof.
  induction starts as [|i rest IH]; intros c; cbn [for_eval_batches].
  - exists [], c. rewrite app_nil_r. repeat split; reflexivity.
  - cbv zeta. unfold bind at 1. unfold call_back at 1.
    unfold bind at 1. unfold perform at 1. rewrite no_fault.
    unfold emit, modify. cbn [set_trace trace global_step_count].
    match goal with |- context [for_eval_batches w total rest ?c0] =>
      destruct (IH c0) as (seg & c' & E & Ht & Hv & Hb & Hp)
    end.
    rewrite E.
    eexists (_ :: EvalBatch i :: seg), c'. split; [reflexivity|].
    split; [rewrite Ht; cbn [trace set_trace]; rewrite <- !app_assoc; reflexivity|].
    split; [rewrite Hv; reflexivity|].
    split; [cbn; rewrite <- Hb; reflexivity|].
    cbn [map]. rewrite <- Hp. reflexivity.
Qed.

Lemma batch_progress_bounds (n i : Z) :
  0 <= i < n -> (0 < inject_Z (i + 1) / inject_Z n <= 1)%Q.
Proof.
  intros Hi.
  assert (Hn : (0 < inject_Z n)%Q).
  { change 0%Q with (inject_Z 0). rewrite <- Zlt_Qlt. lia. }
  split.
  - apply Qlt_shift_div_l; [exact Hn|]. rewrite Qmult_0_l.
    change 0%Q with (inject_Z 0). rewrite <- Zlt_Qlt. lia.
  - apply Qle_shift_div_r; [exact Hn|]. rewrite Qmult_1_l.
    rewrite <- Zle_Qle. lia.
Qed.

(** X12. The evaluation cannot be cancelled and reports its progress ahead
    of the work: when no collaborator raises, [_evaluate] returns after
    evaluating every batch of the test set, whatever the callback answers.
    Before the batch that starts at position [i] it reports the progress
    [(i + 1) / n], which lies in (0, 1]; so the first report is [1 / n],
    and the last one is the position after the start of the last batch,
    not the end of the test set. *)
Theorem evaluation_runs_every_batch (c : TrainingController)
    (test : LogDataset) (batch_size : Z) :
  test_dataset c = Some test ->
  hp_int c !! "batch_size" = Some batch_size ->
  0 < batch_size ->
  visualizer c = true ->
  exists seg starts,
    (_evaluate w c).1 = Ok tt
    /\ trace (_evaluate w c).2 = trace c ++ seg
    /\ py_range (ds_len test) batch_size = Ok starts
    /\ evaluated_batches seg = starts
    /\ evaluation_progress seg
       = map (fun i => (inject_Z (i + 1) / inject_Z (Z.of_nat (ds_len test)))%Q)
             starts
    /\ Forall (fun p => (0 < p <= 1)%Q) (evaluation_progress seg).
Proof.
  intros Htest Hbs Hpos Hvis.
  assert (Hr : py_range (ds_len test) batch_size
               = Ok (range_from (ds_len test) 0 (Z.of_nat (ds_len test)) batch_size)).
  { unfold py_range.
    destruct (Z.eqb_spec batch_size 0); [lia|].
    destruct (Z.ltb_spec batch_size 0); [lia|reflexivity]. }
  set (starts := range_from (ds_len test) 0 (Z.of_nat (ds_len test)) batch_size) in *.
  set (a0 := Callback (EvLog MsgStartingEvaluation)
               (callback w (trace c) (EvLog MsgStartingEvaluation))).
  set (closing_calls := [ComputeMetrics; PlotConfusionMatrix; PlotOverallMetrics;
                         PlotTrainingLoss]).
  assert (HE : exists seg c',
             _evaluate w c = (Ok tt, c')
             /\ trace c' = trace c ++ a0 :: GetAllLabels :: seg ++ closing_calls
             /\ evaluated_batches seg = starts
             /\ evaluation_progress seg
                = map (fun i => (inject_Z (i + 1)
                                 / inject_Z (Z.of_nat (ds_len test)))%Q) starts).
  { unfold _evaluate, _log.
    unfold bind at 1 2. unfold call_back at 1. unfold ret at 1.
    unfold bind at 1 2. unfold perform at 1. rewrite no_fault.
    unfold emit at 1. unfold modify at 1.
    unfold bind at 1. unfold gets at 1.
    cbn [test_dataset set_trace]. rewrite Htest.
    unfold bind at 1. unfold gets at 1. cbn [hp_int set_trace].
    unfold bind at 1. unfold lift at 1. unfold hp_item. rewrite Hbs.
    unfold bind at 1. unfold lift at 1. rewrite Hr.
    unfold bind at 1 2.
    match goal with |- context [for_eval_batches w ?t starts ?c0] =>
      destruct (for_eval_batches_exact t starts c0)
        as (seg & c1 & E & Ht & Hv & Hb & Hp)
    end.
    rewrite E. cbn [trace set_trace visualizer] in Ht, Hv.
    unfold perform at 1. rewrite no_fault. unfold emit at 1. unfold modify at 1.
    unfold bind at 1. unfold gets at 1. cbn [visualizer set_trace].
    rewrite Hv, Hvis.
    unfold bind, perform, emit, modify.
    repeat (first [ rewrite no_fault
                  | progress cbn [global_step_count set_trace fst snd trace] ]).
    exists seg. eexists. split; [reflexivity|].
    split; [|split; [exact Hb|exact Hp]].
    cbn [trace set_trace]. rewrite Ht. unfold closing_calls.
    repeat rewrite <- app_assoc. reflexivity. }
  destruct HE as (seg & c' & E & Ht & Hb & Hp). rewrite E. cbn [fst snd].
  assert (Hp' : evaluation_progress (a0 :: GetAllLabels :: seg ++ closing_calls)
                = map (fun i => (inject_Z (i + 1)
                                 / inject_Z (Z.of_nat (ds_len test)))%Q) starts).
  { change (evaluation_progress (a0 :: GetAllLabels :: seg ++ closing_calls))
      with (evaluation_progress (seg ++ closing_calls)).
    rewrite evaluation_progress_app, Hp. cbn. apply app_nil_r. }
  exists (a0 :: GetAllLabels :: seg ++ closing_calls), starts.
  split; [reflexivity|]. split; [exact Ht|]. split; [exact Hr|].
  split.
  { change (evaluated_batches (a0 :: GetAllLabels :: seg ++ closing_calls))
      with (evaluated_batches (seg ++ closing_calls)).
    rewrite evaluated_batches_app, Hb. cbn. apply app_nil_r. }
  split; [exact Hp'|].
  rewrite Hp'. apply Forall_map.
  eapply Forall_impl;
    [apply (range_from_bounds (Z.of_nat (ds_len test)) batch_size Hpos); lia|].
  intros i Hi. cbn beta in *. apply batch_progress_bounds. exact Hi.
Qed.

End EvaluationLoop.

Lemma evaluation_runs_every_batch_witness :
  let w := example_world (example_dataset 4) (fun _ => 1%nat) stop_on_everything_else in
  let c := set_visualizer true
             (set_test_dataset (Some (example_dataset 5))
                (__init__ (example_hp_int 4 2 1 1 1 1) example_hp_real)) in
  exists seg starts,
    (_evaluate w c).1 = Ok tt
    /\ trace (_evaluate w c).2 = trace c ++ seg
    /\ py_range (ds_len (example_dataset 5)) 4 = Ok starts
    /\ evaluated_batches seg = starts
    /\ evaluation_progress seg
       = map (fun i => (inject_Z (i + 1)
                        / inject_Z (Z.of_nat (ds_len (example_dataset 5))))%Q)
             starts
    /\ Forall (fun p => (0 < p <= 1)%Q) (evaluation_progress seg).
Proof.
  cbv zeta.
  apply (evaluation_runs_every_batch
           (example_world (example_dataset 4) (fun _ => 1%nat) stop_on_everything_else)).
  - reflexivity.
  - reflexivity.
  - vm_compute. reflexivity.
  - lia.
  - reflexivity.
Defined.

(** ** The steps of an epoch *)

Section EpochSteps.

Variable w : world.

Local Open Scope ctl_scope.
Local Open Scope Z_scope.

Lemma range_from_length (stop step : Z) :
  0 < step ->
  forall fuel start,
    stop - start <= Z.of_nat fuel ->
    Z.of_nat (length (range_from fuel start stop step))
    = Z.max 0 ((stop - start + step - 1) / step).
Proof.
  intros Hstep. induction fuel as [|fuel IH]; intros start Hfuel; cbn [range_from].
  - cbn [length]. assert ((stop - start + step - 1) / step <= 0); [|lia].
    apply Z.lt_succ_r. apply Z.div_lt_upper_bound; lia.
  - destruct (Z.ltb_spec start stop) as [Hlt|Hge].
    + cbn [length]. rewrite Nat2Z.inj_succ, IH by lia.
      replace (stop - start + step - 1) with (stop - (start + step) + step - 1 + 1 * step)
        by lia.
      rewrite Z.div_add by lia.
      assert (0 <= (stop - (start + step) + step - 1) / step); [|lia].
      apply Z.div_pos; lia.
    + cbn [length]. assert ((stop - start + step - 1) / step <= 0); [|lia].
      apply Z.lt_succ_r. apply Z.div_lt_upper_bound; lia.
Qed.

Lemma ceiling_div (n m : Z) :
  0 <= n -> 0 < m ->
  (n + m - 1) / m = n / m + (if n mod m =? 0 then 0 else 1).
Proof.
  intros Hn Hm. pose proof (Z.div_mod n m ltac:(lia)) as Hd.
  pose proof (Z.mod_pos_bound n m Hm) as Hr.
  destruct (Z.eqb_spec (n mod m) 0) as [H0|H0].
  - symmetry. apply (Z.div_unique _ _ _ (m - 1)); lia.
  - symmetry. apply (Z.div_unique _ _ _ (n mod m - 1)); lia.
Qed.

Lemma for_micro_batches_steps lbl mbs g n starts :
  forall i_th c,
    (for_micro_batches w lbl mbs g n i_th starts c).1 = Ok Next ->
    global_step_count (for_micro_batches w lbl mbs g n i_th starts c).2
    = global_step_count c + Z.of_nat (length starts).
Proof.
  induction starts as [|start_idx rest IH]; intros i_th c; cbn [for_micro_batches].
  - intros _. cbn. lia.
  - unfold bind.
    pose proof (micro_batch_step w lbl mbs g n i_th start_idx c) as Hstep.
    cbv zeta in Hstep. destruct Hstep as (_ & _ & Hg & _).
    destruct (micro_batch w lbl mbs g n i_th start_idx c) as [[[|b]|e] c1];
      cbn [fst snd] in *; try discriminate.
    intros Hnext. rewrite (IH _ _ Hnext), Hg. cbn [length]. lia.
Qed.

(** X13. An epoch that runs to its end takes one global step per
    micro-batch, the trailing partial one included: with [n] indexes and a
    positive micro-batch size [m] the step count goes up by the ceiling of
    [n / m], whichever micro-batches were skipped. That is the [n // m] of
    the step budget when [m] divides [n], and one step more per epoch when
    it does not. *)
Theorem epoch_takes_one_step_per_micro_batch (c : TrainingController)
    (name : string) (n_epochs g : Z) (indexes : list Z) (epoch : Z) (m : Z) :
  hp_int c !! "micro_batch_size" = Some m ->
  0 < m ->
  (epoch_body w name n_epochs g indexes epoch c).1 = Ok Next ->
  let n := Z.of_nat (length indexes) in
  global_step_count (epoch_body w name n_epochs g indexes epoch c).2
  = global_step_count c + n / m + (if n mod m =? 0 then 0 else 1).
Proof.
  intros Hm Hpos. cbv zeta.
  assert (Hr : py_range (length indexes) m
               = Ok (range_from (length indexes) 0 (Z.of_nat (length indexes)) m)).
  { unfold py_range.
    destruct (Z.eqb_spec m 0); [lia|].
    destruct (Z.ltb_spec m 0); [lia|reflexivity]. }
  unfold epoch_body, _log. cbv zeta.
  unfold bind, call_back, ret, perform, emit, modify, gets, lift, hp_item.
  cbn [global_step_count set_trace hp_int].
  destruct (fault w (global_step_count c) ZeroGrad); [discriminate|].
  cbn [global_step_count set_trace hp_int]. rewrite Hm, Hr.
  intros Hnext. rewrite (for_micro_batches_steps _ _ _ _ _ _ _ Hnext).
  cbn [global_step_count set_trace].
  rewrite (range_from_length _ _ Hpos) by lia.
  rewrite Z.sub_0_r, ceiling_div by lia.
  assert (0 <= Z.of_nat (length indexes) / m) by (apply Z.div_pos; lia).
  destruct (Z.of_nat (length indexes) mod m =? 0); lia.
Qed.

End EpochSteps.

Lemma epoch_takes_one_step_per_micro_batch_witness :
  let w := example_world (example_dataset 5) (fun _ => 1%nat) never_stop in
  let c := __init__ (example_hp_int 4 2 1 1 1 1) example_hp_real in
  global_step_count (epoch_body w "Projector" 1 2 [0; 1; 2; 3; 4]%Z 0 c).2
  = (global_step_count c + 5 / 2 + (if 5 mod 2 =? 0 then 0 else 1))%Z.
Proof.
  apply (epoch_takes_one_step_per_micro_batch
           (example_world (example_dataset 5) (fun _ => 1%nat) never_stop)
           (__init__ (example_hp_int 4 2 1 1 1 1) example_hp_real)
           "Projector" 1 2 [0; 1; 2; 3; 4]%Z 0 2).
  - vm_compute. reflexivity.
  - lia.
  - vm_compute. reflexivity.
Defined.

(** ** Oversampling of the minority class *)

Section OversamplingApplied.

Variable w : world.

Local Open Scope Z_scope.

Lemma draw_in_list (l : list Z) (d : Z) (n : nat) :
  l <> [] -> nth (n mod length l)%nat l d ∈ l.
Proof.
  intros Hl. apply list_elem_of_In, nth_In. apply Nat.mod_upper_bound.
  destruct l; [contradiction|discriminate].
Qed.

(** X14. Oversampling only ever appends minority indexes. Whichever way
    the guard of line 180 and the count of line 181 turn out, an index
    list that [run] obtains has every index of the training set at its
    front, in order, and every index after them is one of [less_indexes];
    nothing is appended when the minority class is empty. How many
    indexes are appended is not stated. *)
Theorem oversampling_appends_minority_indexes
    (hp : gmap string Q) (train : LogDataset) (c : TrainingController)
    (indexes : list Z) :
  (oversample w hp train c).1 = Ok indexes ->
  exists extra,
    indexes = map Z.of_nat (seq 0 (ds_len train)) ++ extra
    /\ Forall (fun i => i ∈ less_indexes train) extra
    /\ (num_less train <= 0 -> extra = []).
Proof.
  assert (Hbase : forall l : list Z,
             exists extra, l = l ++ extra
                           /\ Forall (fun i => i ∈ less_indexes train) extra
                           /\ (num_less train <= 0 -> extra = [])).
  { intros l. exists []. rewrite app_nil_r. repeat split. constructor. }
  unfold oversample, bind, _log, call_back, ret, raise, lift. cbv zeta.
  destruct (Z.gtb_spec (num_less train) 0) as [Hless|Hless].
  2:{ intros [= <-]. apply Hbase. }
  destruct (ds_len train =? 0)%nat; [discriminate|].
  destruct (negb _).
  2:{ intros [= <-]. apply Hbase. }
  destruct (hp_item hp "min_less_portion") as [p|e]; [|discriminate].
  destruct (Qeq_bool _ _); [discriminate|].
  destruct (_ >? 0)%Z.
  2:{ intros [= <-]. apply Hbase. }
  destruct (less_indexes train) as [|first others] eqn:El; [discriminate|].
  cbn [fst snd]. intros Heq. injection Heq as Heq. subst indexes.
  eexists. split; [reflexivity|]. split; [|lia].
  apply Forall_map, Forall_forall. intros k _.
  apply (draw_in_list (first :: others) first (choice_draw w k)). discriminate.
Qed.

End OversamplingApplied.

Lemma oversampling_appends_minority_indexes_witness :
  let w := example_world (example_dataset 4) (fun _ => 1%nat) never_stop in
  let hp : gmap string Q := <[ "min_less_portion" := (1 # 2)%Q ]> example_lr in
  let c := __init__ (example_hp_int 4 2 1 1 1 1) hp in
  exists extra,
    [0; 1; 2; 3; 0; 0]%Z = map Z.of_nat (seq 0 (ds_len (example_dataset 4))) ++ extra
    /\ Forall (fun i => i ∈ less_indexes (example_dataset 4)) extra
    /\ ((num_less (example_dataset 4) <= 0)%Z -> extra = []).
Proof.
  cbv zeta.
  apply (oversampling_appends_minority_indexes
           (example_world (example_dataset 4) (fun _ => 1%nat) never_stop)
           (<[ "min_less_portion" := (1 # 2)%Q ]> example_lr)
           (example_dataset 4)
           (__init__ (example_hp_int 4 2 1 1 1 1)
                     (<[ "min_less_portion" := (1 # 2)%Q ]> example_lr))).
  vm_compute. reflexivity.
Defined.

(** ** The order of the phases *)

Section Curriculum.

Variable w : world.

Local Open Scope ctl_scope.

Lemma modes_of_app s1 s2 : modes_of (s1 ++ s2) = modes_of s1 ++ modes_of s2.
Proof. unfold modes_of. apply omap_app. Qed.

Lemma modes_of_modeless seg :
  Forall (fun a => modeless a = true) seg -> modes_of seg = [].
Proof.
  induction 1 as [|a seg Ha _ IH]; [reflexivity|].
  destruct a; try discriminate Ha; exact IH.
Qed.

Lemma phase_action_modeless a : phase_action a = true -> modeless a = true.
Proof. revert a. action_cases. Qed.

Lemma evaluation_action_modeless a : evaluation_action a = true -> modeless a = true.
Proof. revert a. action_cases. Qed.

Lemma before_training_modeless a : before_training a = true -> modeless a = true.
Proof. revert a. action_cases. Qed.

Lemma closing_modeless a : closing a = true -> modeless a = true.
Proof. revert a. action_cases. Qed.

Lemma modeless_micro_batch lbl mbs g n i_th start_idx :
  only modeless (micro_batch w lbl mbs g n i_th start_idx).
Proof.
  intros c.
  destruct (micro_batch_step w lbl mbs g n i_th start_idx c)
    as (_ & _ & _ & seg & Ht & _ & Hs & _).
  exists seg. split; [exact Ht|].
  eapply Forall_impl; [exact Hs|]. exact phase_action_modeless.
Qed.

#[local] Hint Resolve modeless_micro_batch : only_db.

Lemma modeless_for_micro_batches lbl mbs g n starts :
  forall i_th, only modeless (for_micro_batches w lbl mbs g n i_th starts).
Proof.
  induction starts as [|start_idx rest IH]; intros i_th; cbn [for_micro_batches];
    only_tac.
Qed.

#[local] Hint Resolve modeless_for_micro_batches : only_db.

Lemma modeless_epoch_body name n_epochs g indexes epoch :
  only modeless (epoch_body w name n_epochs g indexes epoch).
Proof. unfold epoch_body. cbv zeta. only_tac. Qed.

#[local] Hint Resolve modeless_epoch_body : only_db.

Lemma modeless_for_epochs name n_epochs g indexes epochs :
  only modeless (for_epochs w name n_epochs g indexes epochs).
Proof. induction epochs as [|epoch rest IH]; cbn [for_epochs]; only_tac. Qed.

#[local] Hint Resolve modeless_for_epochs : only_db.

Lemma modeless__train_phase name n_epochs lr indexes :
  only modeless (_train_phase w name n_epochs lr indexes).
Proof. unfold _train_phase. only_tac. Qed.

Lemma modeless__evaluate : only modeless (_evaluate w).
Proof.
  eapply only_weaken; [exact evaluation_action_modeless|apply only__evaluate].
Qed.

Lemma modeless__initialize_run : only modeless (_initialize_run w).
Proof.
  eapply only_weaken; [exact before_training_modeless|].
  apply before_training__initialize_run.
Qed.

Lemma modeless_oversample hp train : only modeless (oversample w hp train).
Proof.
  eapply only_weaken; [exact before_training_modeless|].
  apply before_training_oversample.
Qed.

Lemma modeless_run_except e : only modeless (run_except w e).
Proof. unfold run_except. only_tac. Qed.

Lemma absorbs_modeless {A} modes (done : result A) :
  (forall e, done <> Raise e) -> absorbs modeless (staged modes done).
Proof.
  intros Hdone. split.
  - intros r s1 s2 H1 [Hp He]. unfold staged.
    rewrite modes_of_app, (modes_of_modeless _ H1). auto.
  - intros e s1 H1. unfold staged. rewrite (modes_of_modeless _ H1). split.
    + apply prefix_nil.
    + intros E. symmetry in E. destruct (Hdone e E).
Qed.

Lemma perform_once (a : action) :
  extends (perform w a)
    (fun r seg => (r = Ok tt /\ seg = [a]) \/ ((exists e, r = Raise e) /\ seg = [])).
Proof.
  intros c. unfold perform. destruct (fault w (global_step_count c) a) as [e|].
  - exists []. cbn. rewrite app_nil_r. split; [reflexivity|]. right. eauto.
  - exists [a]. cbn. split; [reflexivity|]. left. auto.
Qed.

Lemma staged_for_phases phases indexes :
  extends (for_phases w phases indexes) (staged (modes_listed phases) (Ok true)).
Proof.
  pose proof modeless__train_phase.
  induction phases as [|[[[name setup_func] epochs] lr] rest IH]; cbn [for_phases].
  - apply extends_ret. split; [apply prefix_nil|reflexivity].
  - eapply (extends_bind _ _ _ (fun _ => staged (modes_listed rest) (Ok true))).
    + apply perform_once.
    + intros _.
      repeat lazymatch goal with
             | |- extends (bind _ _) _ =>
                 apply (extends_prefix modeless);
                 [apply absorbs_modeless; discriminate | solve [only_tac; auto]
                 | intros ?]
             end.
      match goal with |- extends (if ?b then _ else _) _ => destruct b end.
      * exact IH.
      * apply extends_ret. split; [apply prefix_nil|discriminate].
    + intros [] s1 r s2 [[_ ->]|[[e He] _]] [Hp He']; [|discriminate He].
      unfold staged. cbn [app modes_listed map fst snd].
      change (modes_of (SetMode setup_func :: s2)) with (setup_func :: modes_of s2).
      split; [apply prefix_cons, Hp|]. intros E. f_equal. apply He', E.
    + intros e s1 [[He _]|[_ ->]]; [discriminate He|].
      split; [apply prefix_nil|discriminate].
Qed.

Lemma staged_run_try : extends (run_try w) (staged curriculum (Ok "COMPLETED")).
Proof.
  pose proof modeless__initialize_run. pose proof modeless_oversample.
  pose proof modeless__evaluate.
  unfold run_try. cbv zeta.
  repeat lazymatch goal with
         | |- extends (bind (for_phases _ _ _) _) _ => fail
         | |- extends (bind _ _) _ =>
             apply (extends_prefix modeless);
             [apply absorbs_modeless; discriminate | solve [only_tac; auto]
             | intros ?]
         end.
  eapply extends_bind.
  - apply staged_for_phases.
  - intros ok.
    apply (extends_weaken _
             (fun r seg => Forall (fun a => modeless a = true) seg
                           /\ (ok = false -> r <> Ok "COMPLETED"))).
    + destruct ok.
      * eapply extends_weaken; [|intros r s Hs; split; [exact Hs|discriminate]].
        change (only modeless
                  (_evaluate w ;;; perform w SavePerformanceMetrics ;;;
                   perform w SaveFtModel ;;; ret "COMPLETED")).
        only_tac; auto.
      * apply extends_ret. split; [constructor|]. intros _. discriminate.
    + intros r s Hs. exact Hs.
  - intros ok s1 r s2 [Hp He] [Hs2 Hr]. unfold staged.
    rewrite modes_of_app, (modes_of_modeless _ Hs2), app_nil_r.
    split; [exact Hp|]. intros ->. apply He.
    destruct ok; [reflexivity|]. exfalso. apply Hr; reflexivity.
  - intros e s1 [Hp _]. split; [exact Hp|discriminate].
Qed.

(** X15. The stager is always called along the curriculum: whatever path
    a run takes, the modes it has set are, in order, a prefix of projector,
    classifier, projector and classifier, full fine-tuning, each set at
    most once. A completed run has set all four, the phases with no epochs
    included, so that the last mode it has set is full fine-tuning. *)
Theorem phases_follow_the_curriculum (c : TrainingController) :
  exists seg status answer,
    trace (run w c).2 = trace c ++ seg
    /\ last seg = Some (Callback (EvDone status) answer)
    /\ modes_of seg `prefix_of` curriculum
    /\ (status = "COMPLETED" -> modes_of seg = curriculum).
Proof.
  unfold run, bind. cbn [emit modify].
  set (c0 := set_trace (trace c ++ [MonitorStart]) c).
  assert (Hte : exists s1 status c1,
             run_try_except w c0 = (Ok status, c1)
             /\ trace c1 = trace c0 ++ s1
             /\ staged curriculum (Ok "COMPLETED") (Ok status) s1).
  { unfold run_try_except.
    destruct (staged_run_try c0) as (s1 & Ht1 & HQ).
    destruct (run_try w c0) as [[status|e] c1]; cbn [fst snd] in *.
    - exists s1, status, c1. auto.
    - destruct (modeless_run_except e c1) as (s2 & Ht2 & Hq2).
      pose proof (run_except_result w e c1) as Hr.
      destruct (run_except w e c1) as [r c2]; cbn [fst snd] in *. subst r.
      exists (s1 ++ s2), "FAILED", c2. rewrite Ht2, Ht1, app_assoc.
      split; [reflexivity|]. split; [reflexivity|].
      destruct HQ as [Hp _]. unfold staged.
      rewrite modes_of_app, (modes_of_modeless _ Hq2), app_nil_r.
      split; [exact Hp|discriminate]. }
  destruct Hte as (s1 & status & c1 & E1 & Ht1 & Hp & He). rewrite E1.
  destruct (run_finally_spec w status c1)
    as (s2 & answer & c2 & E2 & Ht2 & Hlast & Hcl & _).
  rewrite E2. cbn [ret fst snd].
  assert (Hm2 : modes_of s2 = []).
  { apply modes_of_modeless. eapply Forall_impl; [exact Hcl|].
    exact closing_modeless. }
  exists (MonitorStart :: s1 ++ s2), status, answer.
  split.
  { rewrite Ht2, Ht1. unfold c0. cbn [trace set_trace].
    rewrite <- !app_assoc. reflexivity. }
  split; [rewrite last_cons, last_app, Hlast; reflexivity|].
  change (modes_of (MonitorStart :: s1 ++ s2)) with (modes_of (s1 ++ s2)).
  rewrite modes_of_app, Hm2, app_nil_r.
  split; [exact Hp|]. intros ->. apply He. reflexivity.
Qed.

End Curriculum.

(** ** A batch size below the micro-batch size *)

Section ZeroAccumulation.

Variable w : world.

Local Open Scope ctl_scope.
Local Open Scope Z_scope.

Lemma gradless_stepless a : gradless a = true -> stepless a = true.
Proof. unfold gradless. intros H. apply andb_true_iff in H. apply H. Qed.

Lemma absorbs_gradless {A} (v : A) : absorbs gradless (barren v).
Proof.
  split.
  - intros r s1 s2 H1 [Hs Hr]. split.
    + apply Forall_app. split; [|exact Hs].
      eapply Forall_impl; [exact H1|]. exact gradless_stepless.
    + destruct Hr as [[Hr Hg]|Hr]; [left|right; exact Hr].
      split; [exact Hr|]. apply Forall_app. auto.
  - intros e s1 H1. split; [|right; eauto].
    eapply Forall_impl; [exact H1|]. exact gradless_stepless.
Qed.

(** A loop body that is barren makes a barren loop. *)
Lemma barren_bind {A B} (a0 : A) (v : B) (m : M A) (k : A -> M B) :
  extends m (barren a0) -> extends (k a0) (barren v) -> extends (bind m k) (barren v).
Proof.
  intros Hm Hk c. unfold bind.
  destruct (Hm c) as (s1 & Ht1 & Hs1 & Hr1).
  destruct (m c) as [[a|e] c1]; cbn [fst snd] in *.
  - destruct Hr1 as [[[= ->] Hg1]|[e He]]; [|discriminate He].
    destruct (Hk c1) as (s2 & Ht2 & HQ).
    exists (s1 ++ s2). rewrite Ht2, Ht1, app_assoc. split; [reflexivity|].
    apply (proj1 (absorbs_gradless v)); assumption.
  - exists s1. split; [exact Ht1|]. split; [exact Hs1|]. right. eauto.
Qed.

Ltac gradless_prefix :=
  repeat lazymatch goal with
         | |- extends (bind (perform _ Backward) _) _ => fail
         | |- extends (bind (for_epochs _ _ _ _ _ _) _) _ => fail
         | |- extends (bind (for_micro_batches _ _ _ _ _ _ _) _) _ => fail
         | |- extends (bind _ _) _ =>
             apply (extends_prefix gradless);
             [exact (absorbs_gradless _) | solve [only_tac] | intros ?]
         end.

Lemma barren_micro_batch lbl mbs n i_th start_idx :
  extends (micro_batch w lbl mbs 0 n i_th start_idx) (barren Next).
Proof.
  unfold micro_batch. cbv zeta. gradless_prefix.
  match goal with |- extends (if ?b then _ else _) _ => destruct b end.
  { apply extends_ret. split; [constructor|]. left. split; [reflexivity|constructor]. }
  gradless_prefix.
  match goal with |- extends (if ?b then _ else _) _ => destruct b end.
  { apply extends_ret. split; [constructor|]. left. split; [reflexivity|constructor]. }
  eapply (extends_bind _ _ _
            (fun _ r seg => seg = [] /\ exists e, r = Raise e)).
  - apply perform_once.
  - intros _ c. exists []. cbn. rewrite app_nil_r. eauto.
  - intros [] s1 r s2 [[_ ->]|[[e He] _]] [-> Hr]; [|discriminate He].
    split; [repeat constructor|right; exact Hr].
  - intros e s1 [[He _]|[_ ->]]; [discriminate He|].
    split; [constructor|right; eauto].
Qed.

Lemma barren_for_micro_batches lbl mbs n starts :
  forall i_th, extends (for_micro_batches w lbl mbs 0 n i_th starts) (barren Next).
Proof.
  induction starts as [|start_idx rest IH]; intros i_th; cbn [for_micro_batches].
  - apply extends_ret. split; [constructor|]. left. split; [reflexivity|constructor].
  - apply (barren_bind Next); [apply barren_micro_batch|apply IH].
Qed.

Lemma barren_epoch_body name n_epochs indexes epoch :
  extends (epoch_body w name n_epochs 0 indexes epoch) (barren Next).
Proof.
  unfold epoch_body. cbv zeta. gradless_prefix. apply barren_for_micro_batches.
Qed.

Lemma barren_for_epochs name n_epochs indexes epochs :
  extends (for_epochs w name n_epochs 0 indexes epochs) (barren Next).
Proof.
  induction epochs as [|epoch rest IH]; cbn [for_epochs].
  - apply extends_ret. split; [constructor|]. left. split; [reflexivity|constructor].
  - apply (barren_bind Next); [apply barren_epoch_body|apply IH].
Qed.

Lemma given_extends hi {A} (m : M A) Q : extends m Q -> given hi m Q.
Proof. intros Hm c _. apply Hm. Qed.

Lemma given_prefix hi {A B} (f : action -> bool) (m : M A) (k : A -> M B) Q :
  absorbs f Q -> only f m -> keeps same_hp m ->
  (forall a, given hi (k a) Q) -> given hi (bind m k) Q.
Proof.
  intros (Hab1 & Hab2) Ho Hk Hg c Hi. unfold bind.
  destruct (Ho c) as (s1 & Ht1 & Hs1). destruct (Hk c) as [Hi1 _].
  destruct (m c) as [[a|e] c1]; cbn [fst snd] in *.
  - destruct (Hg a c1) as (s2 & Ht2 & HQ); [congruence|].
    exists (s1 ++ s2). rewrite Ht2, Ht1, app_assoc. split; [reflexivity|].
    apply Hab1; assumption.
  - exists s1. split; [exact Ht1|]. apply Hab2. exact Hs1.
Qed.

Lemma given_gets hi {B} (k : gmap string Z -> M B) Q :
  given hi (k hi) Q -> given hi (bind (gets hp_int) k) Q.
Proof. intros Hg c Hi. unfold bind, gets. rewrite Hi. apply Hg. exact Hi. Qed.

Lemma given_lift hi {A B} (a : A) (k : A -> M B) Q :
  given hi (k a) Q -> given hi (bind (lift (Ok a)) k) Q.
Proof. intros Hg c Hi. apply Hg. exact Hi. Qed.

Lemma barren__train_phase hi name n_epochs lr indexes (b m : Z) :
  hi !! "batch_size" = Some b -> hi !! "micro_batch_size" = Some m ->
  0 <= b < m ->
  given hi (_train_phase w name n_epochs lr indexes) (barren true).
Proof.
  intros Hb Hm Hbm. unfold _train_phase.
  destruct (negb (n_epochs >? 0)).
  { apply given_extends, extends_ret. split; [constructor|].
    left. split; [reflexivity|constructor]. }
  apply (given_prefix hi gradless);
    [exact (absorbs_gradless _) | solve [only_tac] | solve [hp_tac] | intros _].
  apply (given_prefix hi gradless);
    [exact (absorbs_gradless _) | solve [only_tac] | solve [hp_tac]
    | intros [self_model|]].
  2:{ intros c _. exists []. cbn. rewrite app_nil_r. split; [reflexivity|].
      split; [constructor|right; eauto]. }
  destruct (trainable_params self_model).
  { apply given_extends.
    apply (extends_prefix gradless);
      [exact (absorbs_gradless _) | solve [only_tac] | intros _].
    apply extends_ret. split; [constructor|].
    left. split; [reflexivity|constructor]. }
  do 2 (apply (given_prefix hi gradless);
        [exact (absorbs_gradless _) | solve [only_tac] | solve [hp_tac] | intros _]).
  apply given_gets. unfold hp_item. rewrite Hb, Hm.
  do 2 apply given_lift.
  unfold floordiv. destruct (Z.eqb_spec m 0) as [H0|_]; [lia|].
  rewrite (Z.div_small b m Hbm). apply given_lift.
  apply given_extends. apply (barren_bind Next); [apply barren_for_epochs|].
  gradless_prefix. apply extends_ret. split; [constructor|].
  left. split; [reflexivity|constructor].
Qed.

Lemma stepless_no_step a : stepless a = true -> is_optimizer_step a = false.
Proof. revert a. action_cases. Qed.

Lemma gradless_no_backward a : gradless a = true -> is_backward a = false.
Proof. revert a. action_cases. Qed.

Lemma stepless_silent seg :
  Forall (fun a => stepless a = true) seg ->
  reported_progress seg = [] /\ reported_losses seg = [].
Proof.
  induction 1 as [|a seg Ha _ [IH1 IH2]]; [split; reflexivity|].
  destruct a; try discriminate Ha; try (split; assumption).
  destruct e; try discriminate Ha; split; assumption.
Qed.

(** X16. With a batch size below the micro-batch size the number of
    accumulation steps, [batch_size // micro_batch_size], is 0, and a
    training phase learns nothing: on every path it takes no optimizer
    step, reports no training status and adds nothing to the loss series.
    It returns normally only if it made no backward pass at all; once a
    micro-batch has gone through its backward pass, the modulo by the
    accumulation steps raises and the phase ends in an exception. *)
Theorem batch_below_micro_batch_learns_nothing (c : TrainingController)
    (name : string) (n_epochs : Z) (lr : Q) (indexes : list Z) (b m : Z) :
  hp_int c !! "batch_size" = Some b ->
  hp_int c !! "micro_batch_size" = Some m ->
  0 <= b < m ->
  let out := _train_phase w name n_epochs lr indexes c in
  exists seg,
    trace out.2 = trace c ++ seg
    /\ Forall (fun a => is_optimizer_step a = false) seg
    /\ reported_progress seg = []
    /\ batch_losses out.2 = batch_losses c
    /\ ((out.1 = Ok true /\ Forall (fun a => is_backward a = false) seg)
        \/ exists e, out.1 = Raise e).
Proof.
  intros Hb Hm Hbm. cbv zeta.
  destruct (barren__train_phase (hp_int c) name n_epochs lr indexes b m Hb Hm Hbm
              c eq_refl) as (seg & Ht & Hs & Hr).
  destruct (losses__train_phase w name n_epochs lr indexes c) as (seg' & Ht' & Hl).
  assert (seg' = seg) as ->.
  { rewrite Ht in Ht'. apply app_inv_head in Ht'. symmetry. exact Ht'. }
  destruct (stepless_silent seg Hs) as [Hp Hlosses].
  exists seg. split; [exact Ht|]. split.
  { eapply Forall_impl; [exact Hs|]. exact stepless_no_step. }
  split; [exact Hp|]. split; [rewrite Hl, Hlosses, app_nil_r; reflexivity|].
  destruct Hr as [[Hr Hg]|Hr]; [left|right; exact Hr].
  split; [exact Hr|]. eapply Forall_impl; [exact Hg|]. exact gradless_no_backward.
Qed.

End ZeroAccumulation.

Lemma batch_below_micro_batch_learns_nothing_witness :
  let w := example_world (example_dataset 4) (fun _ => 1%nat) never_stop in
  let c := set_model (Some (set_mode ProjectorOnly (toy_model toy_names)))
             (__init__ (example_hp_int 1 2 1 1 1 1) example_hp_real) in
  let out := _train_phase w "Projector" 1 (1 # 1000) [0; 1; 2; 3]%Z c in
  exists seg,
    trace out.2 = trace c ++ seg
    /\ Forall (fun a => is_optimizer_step a = false) seg
    /\ reported_progress seg = []
    /\ batch_losses out.2 = batch_losses c
    /\ ((out.1 = Ok true /\ Forall (fun a => is_backward a = false) seg)
        \/ exists e, out.1 = Raise e).
Proof.
  cbv zeta.
  apply (batch_below_micro_batch_learns_nothing
           (example_world (example_dataset 4) (fun _ => 1%nat) never_stop)
           (set_model (Some (set_mode ProjectorOnly (toy_model toy_names)))
              (__init__ (example_hp_int 1 2 1 1 1 1) example_hp_real))
           "Projector" 1 (1 # 1000) [0; 1; 2; 3]%Z 1 2).
  - vm_compute. reflexivity.
  - vm_compute. reflexivity.
  - lia.
Defined.

(** ** Progress within the step budget *)

Section Pacing.

Variable w : world.
Variable hi : gmap string Z.

Local Open Scope ctl_scope.
Local Open Scope Z_scope.

Lemma still_refl c : still c c.
Proof. repeat split. Qed.

Lemma still_trans c1 c2 c3 : still c1 c2 -> still c2 c3 -> still c1 c3.
Proof.
  intros (A1 & B1 & C1 & D1) (A2 & B2 & C2 & D2). repeat split; congruence.
Qed.

Lemma still_call (a : action) c : a = a -> still c (set_trace (trace c ++ [a]) c).
Proof. intros _. repeat split. Qed.

Lemma still_same c c' :
  hp_int c' = hp_int c -> hp_real c' = hp_real c ->
  global_step_count c' = global_step_count c ->
  total_training_steps c' = total_training_steps c -> still c c'.
Proof. intros. repeat split; assumption. Qed.

Lemma paced_still {A} (m : M A) : keeps still m -> paced hi 0 m.
Proof.
  intros Hm c Hi. destruct (Hm c) as (A1 & _ & C1 & D1).
  split; [congruence|]. split; [exact D1|]. lia.
Qed.

Lemma paced_weaken {A} (k k' : Z) (m : M A) : paced hi k m -> k <= k' -> paced hi k' m.
Proof.
  intros Hm Hk c Hi. destruct (Hm c Hi) as (A1 & B1 & C1).
  split; [exact A1|]. split; [exact B1|]. lia.
Qed.

Lemma paced_bind {A B} (k1 k2 : Z) (m : M A) (f : A -> M B) :
  paced hi k1 m -> (forall a, paced hi k2 (f a)) -> 0 <= k2 ->
  paced hi (k1 + k2) (bind m f).
Proof.
  intros Hm Hf Hk c Hi. unfold bind. destruct (Hm c Hi) as (A1 & B1 & C1).
  destruct (m c) as [[a|e] c1]; cbn [snd] in *.
  - destruct (Hf a c1 A1) as (A2 & B2 & C2).
    split; [exact A2|]. split; [congruence|]. lia.
  - split; [exact A1|]. split; [exact B1|]. lia.
Qed.

Lemma paced_prefix {A B} (k : Z) (m : M A) (f : A -> M B) :
  keeps still m -> (forall a, paced hi k (f a)) -> 0 <= k -> paced hi k (bind m f).
Proof.
  intros Hm Hf Hk. apply (paced_weaken (0 + k)); [|lia].
  apply paced_bind; [apply paced_still, Hm|exact Hf|exact Hk].
Qed.

Lemma paced_suffix {A B} (k : Z) (m : M A) (f : A -> M B) :
  paced hi k m -> (forall a, keeps still (f a)) -> paced hi k (bind m f).
Proof.
  intros Hm Hf. apply (paced_weaken (k + 0)); [|lia].
  apply paced_bind; [exact Hm| |lia]. intros a. apply paced_still, Hf.
Qed.

Lemma paced_gets_int {B} (k : Z) (f : gmap string Z -> M B) :
  paced hi k (f hi) -> paced hi k (bind (gets hp_int) f).
Proof. intros Hf c Hi. unfold bind, gets. rewrite Hi. apply Hf. exact Hi. Qed.

Lemma paced_lift {A B} (k : Z) (r : result A) (f : A -> M B) :
  (forall a, r = Ok a -> paced hi k (f a)) -> 0 <= k -> paced hi k (bind (lift r) f).
Proof.
  intros Hf Hk c Hi. unfold bind, lift. destruct r as [a|e].
  - apply (Hf a eq_refl). exact Hi.
  - cbn [snd]. split; [exact Hi|]. split; [reflexivity|]. lia.
Qed.

End Pacing.

Ltac still_tac := repeat keeps_step still_refl still_trans still_call still_same.

(** A prefix of plain calls, lookups and reads in front of a paced rest. *)
Ltac paced_prefix_tac :=
  repeat lazymatch goal with
         | |- paced _ _ (bind (for_phases _ _ _) _) => fail
         | |- paced _ _ (bind (for_epochs _ _ _ _ _ _) _) => fail
         | |- paced _ _ (bind (for_micro_batches _ _ _ _ _ _ _) _) => fail
         | |- paced _ _ (bind (gets hp_int) _) => apply paced_gets_int
         | |- paced _ _ (bind (lift _) _) =>
             apply paced_lift; [intros ? ?|try lia]
         | |- paced _ _ (bind _ _) =>
             apply paced_prefix; [solve [still_tac]|intros ?|try lia]
         end.

Section PacingOfPhases.

Variable w : world.
Variable hi : gmap string Z.
Variable m : Z.

Hypothesis micro_batch_size_set : hi !! "micro_batch_size" = Some m.
Hypothesis micro_batch_size_positive : (0 < m)%Z.

Local Open Scope ctl_scope.
Local Open Scope Z_scope.

Lemma steps_per_epoch_nonneg (n : Z) : 0 <= n -> 0 <= steps_per_epoch n m.
Proof.
  intros Hn. unfold steps_per_epoch.
  assert (0 <= n / m) by (apply Z.div_pos; lia).
  destruct (n mod m =? 0); lia.
Qed.

Lemma paced_micro_batch lbl mbs g n i_th start_idx :
  paced hi 1 (micro_batch w lbl mbs g n i_th start_idx).
Proof.
  intros c Hi.
  destruct (micro_batch_step w lbl mbs g n i_th start_idx c) as (A1 & B1 & C1 & _).
  split; [congruence|]. split; [exact B1|]. lia.
Qed.

Lemma paced_for_micro_batches lbl mbs g n starts :
  forall i_th,
    paced hi (Z.of_nat (length starts))
      (for_micro_batches w lbl mbs g n i_th starts).
Proof.
  induction starts as [|start_idx rest IH]; intros i_th; cbn [for_micro_batches].
  - apply paced_still. still_tac.
  - apply (paced_weaken hi (1 + Z.of_nat (length rest))); [|cbn [length]; lia].
    apply paced_bind; [apply paced_micro_batch| |lia].
    intros [|b]; [apply IH|].
    apply (paced_weaken hi 0); [apply paced_still; still_tac|lia].
Qed.

Lemma paced_epoch_body name n_epochs g indexes epoch :
  paced hi (steps_per_epoch (Z.of_nat (length indexes)) m)
    (epoch_body w name n_epochs g indexes epoch).
Proof.
  pose proof (steps_per_epoch_nonneg (Z.of_nat (length indexes)) ltac:(lia)) as Hn.
  unfold epoch_body. cbv zeta.
  do 2 (apply paced_prefix; [solve [still_tac]|intros _|exact Hn]).
  apply paced_gets_int. unfold hp_item. rewrite micro_batch_size_set.
  apply paced_lift; [intros ? [= <-]|exact Hn].
  apply paced_lift; [|exact Hn]. intros starts Hstarts.
  unfold py_range in Hstarts.
  destruct (Z.eqb_spec m 0); [lia|]. destruct (Z.ltb_spec m 0); [lia|].
  injection Hstarts as <-.
  eapply paced_weaken; [apply paced_for_micro_batches|].
  rewrite (range_from_length _ _ micro_batch_size_positive) by lia.
  rewrite Z.sub_0_r, ceiling_div by lia.
  unfold steps_per_epoch in *. lia.
Qed.

Lemma paced_for_epochs name n_epochs g indexes epochs :
  paced hi (Z.of_nat (length epochs)
            * steps_per_epoch (Z.of_nat (length indexes)) m)
    (for_epochs w name n_epochs g indexes epochs).
Proof.
  pose proof (steps_per_epoch_nonneg (Z.of_nat (length indexes)) ltac:(lia)) as Hn.
  induction epochs as [|epoch rest IH]; cbn [for_epochs].
  - apply paced_still. still_tac.
  - eapply paced_weaken.
    + apply paced_bind; [apply paced_epoch_body| |].
      * intros [|b]; [apply IH|].
        eapply paced_weaken; [apply paced_still; still_tac|]. nia.
      * nia.
    + cbn [length]. nia.
Qed.

Lemma paced__train_phase name n_epochs lr indexes :
  paced hi (Z.max 0 n_epochs * steps_per_epoch (Z.of_nat (length indexes)) m)
    (_train_phase w name n_epochs lr indexes).
Proof.
  pose proof (steps_per_epoch_nonneg (Z.of_nat (length indexes)) ltac:(lia)) as Hn.
  assert (Hk : 0 <= Z.max 0 n_epochs
                    * steps_per_epoch (Z.of_nat (length indexes)) m) by nia.
  unfold _train_phase.
  destruct (Z.gtb_spec n_epochs 0) as [Hpos|Hneg]; cbn [negb].
  2:{ eapply paced_weaken; [apply paced_still; still_tac|exact Hk]. }
  apply paced_prefix; [solve [still_tac]|intros _|exact Hk].
  apply paced_prefix; [solve [still_tac]|intros [self_model|]|exact Hk].
  2:{ eapply paced_weaken; [apply paced_still; still_tac|exact Hk]. }
  destruct (trainable_params self_model).
  { eapply paced_weaken; [apply paced_still; still_tac|exact Hk]. }
  do 2 (apply paced_prefix; [solve [still_tac]|intros _|exact Hk]).
  apply paced_gets_int.
  do 3 (apply paced_lift; [intros ? _|exact Hk]).
  apply paced_suffix.
  - eapply paced_weaken; [apply paced_for_epochs|].
    rewrite length_map, length_seq, Z2Nat.id by lia.
    rewrite Z.max_r by lia. lia.
  - intros r. still_tac.
Qed.

Lemma phases_budget_nonneg per_epoch phases :
  0 <= per_epoch -> 0 <= phases_budget per_epoch phases.
Proof.
  intros Hp. induction phases as [|ph rest IH]; cbn [phases_budget foldr]; [lia|].
  fold (phases_budget per_epoch rest). nia.
Qed.

Lemma paced_for_phases phases indexes :
  paced hi (phases_budget (steps_per_epoch (Z.of_nat (length indexes)) m) phases)
    (for_phases w phases indexes).
Proof.
  pose proof (steps_per_epoch_nonneg (Z.of_nat (length indexes)) ltac:(lia)) as Hn.
  induction phases as [|[[[name setup_func] epochs] lr] rest IH]; cbn [for_phases].
  - apply paced_still. still_tac.
  - pose proof (phases_budget_nonneg _ rest Hn) as Hrest.
    cbn [phases_budget foldr fst snd].
    fold (phases_budget (steps_per_epoch (Z.of_nat (length indexes)) m) rest).
    do 2 (apply paced_prefix; [solve [still_tac]|intros _|nia]).
    apply paced_bind; [apply paced__train_phase| |exact Hrest].
    intros [|]; [apply IH|].
    eapply paced_weaken; [apply paced_still; still_tac|exact Hrest].
Qed.

End PacingOfPhases.

Section StillParts.

Variable w : world.

Local Open Scope ctl_scope.

Lemma still__initialize_run : keeps still (_initialize_run w).
Proof. unfold _initialize_run. still_tac. Qed.

Lemma still_oversample hp train : keeps still (oversample w hp train).
Proof. unfold oversample. cbv zeta. still_tac. Qed.

Lemma still_for_eval_batches total starts :
  keeps still (for_eval_batches w total starts).
Proof.
  induction starts as [|i rest IH]; cbn [for_eval_batches]; cbv zeta; still_tac.
Qed.

#[local] Hint Resolve still_for_eval_batches : keeps_db.

Lemma still__evaluate : keeps still (_evaluate w).
Proof. unfold _evaluate. still_tac. Qed.

Lemma still_run_except e : keeps still (run_except w e).
Proof. unfold run_except. still_tac. Qed.

Lemma still__cleanup : keeps still (_cleanup w).
Proof. unfold _cleanup. still_tac. Qed.

#[local] Hint Resolve still__cleanup : keeps_db.

Lemma still_run_finally status : keeps still (run_finally w status).
Proof. unfold run_finally. still_tac. Qed.

(** The index list does not depend on the state of the controller. *)
Lemma oversample_value hp train c1 c2 :
  (oversample w hp train c1).1 = (oversample w hp train c2).1.
Proof.
  unfold oversample, bind, _log, call_back, ret, raise, lift. cbv zeta.
  destruct (num_less train >? 0)%Z; [|reflexivity].
  destruct (ds_len train =? 0)%nat; [reflexivity|].
  destruct (negb _); [|reflexivity].
  destruct (hp_item hp "min_less_portion"); [|reflexivity].
  destruct (Qeq_bool _ _); [reflexivity|].
  destruct (_ >? 0)%Z; [|reflexivity].
  destruct (less_indexes train); reflexivity.
Qed.

End StillParts.

#[export] Hint Resolve still__initialize_run still_oversample still__evaluate
  still_run_except still_run_finally : keeps_db.

Section Budget.

Variable w : world.
Variable hi : gmap string Z.
Variable hr : gmap string Q.
Variable K : Z.

Local Open Scope ctl_scope.
Local Open Scope Z_scope.

Lemma budgeted_prefix {A B} (m : M A) (f : A -> M B) :
  keeps still m ->
  (forall a, (exists c0, (m c0).1 = Ok a) -> budgeted hi hr K (f a)) ->
  budgeted hi hr K (bind m f).
Proof.
  intros Hm Hf c Hi Hr. unfold bind. destruct (Hm c) as (A1 & B1 & C1 & D1).
  destruct (m c) as [[a|e] c1] eqn:E; cbn [snd] in *; [|left; exact C1].
  destruct (Hf a (ex_intro _ c (f_equal fst E)) c1) as [H|[H1 H2]];
    [congruence|congruence| |].
  - left. congruence.
  - right. split; [exact H1|]. lia.
Qed.

Lemma budgeted_suffix {A B} (m : M A) (f : A -> M B) :
  budgeted hi hr K m -> (forall a, keeps still (f a)) -> budgeted hi hr K (bind m f).
Proof.
  intros Hm Hf c Hi Hr. unfold bind. specialize (Hm c Hi Hr).
  destruct (m c) as [[a|e] c1]; cbn [snd] in *; [|exact Hm].
  destruct (Hf a c1) as (_ & _ & C1 & D1).
  destruct Hm as [H|[H1 H2]]; [left; congruence|right].
  split; [congruence|]. lia.
Qed.

Lemma budgeted_gets_int {B} (f : gmap string Z -> M B) :
  budgeted hi hr K (f hi) -> budgeted hi hr K (bind (gets hp_int) f).
Proof. intros Hf c Hi Hr. unfold bind, gets. rewrite Hi. apply Hf; assumption. Qed.

Lemma budgeted_gets_real {B} (f : gmap string Q -> M B) :
  budgeted hi hr K (f hr) -> budgeted hi hr K (bind (gets hp_real) f).
Proof. intros Hf c Hi Hr. unfold bind, gets. rewrite Hr. apply Hf; assumption. Qed.

Lemma budgeted_lift {A B} (r : result A) (f : A -> M B) :
  (forall a, r = Ok a -> budgeted hi hr K (f a)) ->
  budgeted hi hr K (bind (lift r) f).
Proof.
  intros Hf c Hi Hr. unfold bind, lift. destruct r as [a|e].
  - apply (Hf a eq_refl); assumption.
  - left. reflexivity.
Qed.

Lemma budgeted_set_total {B} (rest : M B) :
  paced hi K rest ->
  budgeted hi hr K (modify (set_total_training_steps K) ;;; rest).
Proof.
  intros Hrest c Hi Hr. unfold bind, modify.
  destruct (Hrest (set_total_training_steps K c) Hi) as (_ & B1 & C1).
  right. split; [exact B1|exact C1].
Qed.

End Budget.

Section BudgetOfRun.

Variable w : world.
Variable hi : gmap string Z.
Variable hr : gmap string Q.
Variable m : Z.
Variable base : list Z.

Hypothesis micro_batch_size_set : hi !! "micro_batch_size" = Some m.
Hypothesis micro_batch_size_positive : (0 < m)%Z.
Hypothesis epochs_set :
  Forall (fun k => exists e, hi !! k = Some e /\ (0 <= e)%Z) keys_for_epochs.
Hypothesis indexes : forall c, (oversample w hr (train_csv w) c).1 = Ok base.
Hypothesis whole_batches : (Z.of_nat (length base) mod m = 0)%Z.

Local Open Scope ctl_scope.
Local Open Scope Z_scope.

Lemma budgeted_run_try :
  exists K, budgeted hi hr K (run_try w).
Proof.
  pose proof epochs_set as He. unfold keys_for_epochs in He.
  apply Forall_cons in He. destruct He as [(e1 & He1 & Hg1) He].
  apply Forall_cons in He. destruct He as [(e2 & He2 & Hg2) He].
  apply Forall_cons in He. destruct He as [(e3 & He3 & Hg3) He].
  apply Forall_cons in He. destruct He as [(e4 & He4 & Hg4) _].
  set (q := Z.of_nat (length base) / m).
  assert (Hq : 0 <= q) by (apply Z.div_pos; lia).
  exists (e1 * q + e2 * q + e3 * q + e4 * q).
  assert (HK : compute_total_training_steps hi base
               = Ok (e1 * q + e2 * q + e3 * q + e4 * q)).
  { rewrite (compute_total_training_steps_sum hi base m micro_batch_size_set)
      by lia.
    rewrite He1, He2, He3, He4. reflexivity. }
  assert (HK0 : 0 <= e1 * q + e2 * q + e3 * q + e4 * q) by nia.
  unfold run_try. cbv zeta.
  repeat lazymatch goal with
         | |- budgeted _ _ _ (bind (modify (set_total_training_steps _)) _) => fail
         | |- budgeted _ _ _ (bind (gets hp_int) _) => apply budgeted_gets_int
         | |- budgeted _ _ _ (bind (gets hp_real) _) => apply budgeted_gets_real
         | |- budgeted _ _ _ (bind (oversample _ _ _) _) =>
             apply budgeted_prefix;
             [solve [still_tac]
             |let a := fresh "a" in let c0 := fresh "c" in let Ha := fresh "Ha" in
              intros a [c0 Ha]; rewrite indexes in Ha; injection Ha as <-]
         | |- budgeted _ _ _ (bind (lift (compute_total_training_steps _ _)) _) =>
             rewrite HK; apply budgeted_lift; intros ? [= <-]
         | |- budgeted _ _ _ (bind _ _) =>
             apply budgeted_prefix; [solve [still_tac]|intros ? _]
         end.
  apply budgeted_set_total.
  repeat lazymatch goal with
         | |- paced _ _ (bind (for_phases _ _ _) _) => fail
         | |- paced _ _ (bind (lift (hp_item ?h ?k)) _) =>
             unfold hp_item at 1;
             try (match goal with H : h !! k = Some _ |- _ => rewrite H end);
             apply paced_lift;
             [let a := fresh "a" in let Ha := fresh "Ha" in
              intros a Ha; try (injection Ha as <-)
             |exact HK0]
         | |- paced _ _ (bind _ _) =>
             apply paced_prefix; [solve [still_tac]|intros ?|exact HK0]
         end.
  apply paced_suffix.
  - eapply paced_weaken;
      [apply (paced_for_phases w hi m micro_batch_size_set micro_batch_size_positive)|].
    cbn [phases_budget foldr fst snd]. unfold steps_per_epoch.
    rewrite whole_batches. cbn [Z.eqb]. fold q.
    rewrite !Z.max_r by lia. lia.
  - intros all. still_tac.
Qed.

Lemma budgeted_run : exists K, budgeted hi hr K (run w).
Proof.
  destruct budgeted_run_try as [K HK]. exists K.
  unfold run.
  apply budgeted_prefix; [still_tac|intros _ _].
  apply budgeted_suffix; [|intros status; still_tac].
  intros c Hi Hr. unfold run_try_except. specialize (HK c Hi Hr).
  destruct (run_try w c) as [[status|e] c1]; cbn [snd] in *; [exact HK|].
  destruct (still_run_except w e c1) as (_ & _ & C1 & D1).
  destruct HK as [H|[H1 H2]]; [left; congruence|right].
  split; [congruence|]. lia.
Qed.

End BudgetOfRun.

Section ProgressWithinBudget.

Variable w : world.

Local Open Scope Z_scope.


End ProgressWithinBudget.

